(** * Seatsurfing plugin (clawdbot/index.ts): session, cache and tool core

    A shallow embedding of [src/clawdbot/index.ts].  JavaScript strings are
    sequences of UTF-16 code units, JSON data are dynamically typed values,
    and the module-level variables, the file system, the clock and the
    network form an explicit world that every operation threads through.

    An [async] function is a computation that runs from its call to its
    return or throw; time passes only while a request is awaited.  Two
    invocations that interleave at their [await]s are not modelled, nor is
    the background [tryAutoLogin] of [register]. *)

From Stdlib Require Import ZArith NArith List String Ascii Bool Lia.
From stdpp Require Import base option list gmap.
Import ListNotations.

Local Open Scope Z_scope.
Set Warnings "-register-all".

(** ** JavaScript strings *)

(** A string is the list of its UTF-16 code units; [length] is [.length]. *)
Abbreviation jsstring := (list N).

Fixpoint str (s : string) : jsstring :=
  match s with
  | EmptyString => []
  | String c r => N_of_ascii c :: str r
  end.

Arguments str : simpl never.

Definition unit_eqb (a b : N) : bool := N.eqb a b.

Fixpoint jsstring_eqb (a b : jsstring) : bool :=
  match a, b with
  | [], [] => true
  | x :: a', y :: b' => unit_eqb x y && jsstring_eqb a' b'
  | _, _ => false
  end.

Fixpoint starts_with (p s : jsstring) : bool :=
  match p, s with
  | [], _ => true
  | x :: p', y :: s' => unit_eqb x y && starts_with p' s'
  | _ :: _, [] => false
  end.

(** [String.prototype.includes] *)
Fixpoint includes (needle s : jsstring) : bool :=
  starts_with needle s ||
  match s with
  | [] => false
  | _ :: s' => includes needle s'
  end.

Definition is_digit (c : N) : bool := ((48 <=? c) && (c <=? 57))%N.

(** Decimal digits of a natural number, most significant first. *)
Fixpoint digits_fuel (fuel : nat) (n : N) (acc : jsstring) : jsstring :=
  match fuel with
  | O => acc
  | S f =>
      let acc' := (48 + n mod 10)%N :: acc in
      if (n <? 10)%N then acc' else digits_fuel f (n / 10)%N acc'
  end.

Definition digits_of_N (n : N) : jsstring :=
  digits_fuel (S (N.to_nat (N.log2 n))) n [].

(** The decimal rendering of an integer-valued number in a template. *)
Definition string_of_Z (z : Z) : jsstring :=
  if z <? 0 then 45%N :: digits_of_N (Z.to_N (- z)) else digits_of_N (Z.to_N z).

(** ** Date-time normalisation: [parseDateTime] *)

Module DateTime.

(** The capture groups of one of the two regular expressions. *)
Record captures := Captures {
  cap_y : jsstring; cap_m : jsstring; cap_d : jsstring;
  cap_h : jsstring; cap_min : jsstring; cap_sec : option jsstring
}.

(** [(\d{n})] at the head of [s]: the digits and the rest. *)
Fixpoint take_digits (n : nat) (s : jsstring) : option (jsstring * jsstring) :=
  match n with
  | O => Some ([], s)
  | S n' =>
      match s with
      | c :: s' =>
          if is_digit c
          then '(ds, r) ← take_digits n' s'; Some (c :: ds, r)
          else None
      | [] => None
      end
  end.

(** A literal character of the pattern. *)
Definition expect (c : N) (s : jsstring) : option jsstring :=
  match s with
  | x :: s' => if unit_eqb x c then Some s' else None
  | [] => None
  end.

(** [/^(\d{4})S(\d{2})S(\d{2}) (\d{2}):(\d{2})(?::(\d{2}))?$/] where [S]
    is the date separator [sep]: [-] in the first format, [/] in the
    second.  The optional group either matches [:dd] before the end of
    the input or is skipped at the end of the input. *)
Definition match_format (sep : N) (input : jsstring) : option captures :=
  '(y, r) ← take_digits 4 input;
  r ← expect sep r;
  '(m, r) ← take_digits 2 r;
  r ← expect sep r;
  '(d, r) ← take_digits 2 r;
  r ← expect 32%N r;
  '(h, r) ← take_digits 2 r;
  r ← expect 58%N r;
  '(mi, r) ← take_digits 2 r;
  match r with
  | [] => Some (Captures y m d h mi None)
  | _ =>
      r ← expect 58%N r;
      '(sec, r) ← take_digits 2 r;
      match r with
      | [] => Some (Captures y m d h mi (Some sec))
      | _ => None
      end
  end.

Definition formats : list (jsstring -> option captures) :=
  [match_format 45%N; match_format 47%N].

(** [`${y}-${m}-${d}T${h}:${min}:${sec}.000Z`] with [sec = "00"] when the
    sixth group did not take part in the match. *)
Definition render (c : captures) : jsstring :=
  cap_y c ++ str "-" ++ cap_m c ++ str "-" ++ cap_d c ++ str "T" ++
  cap_h c ++ str ":" ++ cap_min c ++ str ":" ++
  default (str "00") (cap_sec c) ++ str ".000Z".

(** The [for (const fmt of formats)] loop: the first format that matches
    decides; when none does the input is returned. *)
Fixpoint try_formats (fs : list (jsstring -> option captures))
    (input : jsstring) : jsstring :=
  match fs with
  | [] => input
  | fmt :: fs' =>
      match fmt input with
      | Some c => render c
      | None => try_formats fs' input
      end
  end.

Definition parseDateTime (input : jsstring) : jsstring :=
  if includes (str "T") input && (16 <=? length input)%nat
  then input
  else try_formats formats input.

End DateTime.

(** ** Numbers

    A JSON number denotes an IEEE-754 double.  [Fin neg m e] is the finite
    double [(-1)^neg * m * 2^e], with [m = 0, e = 0] for zero, [m < 2^52]
    and [e = -1074] for subnormals, and [2^52 <= m < 2^53] otherwise;
    [Inf neg] is an infinity (JSON.parse yields one for [1e999]). *)

Module Number.

Inductive jsnum :=
| Fin (neg : bool) (m : N) (e : Z)
| Inf (neg : bool).

(** [p / q >= b^g] for positive [p], [q]. *)
Definition ratio_ge_pow (b p q g : Z) : bool :=
  if 0 <=? g then q * b ^ g <=? p else q <=? p * b ^ (- g).

Definition floor_log2 (p q : Z) : Z :=
  let g := Z.log2 p - Z.log2 q in
  if ratio_ge_pow 2 p q g then g else g - 1.

(** The integer nearest to [num / den], ties to the even one. *)
Definition round_half_even (num den : Z) : Z :=
  let a := num / den in
  match 2 * (num mod den) ?= den with
  | Lt => a
  | Gt => a + 1
  | Eq => if Z.even a then a else a + 1
  end.

(** The double nearest to the rational [p / q] ([0 <= p], [0 < q]),
    round-to-nearest, ties-to-even, as ECMAScript prescribes for numeric
    literals. *)
Definition round_ratio (neg : bool) (p q : Z) : jsnum :=
  if p =? 0 then Fin neg 0 0 else
  let t := Z.max (floor_log2 p q - 52) (-1074) in
  let sig :=
    if 0 <=? t then round_half_even p (q * 2 ^ t)
    else round_half_even (p * 2 ^ (- t)) q in
  let t' := if sig =? 2 ^ 53 then t + 1 else t in
  let sig' := if sig =? 2 ^ 53 then 2 ^ 52 else sig in
  if sig' =? 0 then Fin neg 0 0
  else if 971 <? t' then Inf neg
  else Fin neg (Z.to_N sig') t'.

(** The double denoted by the decimal [mant * 10^e10]. *)
Definition of_decimal (neg : bool) (mant : Z) (e10 : Z) : jsnum :=
  if 0 <=? e10 then round_ratio neg (mant * 10 ^ e10) 1
  else round_ratio neg mant (10 ^ (- e10)).

Definition of_Z (z : Z) : jsnum := of_decimal (z <? 0) (Z.abs z) 0.

Definition is_zero (x : jsnum) : bool :=
  match x with
  | Fin _ m _ => (m =? 0)%N
  | Inf _ => false
  end.

(** *** Number::toString (radix 10) *)

Fixpoint bump_log10 (fuel : nat) (p q z : Z) : Z :=
  match fuel with
  | O => z
  | S f => if ratio_ge_pow 10 p q (z + 1) then bump_log10 f p q (z + 1) else z
  end.

(** The [z] with [10^z <= p/q < 10^(z+1)], for [p/q] in the double range. *)
Definition floor_log10 (p q : Z) : Z :=
  bump_log10 4 p q (floor_log2 p q * 30103 / 100000 - 1).

Definition same_double (x : jsnum) (m : N) (e : Z) : bool :=
  match x with
  | Fin _ m' e' => (m' =? m)%N && (e' =? e)
  | Inf _ => false
  end.

(** A candidate [(n, s)] for [k] digits: [s * 10^(n-k)] reads back as the
    double [m * 2^e] and [s] has exactly [k] digits. *)
Definition valid_digits (m : N) (e : Z) (k n s : Z) : bool :=
  (10 ^ (k - 1) <=? s) && (s <? 10 ^ k) &&
  same_double (of_decimal false s (n - k)) m e.

(** [|s * 10^e10 - p/q|] as a fraction. *)
Definition distance (p q s e10 : Z) : Z * Z :=
  if 0 <=? e10 then (Z.abs (s * 10 ^ e10 * q - p), q)
  else (Z.abs (s * q - p * 10 ^ (- e10)), q * 10 ^ (- e10)).

Definition closer (p q k : Z) (a b : Z * Z) : bool :=
  let '(na, da) := distance p q (snd a) (fst a - k) in
  let '(nb, db) := distance p q (snd b) (fst b - k) in
  match na * db ?= nb * da with
  | Lt => true
  | Gt => false
  | Eq => Z.even (snd a)
  end.

Definition pick_closest (p q k : Z) (cs : list (Z * Z)) : option (Z * Z) :=
  match cs with
  | [] => None
  | c :: cs' =>
      Some (fold_left (fun best c' => if closer p q k c' best then c' else best) cs' c)
  end.

Definition floor_scaled (p q e10 : Z) : Z :=
  if 0 <=? e10 then p / (q * 10 ^ e10) else (p * 10 ^ (- e10)) / q.

Definition candidates (m : N) (e : Z) (p q n0 k : Z) : list (Z * Z) :=
  List.filter (fun c => valid_digits m e k (fst c) (snd c))
    (flat_map (fun n => let sf := floor_scaled p q (n - k) in [(n, sf); (n, sf + 1)])
       [n0; n0 + 1]).

(** The least digit count [k] (tried from [k] upwards) that has a
    candidate, with the chosen [(n, s)]. *)
Fixpoint shortest (fuel : nat) (m : N) (e : Z) (p q n0 k : Z) : option (Z * Z * Z) :=
  match fuel with
  | O => None
  | S f =>
      match pick_closest p q k (candidates m e p q n0 k) with
      | Some (n, s) => Some (n, k, s)
      | None => shortest f m e p q n0 (k + 1)
      end
  end.

Definition zeros (n : Z) : jsstring := repeat 48%N (Z.to_nat n).

Definition exponent_part (n : Z) : jsstring :=
  str "e" ++ (if 0 <=? n - 1 then str "+" else str "-") ++ string_of_Z (Z.abs (n - 1)).

Definition format_digits (n k : Z) (ds : jsstring) : jsstring :=
  if (k <=? n) && (n <=? 21) then ds ++ zeros (n - k)
  else if (0 <? n) && (n <=? 21) then
    firstn (Z.to_nat n) ds ++ str "." ++ skipn (Z.to_nat n) ds
  else if (-6 <? n) && (n <=? 0) then str "0." ++ zeros (- n) ++ ds
  else if k =? 1 then ds ++ exponent_part n
  else firstn 1 ds ++ str "." ++ skipn 1 ds ++ exponent_part n.

Definition positive_to_string (m : N) (e : Z) : jsstring :=
  let p := if 0 <=? e then Z.of_N m * 2 ^ e else Z.of_N m in
  let q := if 0 <=? e then 1 else 2 ^ (- e) in
  match shortest 17 m e p q (floor_log10 p q + 1) 1 with
  | Some (n, k, s) => format_digits n k (string_of_Z s)
  | None => []
  end.

Definition to_string (x : jsnum) : jsstring :=
  match x with
  | Inf neg => if neg then str "-Infinity" else str "Infinity"
  | Fin neg m e =>
      if (m =? 0)%N then str "0"
      else (if neg then str "-" else []) ++ positive_to_string m e
  end.

End Number.

(** ** Exceptions and results *)

(** What a [throw] carries.  [Error msg] is [new Error(msg)].  The others
    are exceptions of the platform, told apart by their origin (their
    message texts are engine-specific and not modelled): a [TypeError] of
    the language, the [SyntaxError] of [JSON.parse], the [RangeError] of
    [toISOString], the [URIError] of [encodeURIComponent], the
    [TimeoutError] of an aborted request, the error [fetch] rejects with
    when the network fails, and the errors of [node:fs]. *)
Inductive exn :=
| Error (msg : jsstring)
| TypeError
| SyntaxError
| RangeError
| URIError
| TimeoutError
| FetchError
| FsError.

Inductive Res (A : Type) :=
| Ok (a : A)
| Throw (e : exn).
Arguments Ok {A} a.
Arguments Throw {A} e.

Definition res_bind {A B} (r : Res A) (k : A -> Res B) : Res B :=
  match r with
  | Ok a => k a
  | Throw e => Throw e
  end.

(** ** JavaScript values (as [JSON.parse] produces them) *)

Inductive value :=
| VUndefined
| VNull
| VBool (b : bool)
| VNum (n : Number.jsnum)
| VStr (s : jsstring)
| VArr (items : list value)
| VObj (props : list (jsstring * value)).

(** ToBoolean: [undefined], [null], [false], [0], [-0] and the empty string
    are falsy. *)
Definition truthy (v : value) : bool :=
  match v with
  | VUndefined | VNull => false
  | VBool b => b
  | VNum n => negb (Number.is_zero n)
  | VStr s => match s with [] => false | _ => true end
  | VArr _ | VObj _ => true
  end.

(** [a || b] *)
Definition js_or (a b : value) : value := if truthy a then a else b.

Module Obj.

(** Own properties are kept in the order [OrdinaryOwnPropertyKeys] lists
    them: array indices in ascending order, then the other keys in order
    of creation. *)
Definition props := list (jsstring * value).

Fixpoint lookup (k : jsstring) (ps : props) : option value :=
  match ps with
  | [] => None
  | (k', v) :: ps' => if jsstring_eqb k' k then Some v else lookup k ps'
  end.

Definition has (k : jsstring) (ps : props) : bool :=
  match lookup k ps with Some _ => true | None => false end.

Fixpoint digits_value (s : jsstring) (acc : N) : N :=
  match s with
  | [] => acc
  | c :: s' => digits_value s' (10 * acc + (c - 48))%N
  end.

(** A canonical numeric string below [2^32 - 1] is an array index. *)
Definition array_index (k : jsstring) : option N :=
  match k with
  | [] => None
  | c :: r =>
      if forallb is_digit k
         && (negb (unit_eqb c 48) || match r with [] => true | _ => false end)
         && (length k <=? 10)%nat
         && (digits_value k 0 <=? 4294967294)%N
      then Some (digits_value k 0)
      else None
  end.

(** Where a new key goes: before the first key that must follow it. *)
Definition goes_before (k k' : jsstring) : bool :=
  match array_index k, array_index k' with
  | Some i, Some j => (i <? j)%N
  | Some _, None => true
  | None, _ => false
  end.

Fixpoint insert_new (k : jsstring) (v : value) (ps : props) : props :=
  match ps with
  | [] => [(k, v)]
  | (k', v') :: ps' =>
      if goes_before k k' then (k, v) :: ps
      else (k', v') :: insert_new k v ps'
  end.

Fixpoint replace (k : jsstring) (v : value) (ps : props) : props :=
  match ps with
  | [] => []
  | (k', v') :: ps' =>
      if jsstring_eqb k' k then (k', v) :: ps' else (k', v') :: replace k v ps'
  end.

(** CreateDataProperty: an existing key keeps its place and takes the new
    value, a new key is added. *)
Definition define (k : jsstring) (v : value) (ps : props) : props :=
  if has k ps then replace k v ps else insert_new k v ps.

(** The object literal [{k1: v1, ..., kn: vn}]. *)
Definition literal (kvs : list (jsstring * value)) : value :=
  VObj (fold_left (fun ps kv => define (fst kv) (snd kv) ps) kvs []).

(** The assignment [o[k] = v] on an ordinary object created by [{}].  The
    key [__proto__] is the accessor of [Object.prototype]: assigning an
    object or [null] to it changes the prototype, assigning anything else
    does nothing; neither creates an own property. *)
Definition assign (k : jsstring) (v : value) (ps : props) : props :=
  if jsstring_eqb k (str "__proto__") then ps else define k v ps.

Definition values (ps : props) : list value := map snd ps.

End Obj.

(** [v.k] for a key [k] that no built-in prototype defines (the keys the
    program reads from parsed data: [accessToken], [refreshToken], [id],
    [name], [available], [email] and the four credential keys).  Reading
    a property of [undefined] or [null] throws; on a primitive or an array
    such a key is [undefined]. *)
Definition get_prop (v : value) (k : jsstring) : Res value :=
  match v with
  | VUndefined | VNull => Throw TypeError
  | VObj ps => Ok (default VUndefined (Obj.lookup k ps))
  | _ => Ok VUndefined
  end.

Fixpoint join (sep : jsstring) (parts : list jsstring) : jsstring :=
  match parts with
  | [] => []
  | [p] => p
  | p :: rest => p ++ sep ++ join sep rest
  end.

Fixpoint sequence_res {A} (rs : list (Res A)) : Res (list A) :=
  match rs with
  | [] => Ok []
  | r :: rs' =>
      res_bind r (fun a => res_bind (sequence_res rs') (fun l => Ok (a :: l)))
  end.

(** ToString, as template literals, [String(v)] and property keys apply
    it.  An array is its elements joined by commas ([null] and [undefined]
    elements are empty); a plain object is ["[object Object]"], unless it
    has an own [toString] property: that value, coming from JSON, is not
    callable, [valueOf] then yields no primitive, and the conversion
    throws. *)
Fixpoint to_string (v : value) : Res jsstring :=
  match v with
  | VUndefined => Ok (str "undefined")
  | VNull => Ok (str "null")
  | VBool b => Ok (if b then str "true" else str "false")
  | VNum n => Ok (Number.to_string n)
  | VStr s => Ok s
  | VArr items =>
      res_bind
        (sequence_res
           (map (fun e =>
                   match e with
                   | VUndefined | VNull => Ok []
                   | _ => to_string e
                   end) items))
        (fun parts => Ok (join (str ",") parts))
  | VObj ps =>
      if Obj.has (str "toString") ps then Throw TypeError
      else Ok (str "[object Object]")
  end.

(** ** JSON.parse and JSON.stringify *)

Module Json.

Inductive presult (A : Type) :=
| Parsed (a : A) (rest : jsstring)
| Bad
| OutOfFuel.
Arguments Parsed {A} a rest.
Arguments Bad {A}.
Arguments OutOfFuel {A}.

(** JSON whitespace: space, tab, line feed, carriage return. *)
Definition is_ws (c : N) : bool :=
  unit_eqb c 32 || unit_eqb c 9 || unit_eqb c 10 || unit_eqb c 13.

Fixpoint skip_ws (s : jsstring) : jsstring :=
  match s with
  | c :: s' => if is_ws c then skip_ws s' else s
  | [] => []
  end.

Definition hex_value (c : N) : option N :=
  if is_digit c then Some (c - 48)%N
  else if ((97 <=? c) && (c <=? 102))%N then Some (c - 87)%N
  else if ((65 <=? c) && (c <=? 70))%N then Some (c - 55)%N
  else None.

Definition hex4 (a b c d : N) : option N :=
  a ← hex_value a; b ← hex_value b; c ← hex_value c; d ← hex_value d;
  Some (((a * 16 + b) * 16 + c) * 16 + d)%N.

(** The characters of a string literal after its opening quote, up to the
    closing quote; [acc] holds the decoded units, last first. *)
Fixpoint parse_string_body (s : jsstring) (acc : jsstring) : option (jsstring * jsstring) :=
  match s with
  | [] => None
  | c :: r =>
      if unit_eqb c 34 then Some (rev acc, r)
      else if unit_eqb c 92 then
        match r with
        | [] => None
        | e :: r1 =>
            if unit_eqb e 34 then parse_string_body r1 (34%N :: acc)
            else if unit_eqb e 92 then parse_string_body r1 (92%N :: acc)
            else if unit_eqb e 47 then parse_string_body r1 (47%N :: acc)
            else if unit_eqb e 98 then parse_string_body r1 (8%N :: acc)
            else if unit_eqb e 102 then parse_string_body r1 (12%N :: acc)
            else if unit_eqb e 110 then parse_string_body r1 (10%N :: acc)
            else if unit_eqb e 114 then parse_string_body r1 (13%N :: acc)
            else if unit_eqb e 116 then parse_string_body r1 (9%N :: acc)
            else if unit_eqb e 117 then
              match r1 with
              | a :: b :: c' :: d :: r2 =>
                  match hex4 a b c' d with
                  | Some u => parse_string_body r2 (u :: acc)
                  | None => None
                  end
              | _ => None
              end
            else None
        end
      else if (c <? 32)%N then None
      else parse_string_body r (c :: acc)
  end.

Fixpoint take_while_digits (s : jsstring) : jsstring * jsstring :=
  match s with
  | c :: s' =>
      if is_digit c
      then let '(ds, r) := take_while_digits s' in (c :: ds, r)
      else ([], s)
  | [] => ([], [])
  end.

(** [0] or a non-empty digit run that does not start with [0]. *)
Definition parse_int_part (s : jsstring) : option (jsstring * jsstring) :=
  match s with
  | c :: r =>
      if unit_eqb c 48 then Some ([c], r)
      else if is_digit c then Some (take_while_digits s)
      else None
  | [] => None
  end.

Definition parse_frac_part (s : jsstring) : option (jsstring * jsstring) :=
  match s with
  | c :: r =>
      if unit_eqb c 46 then
        match take_while_digits r with
        | ([], _) => None
        | (ds, r') => Some (ds, r')
        end
      else Some ([], s)
  | [] => Some ([], s)
  end.

Definition parse_exp_digits (neg : bool) (s : jsstring) : option (Z * jsstring) :=
  match take_while_digits s with
  | ([], _) => None
  | (ds, r) =>
      let e := Z.of_N (Obj.digits_value ds 0) in
      Some (if neg then - e else e, r)
  end.

Definition parse_exp_part (s : jsstring) : option (Z * jsstring) :=
  match s with
  | c :: r =>
      if unit_eqb c 101 || unit_eqb c 69 then
        match r with
        | sg :: r' =>
            if unit_eqb sg 43 then parse_exp_digits false r'
            else if unit_eqb sg 45 then parse_exp_digits true r'
            else parse_exp_digits false r
        | [] => None
        end
      else Some (0, s)
  | [] => Some (0, s)
  end.

Definition parse_unsigned (neg : bool) (s : jsstring) : option (Number.jsnum * jsstring) :=
  '(ip, r) ← parse_int_part s;
  '(fp, r) ← parse_frac_part r;
  '(ex, r) ← parse_exp_part r;
  Some (Number.of_decimal neg (Z.of_N (Obj.digits_value (ip ++ fp) 0))
          (ex - Z.of_nat (length fp)), r).

Definition parse_number (s : jsstring) : option (Number.jsnum * jsstring) :=
  match s with
  | c :: r => if unit_eqb c 45 then parse_unsigned true r else parse_unsigned false s
  | [] => None
  end.

Definition lift {A} (o : option (A * jsstring)) : presult A :=
  match o with
  | Some (a, r) => Parsed a r
  | None => Bad
  end.

Definition parse_literal (lit : jsstring) (v : value) (s : jsstring) : presult value :=
  if starts_with lit s then Parsed v (skipn (length lit) s) else Bad.

(** A JSON value with leading whitespace; array elements after [[]; object
    members after [{].  Every call hands its callees one unit of fuel
    less. *)
Fixpoint parse_value (fuel : nat) (s : jsstring) : presult value :=
  match fuel with
  | O => OutOfFuel
  | S f =>
      match skip_ws s with
      | [] => Bad
      | c :: r =>
          if unit_eqb c 123 then
            match skip_ws r with
            | [] => Bad
            | c' :: r' =>
                if unit_eqb c' 125 then Parsed (VObj []) r'
                else parse_members f r []
            end
          else if unit_eqb c 91 then
            match skip_ws r with
            | [] => Bad
            | c' :: r' =>
                if unit_eqb c' 93 then Parsed (VArr []) r'
                else parse_elements f r []
            end
          else if unit_eqb c 34 then
            match parse_string_body r [] with
            | Some (k, r') => Parsed (VStr k) r'
            | None => Bad
            end
          else if unit_eqb c 116 then parse_literal (str "true") (VBool true) (c :: r)
          else if unit_eqb c 102 then parse_literal (str "false") (VBool false) (c :: r)
          else if unit_eqb c 110 then parse_literal (str "null") VNull (c :: r)
          else
            match parse_number (c :: r) with
            | Some (n, r') => Parsed (VNum n) r'
            | None => Bad
            end
      end
  end
with parse_elements (fuel : nat) (s : jsstring) (acc : list value) : presult value :=
  match fuel with
  | O => OutOfFuel
  | S f =>
      match parse_value f s with
      | Parsed v r =>
          match skip_ws r with
          | [] => Bad
          | c :: r' =>
              if unit_eqb c 44 then parse_elements f r' (v :: acc)
              else if unit_eqb c 93 then Parsed (VArr (rev (v :: acc))) r'
              else Bad
          end
      | Bad => Bad
      | OutOfFuel => OutOfFuel
      end
  end
with parse_members (fuel : nat) (s : jsstring) (acc : Obj.props) : presult value :=
  match fuel with
  | O => OutOfFuel
  | S f =>
      match skip_ws s with
      | [] => Bad
      | q :: r =>
          if unit_eqb q 34 then
            match parse_string_body r [] with
            | Some (k, r1) =>
                match skip_ws r1 with
                | [] => Bad
                | c :: r2 =>
                    if unit_eqb c 58 then
                      match parse_value f r2 with
                      | Parsed v r3 =>
                          let acc' := Obj.define k v acc in
                          match skip_ws r3 with
                          | [] => Bad
                          | c' :: r4 =>
                              if unit_eqb c' 44 then parse_members f r4 acc'
                              else if unit_eqb c' 125 then Parsed (VObj acc') r4
                              else Bad
                          end
                      | Bad => Bad
                      | OutOfFuel => OutOfFuel
                      end
                    else Bad
                end
            | None => Bad
            end
          else Bad
      end
  end.

(** [JSON.parse(text)]: [None] stands for the SyntaxError it throws. *)
Definition parse (text : jsstring) : option value :=
  match parse_value (S (2 * length text)) text with
  | Parsed v r => match skip_ws r with [] => Some v | _ => None end
  | _ => None
  end.

(** *** JSON.stringify *)

Definition hex_digit (n : N) : N := if (n <? 10)%N then (48 + n)%N else (87 + n)%N.

Definition unicode_escape (c : N) : jsstring :=
  str "\u" ++ [hex_digit (c / 4096 mod 16); hex_digit (c / 256 mod 16);
               hex_digit (c / 16 mod 16); hex_digit (c mod 16)]%N.

Definition is_high_surrogate (c : N) : bool := ((55296 <=? c) && (c <=? 56319))%N.
Definition is_low_surrogate (c : N) : bool := ((56320 <=? c) && (c <=? 57343))%N.

(** QuoteJSONString without the surrounding quotes; [prev_high] tells that
    the previous unit was a high surrogate paired with this one. *)
Fixpoint quote_units (s : jsstring) (prev_high : bool) : jsstring :=
  match s with
  | [] => []
  | c :: r =>
      let next_low := match r with d :: _ => is_low_surrogate d | [] => false end in
      let paired_high := is_high_surrogate c && next_low in
      (if unit_eqb c 8 then str "\b"
       else if unit_eqb c 9 then str "\t"
       else if unit_eqb c 10 then str "\n"
       else if unit_eqb c 12 then str "\f"
       else if unit_eqb c 13 then str "\r"
       else if unit_eqb c 34 then [92; 34]%N
       else if unit_eqb c 92 then [92; 92]%N
       else if (c <? 32)%N then unicode_escape c
       else if is_high_surrogate c && negb next_low then unicode_escape c
       else if is_low_surrogate c && negb prev_high then unicode_escape c
       else [c])
      ++ quote_units r paired_high
  end.

Definition quote (s : jsstring) : jsstring := [34%N] ++ quote_units s false ++ [34%N].

(** [JSON.stringify(v)] without indentation; [None] is the [undefined] it
    returns for [undefined].  Object members whose value is [undefined] are
    left out, [undefined] array elements and infinite numbers become
    [null]. *)
Fixpoint stringify (v : value) : option jsstring :=
  match v with
  | VUndefined => None
  | VNull => Some (str "null")
  | VBool b => Some (if b then str "true" else str "false")
  | VNum n =>
      match n with
      | Number.Inf _ => Some (str "null")
      | _ => Some (Number.to_string n)
      end
  | VStr s => Some (quote s)
  | VArr items =>
      Some (str "[" ++
            join (str ",") (map (fun e => default (str "null") (stringify e)) items)
            ++ str "]")
  | VObj ps =>
      Some (str "{" ++
            join (str ",")
              ((fix members (ps : list (jsstring * value)) : list jsstring :=
                  match ps with
                  | [] => []
                  | (k, x) :: ps' =>
                      match stringify x with
                      | Some t => (quote k ++ str ":" ++ t) :: members ps'
                      | None => members ps'
                      end
                  end) ps)
            ++ str "}")
  end.

End Json.

(** ** The world: module state, clock, environment, disk and network *)

(** What [fetch] resolves to: status, headers and the decoded body text
    (taken as received in full: [text()] and [json()] do not fail on the
    transport). *)
Record Response := mkResponse {
  status : Z;
  resp_headers : list (jsstring * jsstring);
  resp_body : jsstring
}.

Inductive fetch_result :=
| Responded (r : Response)
| Failed.

(** One future network exchange: how long it takes (milliseconds) and how
    it ends. *)
Record Outcome := mkOutcome {
  delay : Z;
  result : fetch_result
}.

Record Request := mkRequest {
  req_method : jsstring;
  req_url : jsstring;
  req_headers : list (jsstring * jsstring);
  req_body : option jsstring
}.

(** A path of the file system; reading a directory throws. *)
Inductive node :=
| Missing
| Directory
| File (content : jsstring).

(** [let accessToken, refreshToken, tokenExpiresAt, baseUrl] *)
Record Session := mkSession {
  accessToken : value;
  refreshToken : value;
  tokenExpiresAt : Z;
  baseUrl : jsstring
}.

(** What goes wrong when the program writes to the disk: nothing; or the
    operation is refused before anything is touched (no permission, a
    read-only medium); or the file is opened, which creates or truncates
    it, and the write fails afterwards (disk full, I/O error) when
    [written] code units of the text, or all of a shorter text, are in the
    file. *)
Inductive fault :=
| NoFault
| Refused
| Interrupted (written : nat).

(** [~/.seatsurfing], [CONFIG_PATH] and [CACHE_PATH], and the fault a
    write will meet. *)
Record Disk := mkDisk {
  dir_exists : bool;
  config_file : node;
  cache_file : node;
  write_fault : fault
}.

(** Writes go through. *)
Definition writable (d : Disk) : bool :=
  match write_fault d with
  | NoFault => true
  | _ => false
  end.

(** [net] lists the outcomes of the requests still to come, [sent] the
    requests dispatched so far (oldest first). *)
Record World := mkWorld {
  session : Session;
  now : Z;
  env : gmap jsstring jsstring;
  disk : Disk;
  net : list Outcome;
  sent : list Request
}.

Definition set_session (s : Session) (w : World) : World :=
  mkWorld s (now w) (env w) (disk w) (net w) (sent w).

Definition set_disk (d : Disk) (w : World) : World :=
  mkWorld (session w) (now w) (env w) d (net w) (sent w).

(** The initial module state. *)
Definition initial_session : Session := mkSession VNull VNull 0 [].

(** ** Computations *)

Definition M (A : Type) : Type := World -> Res A * World.

Definition ret {A} (a : A) : M A := fun w => (Ok a, w).

Definition bind {A B} (m : M A) (k : A -> M B) : M B :=
  fun w =>
    match m w with
    | (Ok a, w') => k a w'
    | (Throw e, w') => (Throw e, w')
    end.

Definition throw {A} (e : exn) : M A := fun w => (Throw e, w).

(** [try { m } catch { h }] *)
Definition try_catch {A} (m : M A) (h : exn -> M A) : M A :=
  fun w =>
    match m w with
    | (Ok a, w') => (Ok a, w')
    | (Throw e, w') => h e w'
    end.

Definition lift_res {A} (r : Res A) : M A := fun w => (r, w).

Definition gets {A} (f : World -> A) : M A := fun w => (Ok (f w), w).

Definition modify (f : World -> World) : M unit := fun w => (Ok tt, f w).

Declare Scope js_scope.
Delimit Scope js_scope with js.
Notation "'let*' x := m 'in' k" := (bind m (fun x => k))
  (at level 10, x name, m at level 100, k at level 200) : js_scope.
Notation "m ;;; k" := (bind m (fun _ => k))
  (at level 100, k at level 200, right associativity) : js_scope.
Local Open Scope js_scope.

(** [Date.now()] *)
Definition Date_now : M Z := gets now.

(** Assignments to the module variables. *)
Definition set_accessToken (v : value) : M unit :=
  modify (fun w =>
    let s := session w in
    set_session (mkSession v (refreshToken s) (tokenExpiresAt s) (baseUrl s)) w).

Definition set_refreshToken (v : value) : M unit :=
  modify (fun w =>
    let s := session w in
    set_session (mkSession (accessToken s) v (tokenExpiresAt s) (baseUrl s)) w).

Definition set_tokenExpiresAt (t : Z) : M unit :=
  modify (fun w =>
    let s := session w in
    set_session (mkSession (accessToken s) (refreshToken s) t (baseUrl s)) w).

Definition set_baseUrl (u : jsstring) : M unit :=
  modify (fun w =>
    let s := session w in
    set_session (mkSession (accessToken s) (refreshToken s) (tokenExpiresAt s) u) w).

(** ** Responses *)

(** [res.ok]: the status is in the range 200-299. *)
Definition ok (r : Response) : bool := (200 <=? status r) && (status r <=? 299).

(** [await res.text()] *)
Definition res_text (r : Response) : M jsstring := ret (resp_body r).

(** [await res.json()]: throws a SyntaxError on a body that is not JSON. *)
Definition res_json (r : Response) : M value :=
  match Json.parse (resp_body r) with
  | Some v => ret v
  | None => throw SyntaxError
  end.

Definition ascii_lower (c : N) : N :=
  if ((65 <=? c) && (c <=? 90))%N then (c + 32)%N else c.

(** [res.headers.get(name)]: names compare without regard to case, the
    values of a repeated header are joined by [", "], an absent header is
    [null]. *)
Definition headers_get (name : jsstring) (hs : list (jsstring * jsstring)) : value :=
  match List.filter (fun h => jsstring_eqb (map ascii_lower (fst h)) (map ascii_lower name)) hs with
  | [] => VNull
  | found => VStr (join (str ", ") (map snd found))
  end.

(** ** File system *)

(** [existsSync] *)
Definition existsSync (n : node) : bool :=
  match n with
  | Missing => false
  | _ => true
  end.

(** [readFileSync(path, "utf-8")] *)
Definition readFileSync (n : node) : Res jsstring :=
  match n with
  | File content => Ok content
  | _ => Throw FsError
  end.

(** [loadConfig]: the parsed config file, or [{}] when the file is absent
    or anything in the [try] block throws. *)
Definition loadConfig : M value :=
  let* r := try_catch
    (let* f := gets (fun w => config_file (disk w)) in
     if existsSync f then
       let* text := lift_res (readFileSync f) in
       match Json.parse text with
       | Some v => ret (Some v)
       | None => throw SyntaxError
       end
     else ret None)
    (fun _ => ret None) in
  match r with
  | Some v => ret v
  | None => ret (VObj [])
  end.

(** [loadSpacesCache]: the same for the cache file. *)
Definition loadSpacesCache : M value :=
  let* r := try_catch
    (let* f := gets (fun w => cache_file (disk w)) in
     if existsSync f then
       let* text := lift_res (readFileSync f) in
       match Json.parse text with
       | Some v => ret (Some v)
       | None => throw SyntaxError
       end
     else ret None)
    (fun _ => ret None) in
  match r with
  | Some v => ret v
  | None => ret (VObj [])
  end.

(** [mkdirSync(dir, { recursive: true })] *)
Definition mkdirSync : M unit :=
  let* d := gets disk in
  match write_fault d with
  | Refused => throw FsError
  | _ => modify (set_disk (mkDisk true (config_file d) (cache_file d) (write_fault d)))
  end.

(** [writeFileSync(CACHE_PATH, text)]: the file is opened with the flag
    [w], which fails on a directory, in a missing directory or when
    refused, and otherwise creates the file or empties it; the text is
    written then.  A write that fails after the open leaves the part
    already written, and nothing of the old content. *)
Definition writeFileSync_cache (text : jsstring) : M unit :=
  let* d := gets disk in
  match cache_file d with
  | Directory => throw FsError
  | _ =>
      if negb (dir_exists d) then throw FsError
      else
        match write_fault d with
        | NoFault =>
            modify (set_disk (mkDisk (dir_exists d) (config_file d) (File text) NoFault))
        | Refused => throw FsError
        | Interrupted n =>
            modify (set_disk (mkDisk (dir_exists d) (config_file d) (File (firstn n text))
                                (Interrupted n))) ;;;
            throw FsError
        end
  end.

(** [saveSpacesCache(data)] *)
Definition saveSpacesCache (data : value) : M unit :=
  let* d := gets disk in
  (if negb (dir_exists d) then mkdirSync else ret tt) ;;;
  match Json.stringify data with
  | Some text => writeFileSync_cache text
  | None => throw TypeError
  end.

(** ** Credentials *)

(** [process.env[name]] *)
Definition process_env (name : jsstring) : M value :=
  let* e := gets env in
  ret (match e !! name with Some v => VStr v | None => VUndefined end).

(** [a || b] with [b] evaluated only when [a] is falsy. *)
Definition or_else (a : value) (b : M value) : M value :=
  if truthy a then ret a else b.

(** [getCredential(key, envVar)]: after [loadConfig()], the first truthy
    one of [process.env[envVar]] and [config[key]], else the empty string;
    [config[key]] is evaluated only when the environment has nothing. *)
Definition getCredential (key envVar : jsstring) : M value :=
  let* config := loadConfig in
  let* e := process_env envVar in
  let* v := or_else e (lift_res (get_prop config key)) in
  ret (js_or v (VStr [])).

(** ** Built-ins used by the tools *)

Definition pad_left (width : nat) (s : jsstring) : jsstring :=
  repeat 48%N (width - length s) ++ s.

(** [new Date(t).toISOString()] for a time value [t] in milliseconds since
    the epoch; a time value outside the range of [Date] throws. *)
Definition toISOString (t : Z) : Res jsstring :=
  if Z.abs t >? 8640000000000000 then Throw RangeError else
  let days := t / 86400000 in
  let ms := t mod 86400000 in
  let z := days + 719468 in
  let era := z / 146097 in
  let doe := z - era * 146097 in
  let yoe := (doe - doe / 1460 + doe / 36524 - doe / 146096) / 365 in
  let doy := doe - (365 * yoe + yoe / 4 - yoe / 100) in
  let mp := (5 * doy + 2) / 153 in
  let d := doy - (153 * mp + 2) / 5 + 1 in
  let m := if mp <? 10 then mp + 3 else mp - 9 in
  let y := yoe + era * 400 + (if m <=? 2 then 1 else 0) in
  let year :=
    if (0 <=? y) && (y <=? 9999) then pad_left 4 (string_of_Z y)
    else (if y <? 0 then str "-" else str "+") ++ pad_left 6 (string_of_Z (Z.abs y)) in
  Ok (year ++ str "-" ++ pad_left 2 (string_of_Z m) ++ str "-" ++
      pad_left 2 (string_of_Z d) ++ str "T" ++
      pad_left 2 (string_of_Z (ms / 3600000)) ++ str ":" ++
      pad_left 2 (string_of_Z (ms / 60000 mod 60)) ++ str ":" ++
      pad_left 2 (string_of_Z (ms / 1000 mod 60)) ++ str "." ++
      pad_left 3 (string_of_Z (ms mod 1000)) ++ str "Z").

Module Uri.

(** The characters [encodeURIComponent] leaves alone:
    letters, digits and [- _ . ! ~ * ' ( )]. *)
Definition unreserved (c : N) : bool :=
  ((65 <=? c) && (c <=? 90) || (97 <=? c) && (c <=? 122) || (48 <=? c) && (c <=? 57)
   || (c =? 45) || (c =? 95) || (c =? 46) || (c =? 33) || (c =? 126)
   || (c =? 42) || (c =? 39) || (c =? 40) || (c =? 41))%N.

Definition utf8 (cp : N) : list N :=
  (if cp <? 128 then [cp]
   else if cp <? 2048 then [192 + cp / 64; 128 + cp mod 64]
   else if cp <? 65536 then [224 + cp / 4096; 128 + cp / 64 mod 64; 128 + cp mod 64]
   else [240 + cp / 262144; 128 + cp / 4096 mod 64; 128 + cp / 64 mod 64; 128 + cp mod 64])%N.

Definition upper_hex (n : N) : N := if (n <? 10)%N then (48 + n)%N else (55 + n)%N.

Definition percent (b : N) : jsstring := [37; upper_hex (b / 16); upper_hex (b mod 16)]%N.

Definition escape (cp : N) : jsstring := flat_map percent (utf8 cp).

(** [encodeURIComponent(s)]: a surrogate without its partner throws. *)
Fixpoint encodeURIComponent (s : jsstring) : Res jsstring :=
  match s with
  | [] => Ok []
  | c :: r =>
      if unreserved c then res_bind (encodeURIComponent r) (fun t => Ok (c :: t))
      else if Json.is_low_surrogate c then Throw URIError
      else if Json.is_high_surrogate c then
        match r with
        | d :: r' =>
            if Json.is_low_surrogate d then
              res_bind (encodeURIComponent r')
                (fun t => Ok (escape (65536 + (c - 55296) * 1024 + (d - 56320))%N ++ t))
            else Throw URIError
        | [] => Throw URIError
        end
      else res_bind (encodeURIComponent r) (fun t => Ok (escape c ++ t))
  end.

End Uri.

(** ** HTTP gateway *)

(** [fetch(url, { method, headers, body, signal: AbortSignal.timeout(30000) })]:
    the request is recorded, the next outcome is consumed and the clock
    moves on; an exchange that would take 30 s or more is aborted at 30 s.
    When no outcome is left the network is unreachable.  A URL that
    [fetch] would refuse to parse is not told apart: such a call is one
    whose outcome is [Failed]. *)
Definition fetch (req : Request) : M Response :=
  fun w =>
    let log := sent w ++ [req] in
    match net w with
    | [] => (Throw FetchError, mkWorld (session w) (now w) (env w) (disk w) [] log)
    | o :: rest =>
        if 30000 <=? delay o
        then (Throw TimeoutError,
              mkWorld (session w) (now w + 30000) (env w) (disk w) rest log)
        else
          let w' := mkWorld (session w) (now w + delay o) (env w) (disk w) rest log in
          match result o with
          | Responded r => (Ok r, w')
          | Failed => (Throw FetchError, w')
          end
    end.

(** [apiRequest(method, endpoint, body?, authenticated = true)] *)
Definition apiRequest (method endpoint : jsstring) (body : option value)
    (authenticated : bool) : M Response :=
  let* s := gets session in
  let url := baseUrl s ++ endpoint in
  let headers := [(str "Content-Type", str "application/json")] in
  let* headers :=
    if authenticated && truthy (accessToken s)
    then
      let* t := lift_res (to_string (accessToken s)) in
      ret (headers ++ [(str "Authorization", str "Bearer " ++ t)])
    else ret headers in
  fetch (mkRequest method url headers
           (match body with
            | Some b => if truthy b then Json.stringify b else None
            | None => None
            end)).

(** ** Session manager *)

(** [url.replace(/\/$/, ...)] with the empty replacement: one slash at the
    very end is removed. *)
Fixpoint strip_trailing_slash (url : jsstring) : jsstring :=
  match url with
  | [] => []
  | [c] => if unit_eqb c 47 then [] else [c]
  | c :: r => c :: strip_trailing_slash r
  end.

(** The common tail of [login] and of a successful refresh: the tokens are
    taken from the parsed body and the expiry is set 14 minutes ahead. *)
Definition store_tokens (data : value) : M unit :=
  let* at_ := lift_res (get_prop data (str "accessToken")) in
  set_accessToken at_ ;;;
  let* rt := lift_res (get_prop data (str "refreshToken")) in
  set_refreshToken rt ;;;
  let* n := Date_now in
  set_tokenExpiresAt (n + 14 * 60 * 1000).

(** [login(url, email, password, organizationId)] *)
Definition login (url email password organizationId : jsstring) : M unit :=
  set_baseUrl (strip_trailing_slash url) ;;;
  let* res := apiRequest (str "POST") (str "/auth/login")
    (Some (Obj.literal [(str "email", VStr email); (str "password", VStr password);
                        (str "organizationId", VStr organizationId)]))
    false in
  if negb (ok res) then
    let* text := res_text res in
    throw (Error (str "Login failed: " ++ string_of_Z (status res) ++ str " " ++ text))
  else
    let* data := res_json res in
    store_tokens data.

(** [ensureAuthenticated()] *)
Definition ensureAuthenticated : M unit :=
  let* s := gets session in
  if negb (truthy (accessToken s)) then
    throw (Error (str "Not authenticated - please login first"))
  else
    let* n := Date_now in
    if (n >? tokenExpiresAt s - 60000) && truthy (refreshToken s) then
      let* res := apiRequest (str "POST") (str "/auth/refresh")
        (Some (Obj.literal [(str "refreshToken", refreshToken s)])) false in
      if negb (ok res) then
        set_accessToken VNull ;;;
        set_refreshToken VNull ;;;
        throw (Error (str "Token refresh failed - please login again"))
      else
        let* data := res_json res in
        store_tokens data
    else ret tt.

(** ** Tools *)

(** A tool returns [{ content: [{ type: "text", text }] }]; the model
    keeps the text. *)
Definition ToolResult := jsstring.

(** [params.k] on the parameter object the host passes. *)
Definition param (params : Obj.props) (k : jsstring) : value :=
  default VUndefined (Obj.lookup k params).

(** [String(v)] *)
Definition String_ (v : value) : M jsstring := lift_res (to_string v).

(** The callbacks of [map] and [filter] run over the elements in order and
    the first exception ends the call. *)
Fixpoint map_res {A B} (f : A -> Res B) (l : list A) : Res (list B) :=
  match l with
  | [] => Ok []
  | a :: l' => res_bind (f a) (fun b => res_bind (map_res f l') (fun bs => Ok (b :: bs)))
  end.

Fixpoint filter_res {A} (f : A -> Res bool) (l : list A) : Res (list A) :=
  match l with
  | [] => Ok []
  | a :: l' =>
      res_bind (f a) (fun keep =>
        res_bind (filter_res f l') (fun r => Ok (if keep then a :: r else r)))
  end.

(** [v.map(f)] and [v.filter(f)]: only an array has these methods. *)
Definition js_map (v : value) (f : value -> Res value) : Res (list value) :=
  match v with
  | VArr items => map_res f items
  | _ => Throw TypeError
  end.

Definition js_filter (v : value) (f : value -> Res bool) : Res (list value) :=
  match v with
  | VArr items => filter_res f items
  | _ => Throw TypeError
  end.

(** The code points of a string, each as a string: a surrogate pair stays
    together. *)
Fixpoint code_points (s : jsstring) : list jsstring :=
  match s with
  | [] => []
  | c :: r =>
      match r with
      | d :: r' =>
          if Json.is_high_surrogate c && Json.is_low_surrogate d
          then [c; d] :: code_points r'
          else [c] :: code_points r
      | [] => [[c]]
      end
  end.

(** What [for (const x of v)] iterates over: the elements of an array, the
    code points of a string; anything else is not iterable. *)
Definition iterate (v : value) : Res (list value) :=
  match v with
  | VArr items => Ok items
  | VStr s => Ok (map VStr (code_points s))
  | _ => Throw TypeError
  end.

(** *** seatsurfing_login *)

(** [params.k || getCredential(key, envVar)], the value each credential is
    resolved to before [String(...)] is applied. *)
Definition resolveCredential (params : Obj.props) (k key envVar : jsstring) : M value :=
  or_else (param params k) (getCredential key envVar).

Definition createLoginTool_execute (params : Obj.props) : M ToolResult :=
  let* v := resolveCredential params (str "url") (str "url") (str "SEATSURFING_URL") in
  let* url := String_ v in
  let* v := resolveCredential params (str "email") (str "email") (str "SEATSURFING_EMAIL") in
  let* email := String_ v in
  let* v := resolveCredential params (str "password") (str "password") (str "SEATSURFING_PASSWORD") in
  let* password := String_ v in
  let* v := resolveCredential params (str "organization_id") (str "organization_id")
              (str "SEATSURFING_ORG_ID") in
  let* orgId := String_ v in
  if negb (truthy (VStr url)) then throw (Error (str "Seatsurfing URL is required"))
  else if negb (truthy (VStr email)) || negb (truthy (VStr password)) then
    throw (Error (str "Email and password are required"))
  else if negb (truthy (VStr orgId)) then throw (Error (str "Organization ID is required"))
  else
    login url email password orgId ;;;
    ensureAuthenticated ;;;
    let* res := apiRequest (str "GET") (str "/user/me") None true in
    let* user := res_json res in
    let* e := lift_res (get_prop user (str "email")) in
    let* who := String_ (js_or e (VStr (str "unknown"))) in
    ret (str "Logged in: " ++ who).

(** *** seatsurfing_check_availability *)

(** [s => s.available] as a test. *)
Definition is_available (s : value) : Res bool :=
  res_bind (get_prop s (str "available")) (fun a => Ok (truthy a)).

Definition is_occupied (s : value) : Res bool :=
  res_bind (get_prop s (str "available")) (fun a => Ok (negb (truthy a))).

(** [`\t${s.name}\t${s.id}`] *)
Definition available_line (s : value) : Res jsstring :=
  res_bind (get_prop s (str "name")) (fun n =>
  res_bind (to_string n) (fun n =>
  res_bind (get_prop s (str "id")) (fun i =>
  res_bind (to_string i) (fun i =>
  Ok ([9%N] ++ n ++ [9%N] ++ i))))).

(** [`\t${s.name}`] *)
Definition occupied_line (s : value) : Res jsstring :=
  res_bind (get_prop s (str "name")) (fun n =>
  res_bind (to_string n) (fun n => Ok ([9%N] ++ n))).

(** The report built from the parsed response. *)
Definition availability_report (spaces : value) : Res ToolResult :=
  res_bind (js_filter spaces is_available) (fun available =>
  res_bind (js_filter spaces is_occupied) (fun occupied =>
  res_bind (map_res available_line available) (fun alines =>
  res_bind (map_res occupied_line occupied) (fun olines =>
  Ok (join [10%N]
        ([str "AVAILABLE (" ++ string_of_Z (Z.of_nat (length available)) ++ str "):"]
         ++ alines ++
         [str "OCCUPIED (" ++ string_of_Z (Z.of_nat (length occupied)) ++ str "):"]
         ++ olines)))))).

Definition createCheckAvailabilityTool_execute (params : Obj.props) : M ToolResult :=
  let* locationId := String_ (param params (str "location_id")) in
  let* st := String_ (param params (str "start_time")) in
  let start := DateTime.parseDateTime st in
  let* en := String_ (param params (str "end_time")) in
  let end_ := DateTime.parseDateTime en in
  ensureAuthenticated ;;;
  let* enter := lift_res (Uri.encodeURIComponent start) in
  let* leave := lift_res (Uri.encodeURIComponent end_) in
  let* res := apiRequest (str "GET")
    (str "/location/" ++ locationId ++ str "/space/availability?enter=" ++ enter
     ++ str "&leave=" ++ leave) None true in
  if negb (ok res) then throw (Error (str "Failed: " ++ string_of_Z (status res)))
  else
    let* spaces := res_json res in
    lift_res (availability_report spaces).

(** *** seatsurfing_create_booking *)

Definition createBookingTool_execute (params : Obj.props) : M ToolResult :=
  let* spaceId := String_ (param params (str "space_id")) in
  let* st := String_ (param params (str "start_time")) in
  let start := DateTime.parseDateTime st in
  let* en := String_ (param params (str "end_time")) in
  let end_ := DateTime.parseDateTime en in
  let* subject := String_ (js_or (param params (str "subject")) (VStr [])) in
  ensureAuthenticated ;;;
  let* res := apiRequest (str "POST") (str "/booking/")
    (Some (Obj.literal [(str "spaceId", VStr spaceId); (str "enter", VStr start);
                        (str "leave", VStr end_); (str "subject", VStr subject);
                        (str "userEmail", VStr [])]))
    true in
  if negb (status res =? 201) then
    let* text := res_text res in
    throw (Error (str "Booking failed: " ++ string_of_Z (status res) ++ str " " ++ text))
  else
    let* bookingId := String_ (js_or (headers_get (str "X-Object-ID") (resp_headers res))
                                 (VStr (str "created"))) in
    ret (str "Booked: " ++ bookingId).

(** *** seatsurfing_refresh_spaces *)

(** [{ id: x.id, name: x.name }] *)
Definition id_and_name (x : value) : Res value :=
  res_bind (get_prop x (str "id")) (fun i =>
  res_bind (get_prop x (str "name")) (fun n =>
  Ok (Obj.literal [(str "id", i); (str "name", n)]))).

(** One turn of the loop over the locations: the spaces of [loc] are
    fetched and, when the response is 2xx, stored under [loc.id]. *)
Definition refresh_location (loc : value) (spacesByLocation : Obj.props) : M Obj.props :=
  let* i := lift_res (get_prop loc (str "id")) in
  let* i := String_ i in
  let* spaceRes := apiRequest (str "GET") (str "/location/" ++ i ++ str "/space/") None true in
  if ok spaceRes then
    let* spaces := res_json spaceRes in
    let* k := lift_res (get_prop loc (str "id")) in
    let* mapped := lift_res (js_map spaces id_and_name) in
    let* k := String_ k in
    ret (Obj.assign k (VArr mapped) spacesByLocation)
  else ret spacesByLocation.

Fixpoint refresh_locations (locs : list value) (spacesByLocation : Obj.props) : M Obj.props :=
  match locs with
  | [] => ret spacesByLocation
  | loc :: rest =>
      let* acc := refresh_location loc spacesByLocation in
      refresh_locations rest acc
  end.

(** [arr.length] of a value held in [spacesByLocation]. *)
Definition array_length (v : value) : Z :=
  match v with
  | VArr items => Z.of_nat (length items)
  | _ => 0
  end.

Definition createRefreshSpacesTool_execute : M ToolResult :=
  ensureAuthenticated ;;;
  let* locRes := apiRequest (str "GET") (str "/location/") None true in
  if negb (ok locRes) then throw (Error (str "Failed: " ++ string_of_Z (status locRes)))
  else
    let* locations := res_json locRes in
    let* locs := lift_res (iterate locations) in
    let* spacesByLocation := refresh_locations locs [] in
    let* t := Date_now in
    let* updated_at := lift_res (toISOString t) in
    let* listed := lift_res (js_map locations id_and_name) in
    let cacheData :=
      Obj.literal [(str "updated_at", VStr updated_at);
                   (str "locations", VArr listed);
                   (str "spaces", VObj spacesByLocation)] in
    saveSpacesCache cacheData ;;;
    let totalSpaces :=
      fold_left (fun sum arr => sum + array_length arr) (Obj.values spacesByLocation) 0 in
    ret (str "Cache: " ++ string_of_Z (Z.of_nat (length listed)) ++ str " locations, "
         ++ string_of_Z totalSpaces ++ str " spaces").

(** *** seatsurfing_list_locations, seatsurfing_list_spaces *)

(** [v.length]: the number of elements of an array, of code units of a
    string, the own property of that name of an object, [undefined] on a
    number or a boolean; reading it off [undefined] or [null] throws. *)
Definition get_length (v : value) : Res value :=
  match v with
  | VUndefined | VNull => Throw TypeError
  | VArr items => Ok (VNum (Number.of_Z (Z.of_nat (length items))))
  | VStr s => Ok (VNum (Number.of_Z (Z.of_nat (length s))))
  | VObj ps => Ok (default VUndefined (Obj.lookup (str "length") ps))
  | _ => Ok VUndefined
  end.

(** [v.map(f)] for a callback that yields strings. *)
Definition js_map_lines (v : value) (f : value -> Res jsstring) : Res (list jsstring) :=
  match v with
  | VArr items => map_res f items
  | _ => Throw TypeError
  end.

(** [`${x.name}\t${x.id}`] *)
Definition name_tab_id (x : value) : Res jsstring :=
  res_bind (get_prop x (str "name")) (fun n =>
  res_bind (to_string n) (fun n =>
  res_bind (get_prop x (str "id")) (fun i =>
  res_bind (to_string i) (fun i =>
  Ok (n ++ [9%N] ++ i))))).

Definition createListLocationsTool_execute : M ToolResult :=
  ensureAuthenticated ;;;
  let* res := apiRequest (str "GET") (str "/location/") None true in
  if negb (ok res) then throw (Error (str "Failed: " ++ string_of_Z (status res)))
  else
    let* locations := res_json res in
    let* len := lift_res (get_length locations) in
    if negb (truthy len) then ret (str "No locations found.")
    else
      let* lines := lift_res (js_map_lines locations name_tab_id) in
      ret (join [10%N] lines).

Definition createListSpacesTool_execute (params : Obj.props) : M ToolResult :=
  let* locationId := String_ (param params (str "location_id")) in
  ensureAuthenticated ;;;
  let* res := apiRequest (str "GET") (str "/location/" ++ locationId ++ str "/space/")
                None true in
  if negb (ok res) then throw (Error (str "Failed: " ++ string_of_Z (status res)))
  else
    let* spaces := res_json res in
    let* len := lift_res (get_length spaces) in
    if negb (truthy len) then ret (str "No spaces found.")
    else
      let* lines := lift_res (js_map_lines spaces name_tab_id) in
      ret (join [10%N] lines).

(** *** seatsurfing_cancel_booking *)

Definition createCancelBookingTool_execute (params : Obj.props) : M ToolResult :=
  let* bookingId := String_ (param params (str "booking_id")) in
  ensureAuthenticated ;;;
  let* res := apiRequest (str "DELETE") (str "/booking/" ++ bookingId) None true in
  if negb (ok res) then throw (Error (str "Failed: " ++ string_of_Z (status res)))
  else ret (str "Cancelled: " ++ bookingId).

(** *** seatsurfing_list_my_bookings *)

(** The integer part of a finite number. *)
Definition truncate (n : Number.jsnum) : option Z :=
  match n with
  | Number.Fin neg m e =>
      let a := if 0 <=? e then Z.of_N m * 2 ^ e else Z.of_N m / 2 ^ (- e) in
      Some (if neg then - a else a)
  | Number.Inf _ => None
  end.

(** TimeClip: a time value is an integer of at most 8.64e15 in magnitude. *)
Definition time_clip (t : option Z) : option Z :=
  match t with
  | Some z => if Z.abs z <=? 8640000000000000 then Some z else None
  | None => None
  end.

(** The time value of [new Date(v)], [None] for an invalid date.  A string
    goes through [Date.parse]; which strings that accepts beyond the
    ISO format is the engine's choice, so [Date_parse] is a parameter.  An
    array or object is first converted to a string; the other values to a
    number. *)
Definition new_Date (Date_parse : jsstring -> option Z) (v : value) : Res (option Z) :=
  match v with
  | VStr s => Ok (time_clip (Date_parse s))
  | VUndefined => Ok None
  | VNull => Ok (Some 0)
  | VBool b => Ok (Some (if b then 1 else 0))
  | VNum n => Ok (time_clip (truncate n))
  | VArr _ | VObj _ => res_bind (to_string v) (fun s => Ok (time_clip (Date_parse s)))
  end.

(** [s.replace("T", " ")]: the first [T] becomes a space. *)
Fixpoint replace_first_T (s : jsstring) : jsstring :=
  match s with
  | [] => []
  | c :: r => if unit_eqb c 84 then 32%N :: r else c :: replace_first_T r
  end.

(** [formatDateTime(iso)]: the first 16 characters of the ISO rendering
    with a space for the [T]; whatever throws in the [try] block makes it
    return its argument. *)
Definition formatDateTime (Date_parse : jsstring -> option Z) (iso : value) : value :=
  match new_Date Date_parse iso with
  | Ok (Some t) =>
      match toISOString t with
      | Ok s => VStr (replace_first_T (firstn 16 s))
      | Throw _ => iso
      end
  | Ok None => iso
  | Throw _ => iso
  end.

(** [b.space?.name] *)
Definition space_name_of (b : value) : Res value :=
  res_bind (get_prop b (str "space")) (fun sp =>
    match sp with
    | VUndefined | VNull => Ok VUndefined
    | _ => get_prop sp (str "name")
    end).

(** The line of one booking:
    [`${spaceName}\t${formatDateTime(b.enter)}-${formatDateTime(b.leave)}\t${b.id}`]
    with [spaceName = b.space?.name || b.spaceId || "?"]. *)
Definition booking_line (Date_parse : jsstring -> option Z) (b : value) : Res jsstring :=
  res_bind (space_name_of b) (fun n =>
  res_bind (if truthy n then Ok n else get_prop b (str "spaceId")) (fun n =>
  let spaceName := js_or n (VStr (str "?")) in
  res_bind (to_string spaceName) (fun name =>
  res_bind (get_prop b (str "enter")) (fun enter =>
  res_bind (to_string (formatDateTime Date_parse enter)) (fun enter =>
  res_bind (get_prop b (str "leave")) (fun leave =>
  res_bind (to_string (formatDateTime Date_parse leave)) (fun leave =>
  res_bind (get_prop b (str "id")) (fun i =>
  res_bind (to_string i) (fun i =>
  Ok (name ++ [9%N] ++ enter ++ str "-" ++ leave ++ [9%N] ++ i)))))))))).

Definition createListMyBookingsTool_execute (Date_parse : jsstring -> option Z)
    : M ToolResult :=
  ensureAuthenticated ;;;
  let* res := apiRequest (str "GET") (str "/booking/") None true in
  if negb (ok res) then throw (Error (str "Failed: " ++ string_of_Z (status res)))
  else
    let* bookings := res_json res in
    let* len := lift_res (get_length bookings) in
    if negb (truthy len) then ret (str "No upcoming bookings.")
    else
      let* lines := lift_res (js_map_lines bookings (booking_line Date_parse)) in
      ret (join [10%N] lines).

(** ** Auto-login *)

(** [login] as [tryAutoLogin] calls it, with whatever [getCredential]
    returned: [url.replace] exists on a string only, and the other three
    values go into the request body as they are. *)
Definition login_values (url email password organizationId : value) : M unit :=
  match url with
  | VStr u =>
      set_baseUrl (strip_trailing_slash u) ;;;
      let* res := apiRequest (str "POST") (str "/auth/login")
        (Some (Obj.literal [(str "email", email); (str "password", password);
                            (str "organizationId", organizationId)]))
        false in
      if negb (ok res) then
        let* text := res_text res in
        throw (Error (str "Login failed: " ++ string_of_Z (status res) ++ str " " ++ text))
      else
        let* data := res_json res in
        store_tokens data
  | _ => throw TypeError
  end.

(** [tryAutoLogin()]: the four credentials are read first; only the login
    itself is inside the [try]. *)
Definition tryAutoLogin : M unit :=
  let* url := getCredential (str "url") (str "SEATSURFING_URL") in
  let* email := getCredential (str "email") (str "SEATSURFING_EMAIL") in
  let* password := getCredential (str "password") (str "SEATSURFING_PASSWORD") in
  let* orgId := getCredential (str "organization_id") (str "SEATSURFING_ORG_ID") in
  if truthy url && truthy email && truthy password && truthy orgId
  then try_catch (login_values url email password orgId) (fun _ => ret tt)
  else ret tt.

(** * Specification vocabulary

    Predicates and expected values the theorems are stated with, and the
    concrete worlds they are exercised on. *)

(** ** Date-time patterns *)

Definition all_digits (n : nat) (s : jsstring) : Prop :=
  length s = n /\ Forall (fun c => is_digit c = true) s.

(** [input] has the shape [YYYY<sep>MM<sep>DD HH:MM] or
    [YYYY<sep>MM<sep>DD HH:MM:SS], with the groups [c]. *)
Definition Matches (sep : N) (input : jsstring) (c : DateTime.captures) : Prop :=
  all_digits 4 (DateTime.cap_y c) /\ all_digits 2 (DateTime.cap_m c) /\
  all_digits 2 (DateTime.cap_d c) /\ all_digits 2 (DateTime.cap_h c) /\
  all_digits 2 (DateTime.cap_min c) /\
  let stem := DateTime.cap_y c ++ [sep] ++ DateTime.cap_m c ++ [sep] ++
              DateTime.cap_d c ++ [32%N] ++ DateTime.cap_h c ++ [58%N] ++
              DateTime.cap_min c in
  match DateTime.cap_sec c with
  | None => input = stem
  | Some s => all_digits 2 s /\ input = stem ++ [58%N] ++ s
  end.

(** ** Files *)

Definition json_text (v : value) : jsstring := default [] (Json.stringify v).

(** What [loadConfig] and [loadSpacesCache] make of a path. *)
Definition parsed_or_empty (n : node) : value :=
  match n with
  | File text => default (VObj []) (Json.parse text)
  | _ => VObj []
  end.

(** ** Requests, errors and worlds after an exchange *)

Definition not_authenticated : exn :=
  Error (str "Not authenticated - please login first").

Definition refresh_failed : exn :=
  Error (str "Token refresh failed - please login again").

Definition login_failed (r : Response) : exn :=
  Error (str "Login failed: " ++ string_of_Z (status r) ++ str " " ++ resp_body r).

Definition booking_failed (r : Response) : exn :=
  Error (str "Booking failed: " ++ string_of_Z (status r) ++ str " " ++ resp_body r).

Definition login_request (base email password organizationId : jsstring) : Request :=
  mkRequest (str "POST") (base ++ str "/auth/login")
    [(str "Content-Type", str "application/json")]
    (Json.stringify
       (Obj.literal [(str "email", VStr email); (str "password", VStr password);
                     (str "organizationId", VStr organizationId)])).

Definition authenticated_request (method url token : jsstring) (body : option value)
    : Request :=
  mkRequest method url
    [(str "Content-Type", str "application/json");
     (str "Authorization", str "Bearer " ++ token)]
    (match body with
     | Some v => if truthy v then Json.stringify v else None
     | None => None
     end).

(** The world once [req] has been answered by [o]. *)
Definition exchanged (req : Request) (o : Outcome) (rest : list Outcome) (w : World)
    : World :=
  mkWorld (session w) (now w + delay o) (env w) (disk w) rest (sent w ++ [req]).

Definition with_base (u : jsstring) (w : World) : World :=
  set_session (mkSession (accessToken (session w)) (refreshToken (session w))
                 (tokenExpiresAt (session w)) u) w.

(** The login request ends in a non-2xx response or in a network error
    (unreachable, aborted after 30 s, failed). *)
Definition login_request_fails (w : World) : Prop :=
  match net w with
  | [] => True
  | o :: _ =>
      30000 <= delay o \/
      match result o with
      | Failed => True
      | Responded r => ok r = false
      end
  end.

(** ** Booking *)

Definition booking_body (spaceId start end_ subject : jsstring) : value :=
  Obj.literal [(str "spaceId", VStr spaceId); (str "enter", VStr start);
               (str "leave", VStr end_); (str "subject", VStr subject);
               (str "userEmail", VStr [])].

(** [res.headers.get("X-Object-ID") || "created"] *)
Definition booking_id (r : Response) : jsstring :=
  match headers_get (str "X-Object-ID") (resp_headers r) with
  | VStr (c :: s) => c :: s
  | _ => str "created"
  end.

(** ** Availability *)

(** An entry of the availability response, as the callbacks' annotations
    type it. *)
Record Space := mkSpace {
  space_id : jsstring;
  space_name : jsstring;
  space_available : bool
}.

(** The parsed entry [v] carries the fields of [s] (and maybe more). *)
Definition represents (v : value) (s : Space) : Prop :=
  get_prop v (str "id") = Ok (VStr (space_id s)) /\
  get_prop v (str "name") = Ok (VStr (space_name s)) /\
  get_prop v (str "available") = Ok (VBool (space_available s)).

Definition space_value (s : Space) : value :=
  Obj.literal [(str "id", VStr (space_id s)); (str "name", VStr (space_name s));
               (str "available", VBool (space_available s))].

Definition available_of (spaces : list Space) : list Space :=
  List.filter space_available spaces.

Definition occupied_of (spaces : list Space) : list Space :=
  List.filter (fun s => negb (space_available s)) spaces.

(** Lines of text, each but the first preceded by a line feed. *)
Definition lines_text (lines : list jsstring) : jsstring :=
  match lines with
  | [] => []
  | l :: rest => l ++ flat_map (fun x => 10%N :: x) rest
  end.

(** The report: a count line and one line per entry for each of the two
    sets; an available entry shows name and id, an occupied one its name
    only. *)
Definition report_text (spaces : list Space) : jsstring :=
  lines_text
    ([str "AVAILABLE (" ++ string_of_Z (Z.of_nat (length (available_of spaces))) ++ str "):"]
     ++ map (fun s => [9%N] ++ space_name s ++ [9%N] ++ space_id s) (available_of spaces)
     ++ [str "OCCUPIED (" ++ string_of_Z (Z.of_nat (length (occupied_of spaces))) ++ str "):"]
     ++ map (fun s => [9%N] ++ space_name s) (occupied_of spaces)).

Definition availability_url (locationId start end_ : jsstring) : Res jsstring :=
  res_bind (Uri.encodeURIComponent start) (fun enter =>
  res_bind (Uri.encodeURIComponent end_) (fun leave =>
  Ok (str "/location/" ++ locationId ++ str "/space/availability?enter=" ++ enter
      ++ str "&leave=" ++ leave))).

(** ** Cache refresh *)

(** How the fetch of one location's spaces ended: a non-2xx response, or a
    2xx response whose entries map to [mapped]. *)
Inductive LocationFetch :=
| Rejected (r : Response)
| Listed (r : Response) (mapped : list value).

(** One turn of the refresh loop: the location, the string its id converts
    to, the duration of the exchange and its end. *)
Record LocationRun := mkRun {
  run_loc : value;
  run_key : jsstring;
  run_delay : Z;
  run_fetch : LocationFetch
}.

Definition run_response (run : LocationRun) : Response :=
  match run_fetch run with
  | Rejected r => r
  | Listed r _ => r
  end.

Definition run_outcome (run : LocationRun) : Outcome :=
  mkOutcome (run_delay run) (Responded (run_response run)).

Definition rejected (run : LocationRun) : Prop :=
  match run_fetch run with
  | Rejected _ => True
  | Listed _ _ => False
  end.

Definition well_formed_run (run : LocationRun) : Prop :=
  (exists i, get_prop (run_loc run) (str "id") = Ok i /\ to_string i = Ok (run_key run)) /\
  run_delay run < 30000 /\
  match run_fetch run with
  | Rejected r => ok r = false
  | Listed r mapped =>
      ok r = true /\
      exists spaces, Json.parse (resp_body r) = Some spaces /\
                     js_map spaces id_and_name = Ok mapped
  end.

(** What the loop leaves in [spacesByLocation]: only the turns that got a
    2xx response assign to it. *)
Definition spaces_after (runs : list LocationRun) (acc : Obj.props) : Obj.props :=
  fold_left (fun acc run =>
               match run_fetch run with
               | Rejected _ => acc
               | Listed _ mapped => Obj.assign (run_key run) (VArr mapped) acc
               end) runs acc.

Definition spaces_request (base token : jsstring) (run : LocationRun) : Request :=
  authenticated_request (str "GET")
    (base ++ str "/location/" ++ run_key run ++ str "/space/") token None.

Definition total_delay (runs : list LocationRun) : Z :=
  fold_right (fun run d => run_delay run + d) 0 runs.

Definition after_runs (base token : jsstring) (runs : list LocationRun)
    (rest : list Outcome) (w : World) : World :=
  mkWorld (session w) (now w + total_delay runs) (env w) (disk w) rest
    (sent w ++ map (spaces_request base token) runs).

(** [cacheData] *)
Definition snapshot (stamp : jsstring) (listed : list value) (spaces : Obj.props) : value :=
  Obj.literal [(str "updated_at", VStr stamp); (str "locations", VArr listed);
               (str "spaces", VObj spaces)].

Definition cache_summary (listed : list value) (spaces : Obj.props) : jsstring :=
  str "Cache: " ++ string_of_Z (Z.of_nat (length listed)) ++ str " locations, "
  ++ string_of_Z (fold_left (fun sum arr => sum + array_length arr) (Obj.values spaces) 0)
  ++ str " spaces".

(** [spaces] of the cache the disk holds, read back with
    [loadSpacesCache]. *)
Definition cached_spaces (w : World) : Res value :=
  res_bind (fst (loadSpacesCache w)) (fun cache => get_prop cache (str "spaces")).

(** ** Concrete worlds *)

Definition no_disk : Disk := mkDisk false Missing Missing NoFault.

(** An exchange of 120 ms that ends in status [st] with body [body]. *)
Definition respond (st : Z) (body : jsstring) : Outcome :=
  mkOutcome 120 (Responded (mkResponse st [] body)).

(** A session whose tokens are good for another 14 minutes. *)
Definition logged_in (outcomes : list Outcome) : World :=
  mkWorld (mkSession (VStr (str "tok-A")) (VStr (str "tok-R")) 1700000840000
             (str "https://desk.example.com"))
    1700000000000 ∅ no_disk outcomes [].

(** A session whose access token expires within the minute. *)
Definition expiring (outcomes : list Outcome) : World :=
  mkWorld (mkSession (VStr (str "tok-A")) (VStr (str "tok-R")) 1700000030000
             (str "https://desk.example.com"))
    1700000000000 ∅ no_disk outcomes [].

(** Before any login, with a server that answers the login with an empty
    access token. *)
Definition empty_token_world : World :=
  mkWorld initial_session 1700000000000 ∅ no_disk
    [respond 200 (json_text (Obj.literal [(str "accessToken", VStr []);
                                          (str "refreshToken", VStr (str "r1"))]))] [].

(** Before any login, with a server that rejects the login. *)
Definition logged_out_rejected : World :=
  mkWorld initial_session 1700000000000 ∅ no_disk [respond 403 (str "forbidden")] [].

Definition unparsable_cache_world : World :=
  mkWorld initial_session 1700000000000 ∅
    (mkDisk true Missing (File (str "{not json")) NoFault) [] [].

Definition config_text : jsstring :=
  json_text (Obj.literal [(str "url", VStr (str "https://cfg.example.com"));
                          (str "email", VStr (str "cfg@example.com"))]).

(** [SEATSURFING_URL] is set, to the empty string; the config file has a
    url. *)
Definition empty_env_world : World :=
  mkWorld initial_session 1700000000000
    {[ str "SEATSURFING_URL" := [] ]}
    (mkDisk true (File config_text) Missing NoFault) [] [].

(** The config file holds the JSON text [null]. *)
Definition null_config_world : World :=
  mkWorld initial_session 1700000000000 ∅
    (mkDisk true (File (str "null")) Missing NoFault) [] [].

(** [SEATSURFING_URL] and the config file both give a url; only the config
    file gives an email. *)
Definition env_and_config_world : World :=
  mkWorld initial_session 1700000000000
    {[ str "SEATSURFING_URL" := str "https://env.example.com" ]}
    (mkDisk true (File config_text) Missing NoFault) [] [].

Definition booking_params : Obj.props :=
  [(str "space_id", VStr (str "space-7"));
   (str "start_time", VStr (str "2025-06-01 09:00"));
   (str "end_time", VStr (str "2025-06-01 17:00"))].

Definition availability_params : Obj.props :=
  [(str "location_id", VStr (str "loc-1"));
   (str "start_time", VStr (str "2025-06-01 09:00"));
   (str "end_time", VStr (str "2025-06-01 17:00"))].

(** Five entries with the flags T, F, T, T, F. *)
Definition five_spaces : list Space :=
  [mkSpace (str "s1") (str "Desk 1") true;
   mkSpace (str "s2") (str "Desk 2") false;
   mkSpace (str "s3") (str "Desk 3") true;
   mkSpace (str "s4") (str "Desk 4") true;
   mkSpace (str "s5") (str "Desk 5") false].

(** The report for them, unit by unit: 10 is the line feed, 9 the tab. *)
Definition five_report : jsstring :=
  str "AVAILABLE (3):" ++ [10%N; 9%N] ++ str "Desk 1" ++ [9%N] ++ str "s1" ++
  [10%N; 9%N] ++ str "Desk 3" ++ [9%N] ++ str "s3" ++
  [10%N; 9%N] ++ str "Desk 4" ++ [9%N] ++ str "s4" ++
  [10%N] ++ str "OCCUPIED (2):" ++
  [10%N; 9%N] ++ str "Desk 2" ++
  [10%N; 9%N] ++ str "Desk 5".

Definition availability_world : World :=
  logged_in [respond 200 (json_text (VArr (map space_value five_spaces)))].

(** Two locations; the spaces of [L1] cannot be fetched (status 500), those
    of [L2] can. *)
Definition location_L1 : value :=
  Obj.literal [(str "id", VStr (str "L1")); (str "name", VStr (str "Head office"))].

Definition location_L2 : value :=
  Obj.literal [(str "id", VStr (str "L2")); (str "name", VStr (str "Annex"))].

Definition desk_S1 : value :=
  Obj.literal [(str "id", VStr (str "S1")); (str "name", VStr (str "Desk 1"))].

Definition refresh_runs : list LocationRun :=
  [mkRun location_L1 (str "L1") 120 (Rejected (mkResponse 500 [] (str "unavailable")));
   mkRun location_L2 (str "L2") 120
     (Listed (mkResponse 200 [] (json_text (VArr [desk_S1]))) [desk_S1])].

Definition refresh_world : World :=
  logged_in (respond 200 (json_text (VArr [location_L1; location_L2]))
             :: map run_outcome refresh_runs).

(** ** Session refresh and requests *)

(** A refresh is due: there is a truthy access token, the expiry is less
    than a minute away and there is a truthy refresh token. *)
Definition refresh_due (w : World) : bool :=
  truthy (accessToken (session w))
  && (now w >? tokenExpiresAt (session w) - 60000)
  && truthy (refreshToken (session w)).

Definition refresh_request (w : World) : Request :=
  mkRequest (str "POST") (baseUrl (session w) ++ str "/auth/refresh")
    [(str "Content-Type", str "application/json")]
    (Json.stringify (Obj.literal [(str "refreshToken", refreshToken (session w))])).

(** The request ends without a usable answer: the network fails, or the
    response is 2xx with a body that is not JSON. *)
Definition no_usable_answer (w : World) : Prop :=
  match net w with
  | [] => True
  | o :: _ =>
      30000 <= delay o \/
      match result o with
      | Failed => True
      | Responded r => ok r = true /\ Json.parse (resp_body r) = None
      end
  end.

(** The headers [apiRequest] sends. *)
Definition request_headers (authenticated : bool) (token : value) (t : jsstring)
    : list (jsstring * jsstring) :=
  (str "Content-Type", str "application/json")
  :: if authenticated && truthy token then [(str "Authorization", str "Bearer " ++ t)] else [].

Definition request_body (body : option value) : option jsstring :=
  match body with
  | Some v => if truthy v then Json.stringify v else None
  | None => None
  end.

(** ** Values that survive the cache file *)

(** [k] can follow the keys [seen] in an object: it is new, and no key
    already there has to come after it. *)
Definition appendable (k : jsstring) (seen : list jsstring) : bool :=
  forallb (fun k' => negb (jsstring_eqb k' k) && negb (Obj.goes_before k k')) seen.

Fixpoint ordered_from (seen ks : list jsstring) : bool :=
  match ks with
  | [] => true
  | k :: r => appendable k seen && ordered_from (seen ++ [k]) r
  end.

(** Values made of [null], booleans, strings, arrays and objects whose own
    keys are distinct and in property order: no [undefined], no number. *)
Fixpoint storable (v : value) : bool :=
  match v with
  | VNull | VBool _ | VStr _ => true
  | VArr items => forallb storable items
  | VObj ps => ordered_from [] (map fst ps) && forallb (fun kv => storable (snd kv)) ps
  | VUndefined | VNum _ => false
  end.

(** ** More concrete worlds *)

Definition token_pair (a r : string) : value :=
  Obj.literal [(str "accessToken", VStr (str a)); (str "refreshToken", VStr (str r))].

(** Before any login, with a server that accepts it. *)
Definition logged_out_accepted : World :=
  mkWorld initial_session 1700000000000 ∅ no_disk
    [respond 200 (json_text (token_pair "tok-A" "tok-R"))] [].

(** The refresh that is due is answered with a new pair of tokens. *)
Definition rotating_world : World :=
  expiring [respond 200 (json_text (token_pair "tok-B" "tok-S"))].

(** The refresh that is due is answered 200 with a page that is not JSON. *)
Definition garbled_refresh_world : World :=
  expiring [respond 200 (str "<html>down for maintenance</html>")].

(** The refresh that is due is answered 200 with an object without tokens. *)
Definition tokenless_refresh_world : World :=
  expiring [respond 200 (str "{}")].

(** A session in good standing, an old cache on the disk, and a write
    that will fail when one code unit is in the file. *)
Definition interrupted_save_world : World :=
  mkWorld (session (logged_in [])) 1700000000000 ∅
    (mkDisk true Missing
       (File (json_text (VObj [(str "spaces", VObj []); (str "old", VNull)])))
       (Interrupted 1))
    [] [].

(** The refresh of [refresh_world] on a disk that holds an old cache and
    will fail in the same way. *)
Definition interrupted_refresh_world : World :=
  mkWorld (session refresh_world) (now refresh_world) ∅
    (mkDisk true Missing (File (str "{}")) (Interrupted 1))
    (net refresh_world) [].

(** ** Listings *)

Definition failed (r : Response) : exn :=
  Error (str "Failed: " ++ string_of_Z (status r)).

(** A parsed answer that the listing tools take as empty: its [length] is
    falsy. *)
Definition empty_listing (v : value) : Prop :=
  match v with
  | VArr items => items = []
  | VStr s => s = []
  | VObj ps =>
      match Obj.lookup (str "length") ps with
      | Some x => truthy x = false
      | None => True
      end
  | VNum _ | VBool _ => True
  | VUndefined | VNull => False
  end.

(** The entry [v] is shown with the name [n] and the id [i]: what its
    [name] and [id] convert to. *)
Definition shown_as (v : value) (entry : jsstring * jsstring) : Prop :=
  exists vn vi,
    get_prop v (str "name") = Ok vn /\ to_string vn = Ok (fst entry) /\
    get_prop v (str "id") = Ok vi /\ to_string vi = Ok (snd entry).

Definition listing_text (entries : list (jsstring * jsstring)) : jsstring :=
  join [10%N] (map (fun e => fst e ++ [9%N] ++ snd e) entries).

(** A session in good standing and a server that answers [{}]. *)
Definition empty_answer_world : World := logged_in [respond 200 (str "{}")].

Definition two_locations_world : World :=
  logged_in [respond 200 (json_text (VArr [location_L1; location_L2]))].

(** A session in good standing and a server under maintenance. *)
Definition refused_world : World := logged_in [respond 503 (str "maintenance")].

Definition cancel_params : Obj.props := [(str "booking_id", VStr (str "b/42"))].

Definition cancelling_world : World := logged_in [respond 204 []].

Definition login_params : Obj.props :=
  [(str "url", VStr (str "https://desk.example.com/"));
   (str "email", VStr (str "me@example.com"));
   (str "password", VStr (str "pw"));
   (str "organization_id", VStr (str "org-1"))].

(** The login is accepted; the profile request that follows is answered
    401 with an empty object. *)
Definition login_tool_world : World :=
  mkWorld initial_session 1700000000000 ∅ no_disk
    [respond 200 (json_text (token_pair "tok-A" "tok-R")); respond 401 (str "{}")] [].

(** ** Frames *)

(** A computation that leaves the disk alone. *)
Definition keeps_disk {A} (m : M A) : Prop := forall w, disk (snd (m w)) = disk w.

(** Keys in own-property order. *)
Definition key_sorted (ks : list jsstring) : Prop :=
  ForallOrdPairs (fun a b => a <> b /\ Obj.goes_before b a = false) ks.

(** An entry whose [id] and [name] can be stored. *)
Definition plain_entry (v : value) : Prop :=
  exists i n, get_prop v (str "id") = Ok i /\ get_prop v (str "name") = Ok n /\
              storable i = true /\ storable n = true.

Definition plain_run (run : LocationRun) : Prop :=
  plain_entry (run_loc run) /\
  match run_fetch run with
  | Listed _ mapped => forallb storable mapped = true
  | Rejected _ => True
  end.

(** ** Auto-login *)

(** The credentials [tryAutoLogin] reads, in this order. *)
Definition credential_keys : list (jsstring * jsstring) :=
  [(str "url", str "SEATSURFING_URL"); (str "email", str "SEATSURFING_EMAIL");
   (str "password", str "SEATSURFING_PASSWORD");
   (str "organization_id", str "SEATSURFING_ORG_ID")].

(** The request [tryAutoLogin] sends for the credentials it found. *)
Definition auto_login_request (url : jsstring) (email password organizationId : value)
    : Request :=
  mkRequest (str "POST") (strip_trailing_slash url ++ str "/auth/login")
    [(str "Content-Type", str "application/json")]
    (Json.stringify
       (Obj.literal [(str "email", email); (str "password", password);
                     (str "organizationId", organizationId)])).

(** All four credentials in the environment; the server refuses them. *)
Definition auto_login_world : World :=
  mkWorld initial_session 1700000000000
    (<[ str "SEATSURFING_URL" := str "https://desk.example.com/" ]>
       (<[ str "SEATSURFING_EMAIL" := str "me@example.com" ]>
          (<[ str "SEATSURFING_PASSWORD" := str "pw" ]>
             {[ str "SEATSURFING_ORG_ID" := str "org-1" ]})))
    no_disk [respond 401 (str "denied")] [].

(** ** Calendar *)

Definition is_leap (y : Z) : bool :=
  (y mod 4 =? 0) && (negb (y mod 100 =? 0) || (y mod 400 =? 0)).

Definition days_in_month (y m : Z) : Z :=
  if m =? 2 then (if is_leap y then 29 else 28)
  else if (m =? 4) || (m =? 6) || (m =? 9) || (m =? 11) then 30
  else 31.

(** The day number, counted from 1970-01-01, of a date of the proleptic
    Gregorian calendar. *)
Definition days_from_civil (y m d : Z) : Z :=
  let y' := if m <=? 2 then y - 1 else y in
  let era := y' / 400 in
  let yoe := y' - era * 400 in
  let mp := if 2 <? m then m - 3 else m + 9 in
  let doy := (153 * mp + 2) / 5 + d - 1 in
  let doe := yoe * 365 + yoe / 4 - yoe / 100 + doy in
  era * 146097 + doe - 719468.

(** The time value of a UTC date and time of day. *)
Definition utc_ms (y m d h mi s : Z) : Z :=
  days_from_civil y m d * 86400000 + h * 3600000 + mi * 60000 + s * 1000.

(** A date and time to the minute, with a year of four digits. *)
Definition valid_minute (y m d h mi : Z) : Prop :=
  0 <= y <= 9999 /\ 1 <= m <= 12 /\ 1 <= d <= days_in_month y m /\
  0 <= h <= 23 /\ 0 <= mi <= 59.

(** [YYYY-MM-DD HH:MM], the shape the tools show and accept. *)
Definition minute_text (y m d h mi : Z) : jsstring :=
  pad_left 4 (string_of_Z y) ++ str "-" ++ pad_left 2 (string_of_Z m) ++ str "-" ++
  pad_left 2 (string_of_Z d) ++ str " " ++ pad_left 2 (string_of_Z h) ++ str ":" ++
  pad_left 2 (string_of_Z mi).

(** Whether the [width] digits of every number below [bound] are what
    [pad_left] makes of it. *)
Definition padded_digits (width : nat) (n : nat) : bool :=
  let s := pad_left width (string_of_Z (Z.of_nat n)) in
  (length s =? width)%nat && forallb is_digit s.

(** ** Normalised times *)

(** The seconds of a matched input: its sixth group, or [00] without
    one. *)
Definition seconds_of (c : DateTime.captures) : jsstring :=
  match DateTime.cap_sec c with
  | Some s => s
  | None => [48%N; 48%N]
  end.

(** [Y-M-DTh:mi:s.000Z] from six groups of digits, unit by unit: 45 is
    the hyphen, 84 the letter T, 58 the colon. *)
Definition iso_text (y m d h mi s : jsstring) : jsstring :=
  y ++ 45%N :: m ++ 45%N :: d ++ 84%N :: h ++ 58%N :: mi ++ 58%N :: s ++ str ".000Z".

(** ** The availability query *)

(** A normalised time as it appears in the query string: the colons are
    percent-encoded. *)
Definition encoded_time (c : DateTime.captures) : jsstring :=
  DateTime.cap_y c ++ str "-" ++ DateTime.cap_m c ++ str "-" ++ DateTime.cap_d c ++
  str "T" ++ DateTime.cap_h c ++ str "%3A" ++ DateTime.cap_min c ++ str "%3A" ++
  default (str "00") (DateTime.cap_sec c) ++ str ".000Z".

(** One member of a serialised object. *)
Definition member_text (kv : jsstring * value) : jsstring :=
  Json.quote (fst kv) ++ str ":" ++ json_text (snd kv).

(** The first unit of a serialised value is neither whitespace nor a
    closing bracket. *)
Definition opens (s : jsstring) : Prop :=
  exists c t, s = c :: t /\ Json.is_ws c = false /\ unit_eqb c 93 = false /\
              unit_eqb c 125 = false.

(** With enough fuel the parser reads a storable value back from its
    serialisation, whatever follows it. *)
Definition reads_back (v : value) : Prop :=
  storable v = true ->
  forall f rest, (2 * length (json_text v) < f)%nat ->
  Json.parse_value f (json_text v ++ rest) = Json.Parsed v rest.

(** The steps of the refresh before the save, with the snapshot they
    build. *)
Definition refresh_gather : M (value * jsstring) :=
  ensureAuthenticated ;;;
  let* locRes := apiRequest (str "GET") (str "/location/") None true in
  if negb (ok locRes) then throw (Error (str "Failed: " ++ string_of_Z (status locRes)))
  else
    let* locations := res_json locRes in
    let* locs := lift_res (iterate locations) in
    let* spacesByLocation := refresh_locations locs [] in
    let* t := Date_now in
    let* updated_at := lift_res (toISOString t) in
    let* listed := lift_res (js_map locations id_and_name) in
    ret (snapshot updated_at listed spacesByLocation,
         cache_summary listed spacesByLocation).

(** * Properties *)

(** ** Strings *)

Lemma unit_eqb_eq a b : unit_eqb a b = true <-> a = b.
Proof. unfold unit_eqb. apply N.eqb_eq. Qed.

Lemma jsstring_eqb_eq a b : jsstring_eqb a b = true <-> a = b.
Proof.
  revert b. induction a as [|x a IH]; intros [|y b]; simpl; try (split; congruence).
  rewrite andb_true_iff, IH, unit_eqb_eq.
  split; [intros [-> ->]; reflexivity | intros [= -> ->]; auto].
Qed.

Lemma includes_unit c s : includes [c] s = true <-> In c s.
Proof.
  induction s as [|x s IH]; simpl.
  - split; [discriminate|tauto].
  - rewrite orb_true_iff, IH, andb_true_r, unit_eqb_eq.
    destruct s; simpl; intuition congruence.
Qed.

(** ** Decimal numerals *)

Lemma digits_value_acc s : forall a,
  Obj.digits_value s a = (a * 10 ^ N.of_nat (length s) + Obj.digits_value s 0)%N.
Proof.
  induction s as [|c s IH]; intros a; cbn [Obj.digits_value length].
  - simpl. lia.
  - rewrite IH, (IH (10 * 0 + (c - 48))%N).
    rewrite Nat2N.inj_succ, N.pow_succ_r'. lia.
Qed.

Lemma digits_fuel_value f : forall n acc,
  (n < 2 ^ N.of_nat f)%N ->
  Obj.digits_value (digits_fuel f n acc) 0
  = (n * 10 ^ N.of_nat (length acc) + Obj.digits_value acc 0)%N.
Proof.
  induction f as [|f IH]; intros n acc Hn.
  - simpl in Hn. assert (n = 0%N) by lia. subst. simpl. lia.
  - cbn [digits_fuel].
    assert (Hcons : forall m, (m < 10)%N ->
              Obj.digits_value ((48 + m)%N :: acc) 0
              = (m * 10 ^ N.of_nat (length acc) + Obj.digits_value acc 0)%N).
    { intros m Hm. cbn [Obj.digits_value]. rewrite digits_value_acc.
      replace (10 * 0 + (48 + m - 48))%N with m by lia. reflexivity. }
    destruct (n <? 10)%N eqn:E.
    + apply N.ltb_lt in E. rewrite N.mod_small by assumption. apply Hcons. exact E.
    + apply N.ltb_ge in E. rewrite IH.
      * rewrite Hcons by (apply N.mod_upper_bound; discriminate).
        cbn [length]. rewrite Nat2N.inj_succ, N.pow_succ_r'.
        pose proof (N.div_mod n 10 ltac:(discriminate)) as Hdm. nia.
      * rewrite Nat2N.inj_succ, N.pow_succ_r' in Hn.
        apply N.Div0.div_lt_upper_bound. lia.
Qed.

(** The digits [digits_of_N] prints denote the number. *)
Lemma digits_of_N_value n : Obj.digits_value (digits_of_N n) 0 = n.
Proof.
  unfold digits_of_N. rewrite digits_fuel_value.
  - simpl. lia.
  - rewrite Nat2N.inj_succ, N2Nat.id.
    destruct n as [|p]; [reflexivity|].
    apply N.log2_lt_pow2; lia.
Qed.

(** A status is printed as the decimal numeral that denotes it. *)
Lemma string_of_Z_value z :
  0 <= z -> Obj.digits_value (string_of_Z z) 0 = Z.to_N z.
Proof.
  intros Hz. unfold string_of_Z.
  destruct (z <? 0) eqn:E; [apply Z.ltb_lt in E; lia|].
  apply digits_of_N_value.
Qed.

(** ** Date-time normalisation *)

Section DateTimeFacts.

Import DateTime.

Lemma take_digits_sound n : forall s ds r,
  take_digits n s = Some (ds, r) -> s = ds ++ r /\ all_digits n ds.
Proof.
  unfold all_digits.
  induction n as [|n IH]; intros s ds r; simpl.
  - intros [= <- <-]. auto.
  - destruct s as [|c s]; [discriminate|].
    destruct (is_digit c) eqn:Hc; [|discriminate].
    destruct (take_digits n s) as [[ds' r']|] eqn:E; simpl; [|discriminate].
    intros [= <- <-]. apply IH in E as (-> & Hl & Hf).
    simpl. repeat split; auto.
Qed.

Lemma take_digits_complete n : forall ds r,
  all_digits n ds -> take_digits n (ds ++ r) = Some (ds, r).
Proof.
  unfold all_digits.
  induction n as [|n IH]; intros ds r [Hl Hf].
  - destruct ds; [reflexivity|discriminate].
  - destruct ds as [|d ds]; [discriminate|].
    injection Hl as Hl. inversion Hf as [|? ? Hd Hf']; subst.
    simpl. rewrite Hd, IH by auto. reflexivity.
Qed.

Lemma take_digits_all n ds :
  all_digits n ds -> take_digits n ds = Some (ds, []).
Proof.
  intros H. rewrite <- (app_nil_r ds) at 1. now apply take_digits_complete.
Qed.

Lemma expect_sound c s r : expect c s = Some r -> s = c :: r.
Proof.
  destruct s as [|x s]; simpl; [discriminate|].
  destruct (unit_eqb x c) eqn:E; [|discriminate].
  apply unit_eqb_eq in E as ->. congruence.
Qed.

Lemma expect_complete c r : expect c (c :: r) = Some r.
Proof. simpl. unfold unit_eqb. rewrite N.eqb_refl. reflexivity. Qed.

#[local] Arguments take_digits : simpl never.
#[local] Arguments expect : simpl never.

Ltac step_digits H :=
  match type of H with
  | context [take_digits ?n ?s] =>
      let E := fresh "E" in
      destruct (take_digits n s) as [[? ?]|] eqn:E; simpl in H; [|discriminate];
      apply take_digits_sound in E as [-> ?]
  end.

Ltac step_expect H :=
  match type of H with
  | context [expect ?c ?s] =>
      let E := fresh "E" in
      destruct (expect c s) as [?|] eqn:E; simpl in H; [|discriminate];
      apply expect_sound in E;
      first [injection E as -> -> | idtac]
  end.

(** The matcher accepts exactly the inputs of the two shapes. *)
Lemma match_format_sound sep input c :
  match_format sep input = Some c -> Matches sep input c.
Proof.
  unfold match_format, Matches. intros H.
  step_digits H. step_expect H. step_digits H. step_expect H.
  step_digits H. step_expect H. step_digits H. step_expect H.
  step_digits H. subst.
  match type of H with
  | context [match ?r with [] => _ | _ => _ end] => destruct r as [|x r]
  end.
  - injection H as <-. simpl. rewrite app_nil_r.
    repeat (split; [assumption|]). reflexivity.
  - step_expect H. step_digits H.
    match type of H with
    | context [match ?r with [] => _ | _ => _ end] => destruct r; [|discriminate]
    end.
    injection H as <-.
    simpl. rewrite app_nil_r.
    repeat (split; [assumption|]).
    repeat (rewrite <- app_assoc; simpl). reflexivity.
Qed.

Lemma match_format_complete sep input c :
  Matches sep input c -> match_format sep input = Some c.
Proof.
  destruct c as [y m d h mi sec]. unfold Matches; simpl.
  intros (Hy & Hm & Hd & Hh & Hmi & Hs).
  unfold match_format.
  destruct sec as [s|].
  - destruct Hs as [Hs ->].
    repeat (rewrite <- app_assoc; simpl).
    rewrite (take_digits_complete 4 y) by assumption. simpl.
    rewrite ?expect_complete. simpl.
    rewrite (take_digits_complete 2 m) by assumption. simpl.
    rewrite ?expect_complete. simpl.
    rewrite (take_digits_complete 2 d) by assumption. simpl.
    rewrite ?expect_complete. simpl.
    rewrite (take_digits_complete 2 h) by assumption. simpl.
    rewrite ?expect_complete. simpl.
    rewrite (take_digits_complete 2 mi) by assumption. simpl.
    rewrite ?expect_complete. simpl.
    rewrite (take_digits_all 2 s) by assumption. simpl. reflexivity.
  - subst input.
    repeat (rewrite <- app_assoc; simpl).
    rewrite (take_digits_complete 4 y) by assumption. simpl.
    rewrite ?expect_complete. simpl.
    rewrite (take_digits_complete 2 m) by assumption. simpl.
    rewrite ?expect_complete. simpl.
    rewrite (take_digits_complete 2 d) by assumption. simpl.
    rewrite ?expect_complete. simpl.
    rewrite (take_digits_complete 2 h) by assumption. simpl.
    rewrite ?expect_complete. simpl.
    rewrite (take_digits_all 2 mi) by assumption. simpl. reflexivity.
Qed.

Lemma digits_have_no_T n s : all_digits n s -> ~ In 84%N s.
Proof.
  intros [_ Hf] Hin. rewrite Forall_forall in Hf.
  apply list_elem_of_In in Hin.
  apply Hf in Hin. discriminate.
Qed.

(** No input of either shape contains the letter T. *)
Lemma matched_has_no_T sep input c :
  sep <> 84%N -> Matches sep input c -> includes (str "T") input = false.
Proof.
  intros Hsep (Hy & Hm & Hd & Hh & Hmi & Hs).
  apply not_true_is_false. change (str "T") with [84%N].
  rewrite includes_unit. intros Hin.
  assert (Hstem : ~ In 84%N (cap_y c ++ [sep] ++ cap_m c ++ [sep] ++ cap_d c ++ [32%N] ++
              cap_h c ++ [58%N] ++ cap_min c)).
  { rewrite !in_app_iff. simpl.
    pose proof (digits_have_no_T _ _ Hy). pose proof (digits_have_no_T _ _ Hm).
    pose proof (digits_have_no_T _ _ Hd). pose proof (digits_have_no_T _ _ Hh).
    pose proof (digits_have_no_T _ _ Hmi).
    intuition (try congruence; try discriminate). }
  cbv zeta in Hs. destruct (cap_sec c) as [s|].
  - destruct Hs as [Hs ->]. rewrite in_app_iff in Hin. destruct Hin as [Hin|Hin]; [tauto|].
    simpl in Hin. destruct Hin as [Hin|Hin]; [discriminate|].
    exact (digits_have_no_T _ _ Hs Hin).
  - subst. tauto.
Qed.

(** C8, as amended.  [parseDateTime] maps "2025-06-01 09:00" to
    "2025-06-01T09:00:00.000Z"; an input that already is a timestamp with
    the [T] designator (any input that contains [T], whatever its length)
    is returned unchanged; and so is every input that has neither of the
    two accepted shapes, [YYYY-MM-DD HH:MM[:SS]] and the same written with
    slashes, [YYYY/MM/DD HH:MM[:SS]].  An input of the slash shape is not
    passed through: "2025/06/01 09:00:30" becomes
    "2025-06-01T09:00:30.000Z". *)
Theorem parseDateTime_normalises :
  parseDateTime (str "2025-06-01 09:00") = str "2025-06-01T09:00:00.000Z" /\
  (forall input, includes (str "T") input = true -> parseDateTime input = input) /\
  (forall input,
     (forall sep c, In sep [45%N; 47%N] -> ~ Matches sep input c) ->
     parseDateTime input = input) /\
  parseDateTime (str "2025/06/01 09:00:30") = str "2025-06-01T09:00:30.000Z".
Proof.
  split; [reflexivity|split; [|split]].
  - intros input HT. unfold parseDateTime. rewrite HT, andb_true_l.
    destruct (16 <=? length input)%nat; [reflexivity|].
    unfold formats, try_formats.
    destruct (match_format 45 input) as [c|] eqn:E1.
    { apply match_format_sound, matched_has_no_T in E1; [congruence|discriminate]. }
    destruct (match_format 47 input) as [c|] eqn:E2.
    { apply match_format_sound, matched_has_no_T in E2; [congruence|discriminate]. }
    reflexivity.
  - intros input Hno. unfold parseDateTime.
    destruct (includes (str "T") input && (16 <=? length input)%nat); [reflexivity|].
    unfold formats, try_formats.
    destruct (match_format 45 input) as [c|] eqn:E1.
    { apply match_format_sound in E1. exfalso. apply (Hno 45%N c); simpl; auto. }
    destruct (match_format 47 input) as [c|] eqn:E2.
    { apply match_format_sound in E2. exfalso. apply (Hno 47%N c); simpl; auto. }
    reflexivity.
  - reflexivity.
Qed.

(** C8 fails as stated: "2025/06/01 09:00" has none of the shapes
    [YYYY-MM-DD HH:MM[:SS]], yet it is not returned unchanged; the second
    regular expression accepts it and it is rewritten. *)
Lemma parseDateTime_rewrites_slash_input :
  (forall c, ~ Matches 45%N (str "2025/06/01 09:00") c) /\
  parseDateTime (str "2025/06/01 09:00") = str "2025-06-01T09:00:00.000Z" /\
  parseDateTime (str "2025/06/01 09:00") <> str "2025/06/01 09:00".
Proof.
  split; [|split].
  - intros c HM. apply match_format_complete in HM. vm_compute in HM. discriminate HM.
  - reflexivity.
  - vm_compute. discriminate.
Qed.

Lemma parseDateTime_normalises_witness :
  parseDateTime (str "2025-06-01T09:00:00.000Z") = str "2025-06-01T09:00:00.000Z" /\
  parseDateTime (str "2025-06-01T09") = str "2025-06-01T09" /\
  parseDateTime (str "tomorrow 9am") = str "tomorrow 9am".
Proof.
  destruct parseDateTime_normalises as (_ & Hiso & Hother & _).
  split; [apply Hiso; reflexivity|].
  split; [apply Hiso; reflexivity|].
  apply Hother. intros sep c Hin HM.
  apply match_format_complete in HM.
  destruct Hin as [<-|[<-|[]]]; vm_compute in HM; discriminate HM.
Defined.

End DateTimeFacts.

(** ** JSON.parse is total *)

Section ParserFacts.

Import Json.

Lemma skip_ws_length s : (length (skip_ws s) <= length s)%nat.
Proof.
  induction s as [|c s IH]; simpl; [lia|].
  destruct (is_ws c); simpl; lia.
Qed.

Lemma skip_ws_cons s c r : skip_ws s = c :: r -> (length r < length s)%nat.
Proof.
  intros H. pose proof (skip_ws_length s) as Hl. rewrite H in Hl. simpl in Hl. lia.
Qed.

Lemma parse_string_body_shorter n : forall s acc k r,
  (length s <= n)%nat -> parse_string_body s acc = Some (k, r) -> (length r < length s)%nat.
Proof.
  induction n as [|n IH]; intros s acc k r Hn H.
  - destruct s; [discriminate|simpl in Hn; lia].
  - destruct s as [|c s]; [discriminate|]. simpl in Hn.
    cbn [parse_string_body] in H.
    destruct (unit_eqb c 34).
    { injection H as <- <-. simpl. lia. }
    destruct (unit_eqb c 92).
    + destruct s as [|e r1]; [discriminate|]. simpl in Hn.
      assert (Hrec : forall a, parse_string_body r1 a = Some (k, r) ->
                     (length r < length (c :: e :: r1))%nat).
      { intros a Ha. apply IH in Ha; simpl; lia. }
      repeat match type of H with
             | (if ?b then _ else _) = _ => destruct b; [eapply Hrec; exact H|]
             end.
      destruct (unit_eqb e 117); [|discriminate].
      destruct r1 as [|a [|b [|c' [|d r2]]]]; try discriminate.
      destruct (hex4 a b c' d); [|discriminate].
      apply IH in H; simpl in *; lia.
    + destruct (c <? 32)%N; [discriminate|].
      apply IH in H; simpl; lia.
Qed.

Lemma take_while_digits_length s :
  (length (snd (take_while_digits s)) <= length s)%nat.
Proof.
  induction s as [|c s IH]; simpl; [lia|].
  destruct (is_digit c); simpl; [|lia].
  destruct (take_while_digits s); simpl in *. lia.
Qed.

Lemma take_while_digits_total s ds r :
  take_while_digits s = (ds, r) -> (length ds + length r = length s)%nat.
Proof.
  revert ds r. induction s as [|c s IH]; simpl; intros ds r H.
  - injection H as <- <-. reflexivity.
  - destruct (is_digit c).
    + destruct (take_while_digits s) as [ds' r'] eqn:E. injection H as <- <-.
      specialize (IH _ _ eq_refl). simpl. lia.
    + injection H as <- <-. simpl. lia.
Qed.

Lemma parse_int_part_shorter s ds r :
  parse_int_part s = Some (ds, r) -> (length r < length s)%nat.
Proof.
  destruct s as [|c s]; [discriminate|]. unfold parse_int_part.
  destruct (unit_eqb c 48).
  { intros [= <- <-]. simpl. lia. }
  destruct (is_digit c) eqn:Hc; [|discriminate].
  intros [= H]. simpl in H. rewrite Hc in H.
  destruct (take_while_digits s) as [ds' r'] eqn:E. injection H as <- <-.
  apply take_while_digits_total in E. simpl. lia.
Qed.

Lemma parse_frac_part_le s ds r :
  parse_frac_part s = Some (ds, r) -> (length r <= length s)%nat.
Proof.
  destruct s as [|c s]; simpl.
  { intros [= <- <-]. simpl. lia. }
  destruct (unit_eqb c 46).
  - destruct (take_while_digits s) as [[|d ds'] r'] eqn:E; [discriminate|].
    intros [= <- <-]. apply take_while_digits_total in E. simpl in *. lia.
  - intros [= <- <-]. simpl. lia.
Qed.

Lemma parse_exp_digits_le neg s e r :
  parse_exp_digits neg s = Some (e, r) -> (length r <= length s)%nat.
Proof.
  unfold parse_exp_digits.
  destruct (take_while_digits s) as [[|d ds'] r'] eqn:E; [discriminate|].
  intros [= <- <-]. apply take_while_digits_total in E. simpl in *. lia.
Qed.

Lemma parse_exp_part_le s e r :
  parse_exp_part s = Some (e, r) -> (length r <= length s)%nat.
Proof.
  destruct s as [|c s]; simpl.
  { intros [= <- <-]. simpl. lia. }
  destruct (unit_eqb c 101 || unit_eqb c 69).
  - destruct s as [|sg s']; [discriminate|].
    destruct (unit_eqb sg 43); [intros H; apply parse_exp_digits_le in H; simpl; lia|].
    destruct (unit_eqb sg 45); intros H; apply parse_exp_digits_le in H; simpl in *; lia.
  - intros [= <- <-]. simpl. lia.
Qed.

Lemma parse_unsigned_shorter neg s n r :
  parse_unsigned neg s = Some (n, r) -> (length r < length s)%nat.
Proof.
  unfold parse_unsigned.
  destruct (parse_int_part s) as [[ip r1]|] eqn:E1; [|discriminate]. simpl.
  destruct (parse_frac_part r1) as [[fp r2]|] eqn:E2; [|discriminate]. simpl.
  destruct (parse_exp_part r2) as [[ex r3]|] eqn:E3; [|discriminate]. simpl.
  intros [= <- <-].
  apply parse_int_part_shorter in E1. apply parse_frac_part_le in E2.
  apply parse_exp_part_le in E3. lia.
Qed.

Lemma parse_number_shorter s n r :
  parse_number s = Some (n, r) -> (length r < length s)%nat.
Proof.
  destruct s as [|c s]; [discriminate|]. unfold parse_number.
  destruct (unit_eqb c 45); intros H; apply parse_unsigned_shorter in H; simpl in *; lia.
Qed.

Lemma parse_literal_shorter lit v s v' r :
  lit <> [] -> parse_literal lit v s = Parsed v' r -> (length r < length s)%nat /\ v' = v.
Proof.
  unfold parse_literal. intros Hl.
  destruct (starts_with lit s) eqn:E; [|discriminate].
  intros [= <- <-]. split; [|reflexivity].
  rewrite length_skipn.
  assert (length lit <= length s)%nat.
  { clear Hl. revert s E. induction lit as [|x lit IH]; intros s E; simpl; [lia|].
    destruct s as [|y s]; [discriminate|]. simpl in E.
    apply andb_true_iff in E as [_ E]. apply IH in E. simpl. lia. }
  destruct lit; [congruence|]. simpl in *. lia.
Qed.

(** With more than twice the input's length as fuel the parser never
    runs out of it, what it parses is shorter than what it was given, and
    it never produces [undefined]. *)
Lemma parser_total fuel :
  (forall s, (2 * length s < fuel)%nat -> parse_value fuel s <> OutOfFuel) /\
  (forall s v r, parse_value fuel s = Parsed v r -> (length r < length s)%nat /\ v <> VUndefined) /\
  (forall s acc, (2 * length s + 1 < fuel)%nat -> parse_elements fuel s acc <> OutOfFuel) /\
  (forall s acc v r, parse_elements fuel s acc = Parsed v r -> (length r < length s)%nat /\ v <> VUndefined) /\
  (forall s acc, (2 * length s + 1 < fuel)%nat -> parse_members fuel s acc <> OutOfFuel) /\
  (forall s acc v r, parse_members fuel s acc = Parsed v r -> (length r < length s)%nat /\ v <> VUndefined).
Proof.
  induction fuel as [|f (IHv1 & IHv2 & IHe1 & IHe2 & IHm1 & IHm2)].
  { repeat split; intros; try lia; try discriminate. }
  split; [|split; [|split; [|split; [|split]]]].
  - intros s Hf. cbn [parse_value].
    destruct (skip_ws s) as [|c r] eqn:Es; [discriminate|].
    apply skip_ws_cons in Es.
    destruct (unit_eqb c 123).
    { destruct (skip_ws r) as [|c' r'] eqn:Er; [discriminate|].
      destruct (unit_eqb c' 125); [discriminate|]. apply IHm1. lia. }
    destruct (unit_eqb c 91).
    { destruct (skip_ws r) as [|c' r'] eqn:Er; [discriminate|].
      destruct (unit_eqb c' 93); [discriminate|]. apply IHe1. lia. }
    destruct (unit_eqb c 34).
    { destruct (parse_string_body r []) as [[? ?]|]; discriminate. }
    unfold parse_literal.
    destruct (unit_eqb c 116); [destruct (starts_with _ _); discriminate|].
    destruct (unit_eqb c 102); [destruct (starts_with _ _); discriminate|].
    destruct (unit_eqb c 110); [destruct (starts_with _ _); discriminate|].
    destruct (parse_number (c :: r)) as [[? ?]|]; discriminate.
  - intros s v r0. cbn [parse_value].
    destruct (skip_ws s) as [|c r] eqn:Es; [discriminate|].
    pose proof (skip_ws_length s) as Hs. rewrite Es in Hs. simpl in Hs.
    destruct (unit_eqb c 123).
    { destruct (skip_ws r) as [|c' r'] eqn:Er; [discriminate|].
      apply skip_ws_cons in Er.
      destruct (unit_eqb c' 125).
      - intros [= <- <-]. split; [lia|discriminate].
      - intros H. apply IHm2 in H as [? ?]. split; [lia|assumption]. }
    destruct (unit_eqb c 91).
    { destruct (skip_ws r) as [|c' r'] eqn:Er; [discriminate|].
      apply skip_ws_cons in Er.
      destruct (unit_eqb c' 93).
      - intros [= <- <-]. split; [lia|discriminate].
      - intros H. apply IHe2 in H as [? ?]. split; [lia|assumption]. }
    destruct (unit_eqb c 34).
    { destruct (parse_string_body r []) as [[k r']|] eqn:E; [|discriminate].
      apply (parse_string_body_shorter _ _ _ _ _ (Nat.le_refl _)) in E.
      intros [= <- <-]. split; [lia|discriminate]. }
    destruct (unit_eqb c 116).
    { intros H. apply parse_literal_shorter in H as [? ->]; [|discriminate].
      simpl in *. split; [lia|discriminate]. }
    destruct (unit_eqb c 102).
    { intros H. apply parse_literal_shorter in H as [? ->]; [|discriminate].
      simpl in *. split; [lia|discriminate]. }
    destruct (unit_eqb c 110).
    { intros H. apply parse_literal_shorter in H as [? ->]; [|discriminate].
      simpl in *. split; [lia|discriminate]. }
    destruct (parse_number (c :: r)) as [[n r']|] eqn:E; [|discriminate].
    apply parse_number_shorter in E. intros [= <- <-]. simpl in *. split; [lia|discriminate].
  - intros s acc Hf. cbn [parse_elements].
    destruct (parse_value f s) as [v r| |] eqn:E.
    + apply IHv2 in E as [E _].
      destruct (skip_ws r) as [|c r'] eqn:Er; [discriminate|]. apply skip_ws_cons in Er.
      destruct (unit_eqb c 44); [apply IHe1; lia|].
      destruct (unit_eqb c 93); discriminate.
    + discriminate.
    + exfalso. revert E. apply IHv1. lia.
  - intros s acc v0 r0. cbn [parse_elements].
    destruct (parse_value f s) as [v r| |] eqn:E; try discriminate.
    apply IHv2 in E as [E _].
    destruct (skip_ws r) as [|c r'] eqn:Er; [discriminate|]. apply skip_ws_cons in Er.
    destruct (unit_eqb c 44).
    { intros H. apply IHe2 in H as [? ?]. split; [lia|assumption]. }
    destruct (unit_eqb c 93); [|discriminate].
    intros [= <- <-]. split; [lia|discriminate].
  - intros s acc Hf. cbn [parse_members].
    destruct (skip_ws s) as [|q r] eqn:Es; [discriminate|]. apply skip_ws_cons in Es.
    destruct (unit_eqb q 34); [|discriminate].
    destruct (parse_string_body r []) as [[k r1]|] eqn:E1; [|discriminate].
    apply (parse_string_body_shorter _ _ _ _ _ (Nat.le_refl _)) in E1.
    destruct (skip_ws r1) as [|c r2] eqn:E2; [discriminate|]. apply skip_ws_cons in E2.
    destruct (unit_eqb c 58); [|discriminate].
    destruct (parse_value f r2) as [v r3| |] eqn:E3.
    + apply IHv2 in E3 as [E3 _]. cbv zeta.
      destruct (skip_ws r3) as [|c' r4] eqn:E4; [discriminate|]. apply skip_ws_cons in E4.
      destruct (unit_eqb c' 44); [apply IHm1; lia|].
      destruct (unit_eqb c' 125); discriminate.
    + discriminate.
    + exfalso. revert E3. apply IHv1. lia.
  - intros s acc v0 r0. cbn [parse_members].
    destruct (skip_ws s) as [|q r] eqn:Es; [discriminate|]. apply skip_ws_cons in Es.
    destruct (unit_eqb q 34); [|discriminate].
    destruct (parse_string_body r []) as [[k r1]|] eqn:E1; [|discriminate].
    apply (parse_string_body_shorter _ _ _ _ _ (Nat.le_refl _)) in E1.
    destruct (skip_ws r1) as [|c r2] eqn:E2; [discriminate|]. apply skip_ws_cons in E2.
    destruct (unit_eqb c 58); [|discriminate].
    destruct (parse_value f r2) as [v r3| |] eqn:E3; try discriminate.
    apply IHv2 in E3 as [E3 _]. cbv zeta.
    destruct (skip_ws r3) as [|c' r4] eqn:E4; [discriminate|]. apply skip_ws_cons in E4.
    destruct (unit_eqb c' 44).
    { intros H. apply IHm2 in H as [? ?]. split; [lia|assumption]. }
    destruct (unit_eqb c' 125); [|discriminate].
    intros [= <- <-]. split; [lia|discriminate].
Qed.

(** [parse] never fails for lack of fuel: [None] is a syntax error. *)
Lemma parse_fuel_suffices text :
  parse_value (S (2 * length text)) text <> OutOfFuel.
Proof. apply (parser_total (S (2 * length text))). lia. Qed.

Lemma parse_not_undefined text v : Json.parse text = Some v -> v <> VUndefined.
Proof.
  unfold parse.
  destruct (parse_value _ text) as [v' r| |] eqn:E; try discriminate.
  apply (parser_total (S (2 * length text))) in E as [_ E].
  destruct (skip_ws r); [|discriminate]. intros [= <-]. exact E.
Qed.

End ParserFacts.

(** ** Files and credentials *)

Lemma parsed_or_empty_defined n : parsed_or_empty n <> VUndefined.
Proof.
  destruct n as [| |text]; simpl; try discriminate.
  destruct (Json.parse text) as [v|] eqn:E; simpl; [|discriminate].
  eapply parse_not_undefined; eassumption.
Qed.

Lemma loadSpacesCache_reads_disk w :
  loadSpacesCache w = (Ok (parsed_or_empty (cache_file (disk w))), w).
Proof.
  unfold loadSpacesCache, bind, try_catch, gets, parsed_or_empty. simpl.
  destruct (cache_file (disk w)) as [| |text]; try reflexivity.
  simpl. unfold lift_res. simpl.
  destruct (Json.parse text); reflexivity.
Qed.

Lemma loadConfig_reads_disk w :
  loadConfig w = (Ok (parsed_or_empty (config_file (disk w))), w).
Proof.
  unfold loadConfig, bind, try_catch, gets, parsed_or_empty. simpl.
  destruct (config_file (disk w)) as [| |text]; try reflexivity.
  simpl. unfold lift_res. simpl.
  destruct (Json.parse text); reflexivity.
Qed.

(** C9. Loading the entity cache never throws and leaves the world as it
    is; when the cache file is absent, cannot be read, or does not parse as
    JSON, the result is the empty object. *)
Theorem loadSpacesCache_never_throws w :
  (exists v, loadSpacesCache w = (Ok v, w)) /\
  (cache_file (disk w) = Missing \/ cache_file (disk w) = Directory \/
   (exists text, cache_file (disk w) = File text /\ Json.parse text = None) ->
   loadSpacesCache w = (Ok (VObj []), w)).
Proof.
  rewrite loadSpacesCache_reads_disk. split; [eauto|].
  intros [H|[H|(text & H & Hp)]]; rewrite H; simpl; [reflexivity..|].
  rewrite Hp. reflexivity.
Qed.

Lemma loadSpacesCache_never_throws_witness :
  loadSpacesCache unparsable_cache_world = (Ok (VObj []), unparsable_cache_world).
Proof.
  apply (proj2 (loadSpacesCache_never_throws unparsable_cache_world)).
  right. right. exists (str "{not json"). split; reflexivity.
Defined.

Lemma getCredential_cases key envVar w :
  getCredential key envVar w =
  match env w !! envVar with
  | Some (c :: e) => (Ok (VStr (c :: e)), w)
  | _ =>
      match get_prop (parsed_or_empty (config_file (disk w))) key with
      | Ok v => (Ok (js_or v (VStr [])), w)
      | Throw e => (Throw e, w)
      end
  end.
Proof.
  unfold getCredential. unfold bind at 1. rewrite loadConfig_reads_disk.
  unfold bind at 1. unfold process_env, bind, gets, ret.
  destruct (env w !! envVar) as [[|c e]|]; simpl; unfold lift_res;
    try reflexivity;
    destruct (get_prop (parsed_or_empty (config_file (disk w))) key); reflexivity.
Qed.

(** C5, as amended.  A credential resolves to the caller's value when that
    is non-empty (truthy); else to the environment variable when that is set
    and non-empty, whatever the config file holds; else to the value the
    config file, read from the disk as it is at the call, has for the key,
    or to the empty string when that value is missing or falsy.  The world
    is unchanged, and resolution does not throw when the config file is
    absent, unreadable, unparsable or parses to anything but [null]. *)
Theorem resolveCredential_priority params k key envVar w :
  let p := param params k in
  let cfg := parsed_or_empty (config_file (disk w)) in
  let resolved := resolveCredential params k key envVar w in
  (truthy p = true -> resolved = (Ok p, w)) /\
  (truthy p = false ->
   forall e, env w !! envVar = Some e -> e <> [] -> resolved = (Ok (VStr e), w)) /\
  (truthy p = false ->
   env w !! envVar = None \/ env w !! envVar = Some [] ->
   forall c, get_prop cfg key = Ok c -> resolved = (Ok (js_or c (VStr [])), w)) /\
  (cfg <> VNull -> exists v, resolved = (Ok v, w)).
Proof.
  intros p cfg resolved. subst resolved. unfold resolveCredential, or_else. fold p.
  destruct (truthy p) eqn:Hp.
  { split; [reflexivity|]. split; [discriminate|]. split; [discriminate|]. eauto. }
  rewrite getCredential_cases. fold cfg.
  split; [discriminate|].
  split.
  { intros _ e He Hne. rewrite He. destruct e; [congruence|reflexivity]. }
  split.
  { intros _ [He|He] c Hc; rewrite He, Hc; reflexivity. }
  intros Hcfg.
  assert (Hget : exists c, get_prop cfg key = Ok c).
  { pose proof (parsed_or_empty_defined (config_file (disk w))) as Hdef. fold cfg in Hdef.
    revert Hcfg Hdef. generalize cfg. intros [] H1 H2; simpl; eauto; congruence. }
  destruct Hget as [c Hc]. rewrite Hc.
  destruct (env w !! envVar) as [[|? ?]|]; eauto.
Qed.

(** C5 fails as stated.  An environment variable that is set, to the empty
    string, does not win over the config file; and with a config file that
    holds the JSON text [null] (which parses) and nothing in the
    environment, the resolution throws. *)
Lemma resolveCredential_empty_env_value :
  (env empty_env_world !! str "SEATSURFING_URL" = Some [] /\
   get_prop (parsed_or_empty (config_file (disk empty_env_world))) (str "url")
     = Ok (VStr (str "https://cfg.example.com")) /\
   resolveCredential [] (str "url") (str "url") (str "SEATSURFING_URL") empty_env_world
     = (Ok (VStr (str "https://cfg.example.com")), empty_env_world)) /\
  (Json.parse (str "null") = Some VNull /\
   resolveCredential [] (str "url") (str "url") (str "SEATSURFING_URL") null_config_world
     = (Throw TypeError, null_config_world)).
Proof. vm_compute. repeat split; reflexivity. Qed.

Lemma resolveCredential_priority_witness :
  resolveCredential [(str "url", VStr (str "https://arg.example.com"))]
    (str "url") (str "url") (str "SEATSURFING_URL") env_and_config_world
    = (Ok (VStr (str "https://arg.example.com")), env_and_config_world) /\
  resolveCredential [] (str "url") (str "url") (str "SEATSURFING_URL") env_and_config_world
    = (Ok (VStr (str "https://env.example.com")), env_and_config_world) /\
  resolveCredential [] (str "email") (str "email") (str "SEATSURFING_EMAIL") env_and_config_world
    = (Ok (VStr (str "cfg@example.com")), env_and_config_world) /\
  resolveCredential [] (str "password") (str "password") (str "SEATSURFING_PASSWORD")
    env_and_config_world
    = (Ok (VStr []), env_and_config_world) /\
  exists v, resolveCredential [] (str "organization_id") (str "organization_id")
              (str "SEATSURFING_ORG_ID") env_and_config_world
            = (Ok v, env_and_config_world).
Proof.
  split; [|split; [|split; [|split]]].
  - apply (proj1 (resolveCredential_priority [(str "url", VStr (str "https://arg.example.com"))]
             (str "url") (str "url") (str "SEATSURFING_URL") env_and_config_world)).
    reflexivity.
  - apply (proj1 (proj2 (resolveCredential_priority []
             (str "url") (str "url") (str "SEATSURFING_URL") env_and_config_world)));
      [reflexivity | vm_compute; reflexivity | discriminate].
  - apply (proj1 (proj2 (proj2 (resolveCredential_priority []
             (str "email") (str "email") (str "SEATSURFING_EMAIL") env_and_config_world)))
             eq_refl (or_introl eq_refl) (VStr (str "cfg@example.com"))).
    vm_compute; reflexivity.
  - apply (proj1 (proj2 (proj2 (resolveCredential_priority []
             (str "password") (str "password") (str "SEATSURFING_PASSWORD")
             env_and_config_world)))
             eq_refl (or_introl eq_refl) VUndefined).
    vm_compute; reflexivity.
  - apply (proj2 (proj2 (proj2 (resolveCredential_priority []
             (str "organization_id") (str "organization_id") (str "SEATSURFING_ORG_ID")
             env_and_config_world)))).
    vm_compute. discriminate.
Defined.

(** ** HTTP gateway *)

Lemma fetch_responded req w o rest r :
  net w = o :: rest -> delay o < 30000 -> result o = Responded r ->
  fetch req w = (Ok r, exchanged req o rest w).
Proof.
  intros Hn Hd Hr. unfold fetch, exchanged. rewrite Hn.
  destruct (30000 <=? delay o) eqn:E; [apply Z.leb_le in E; lia|].
  rewrite Hr. reflexivity.
Qed.

Lemma apiRequest_unauthenticated m e b w :
  apiRequest m e b false w =
  fetch (mkRequest m (baseUrl (session w) ++ e) [(str "Content-Type", str "application/json")]
           (match b with Some v => if truthy v then Json.stringify v else None | None => None end)) w.
Proof. reflexivity. Qed.

(** ** Session manager *)

(** C3, as amended.  With an access token that is held (neither [null]
    nor empty) and [now <= expiresAt - 60 s], [ensureAuthenticated]
    returns at once: no request is dispatched and nothing in the world, the
    session included, changes. *)
Theorem ensureAuthenticated_valid_token_no_io w :
  truthy (accessToken (session w)) = true ->
  now w <= tokenExpiresAt (session w) - 60000 ->
  ensureAuthenticated w = (Ok tt, w).
Proof.
  intros Ht Hn. unfold ensureAuthenticated, bind, gets, Date_now, ret. simpl.
  rewrite Ht. simpl.
  destruct (now w >? tokenExpiresAt (session w) - 60000) eqn:E.
  - apply Z.gtb_lt in E. lia.
  - reflexivity.
Qed.

Lemma ensureAuthenticated_valid_token_no_io_witness :
  ensureAuthenticated (logged_in []) = (Ok tt, logged_in []).
Proof.
  apply ensureAuthenticated_valid_token_no_io; [reflexivity|].
  vm_compute. discriminate.
Defined.

(** C3 fails as stated: a login that was answered with an empty access
    token leaves a token that is not [null], the expiry is 14 minutes
    away, and [ensureAuthenticated] throws instead of returning. *)
Lemma ensureAuthenticated_empty_token :
  let w := snd (login (str "https://desk.example.com/") (str "a@example.com") (str "pw") (str "org") empty_token_world) in
  accessToken (session w) <> VNull /\
  now w <= tokenExpiresAt (session w) - 60000 /\
  ensureAuthenticated w = (Throw not_authenticated, w).
Proof.
  vm_compute. split; [discriminate|]. split; [discriminate|reflexivity].
Qed.

Lemma ensureAuthenticated_no_token w :
  truthy (accessToken (session w)) = false ->
  ensureAuthenticated w = (Throw not_authenticated, w).
Proof.
  intros H. unfold ensureAuthenticated, bind, gets, throw. simpl. rewrite H. reflexivity.
Qed.

(** C4. When [ensureAuthenticated] attempts the silent refresh and the
    refresh request gets a non-2xx response, the call throws, exactly one
    request has been dispatched, and both tokens are [null]; from then on,
    as long as the access token stays cleared, every call of
    [ensureAuthenticated] throws the not-authenticated error and does
    nothing else. *)
Theorem ensureAuthenticated_refresh_failure w o r rest :
  truthy (accessToken (session w)) = true ->
  now w > tokenExpiresAt (session w) - 60000 ->
  truthy (refreshToken (session w)) = true ->
  net w = o :: rest -> delay o < 30000 -> result o = Responded r -> ok r = false ->
  exists w',
    ensureAuthenticated w = (Throw refresh_failed, w') /\
    accessToken (session w') = VNull /\ refreshToken (session w') = VNull /\
    length (sent w') = S (length (sent w)) /\ net w' = rest /\
    forall w2, accessToken (session w2) = accessToken (session w') ->
               ensureAuthenticated w2 = (Throw not_authenticated, w2).
Proof.
  intros Ha Hn Hr Hnet Hd Hres Hok.
  unfold ensureAuthenticated at 1. unfold bind at 1. unfold gets at 1. 
  rewrite Ha. cbn [negb]. unfold bind at 1. unfold Date_now, gets.
  assert (E : (now w >? tokenExpiresAt (session w) - 60000) = true) by (apply Z.gtb_lt; lia).
  rewrite E, Hr. cbn [andb]. unfold bind at 1.
  rewrite apiRequest_unauthenticated.
  erewrite fetch_responded by eassumption.
  rewrite Hok. cbn [negb].
  eexists. split; [reflexivity|]. cbn.
  repeat split.
  - rewrite length_app. simpl. lia.
  - intros w2 H2. apply ensureAuthenticated_no_token. rewrite H2. reflexivity.
Qed.

Lemma ensureAuthenticated_refresh_failure_witness :
  exists w',
    ensureAuthenticated (expiring [respond 401 (str "expired")]) = (Throw refresh_failed, w') /\
    accessToken (session w') = VNull /\ refreshToken (session w') = VNull /\
    length (sent w') = 1%nat /\ net w' = [] /\
    forall w2, accessToken (session w2) = accessToken (session w') ->
               ensureAuthenticated w2 = (Throw not_authenticated, w2).
Proof.
  apply (ensureAuthenticated_refresh_failure (expiring [respond 401 (str "expired")])
           (respond 401 (str "expired")) (mkResponse 401 [] (str "expired")) []);
    reflexivity.
Defined.

Lemma strip_trailing_slash_cons c d r :
  strip_trailing_slash (c :: d :: r) = c :: strip_trailing_slash (d :: r).
Proof. reflexivity. Qed.

Lemma strip_trailing_slash_slash u : strip_trailing_slash (u ++ [47%N]) = u.
Proof.
  induction u as [|c u IH]; [reflexivity|].
  rewrite <- app_comm_cons.
  destruct (u ++ [47%N]) as [|d l] eqn:E.
  - destruct u; discriminate.
  - rewrite strip_trailing_slash_cons, IH. reflexivity.
Qed.

Lemma strip_trailing_slash_other u :
  last u <> Some 47%N -> strip_trailing_slash u = u.
Proof.
  induction u as [|c u IH]; [reflexivity|].
  destruct u as [|d u].
  - simpl. intros H. destruct (unit_eqb c 47) eqn:E; [|reflexivity].
    apply N.eqb_eq in E. congruence.
  - intros H. rewrite strip_trailing_slash_cons, IH; [reflexivity|]. exact H.
Qed.

Lemma apiRequest_bearer m e b w t :
  accessToken (session w) = VStr t -> t <> [] ->
  apiRequest m e b true w = fetch (authenticated_request m (baseUrl (session w) ++ e) t b) w.
Proof.
  intros H Ht. unfold apiRequest, bind, gets. rewrite H.
  destruct t; [congruence|]. reflexivity.
Qed.

Lemma fetch_sent req w : sent (snd (fetch req w)) = sent w ++ [req].
Proof.
  unfold fetch. destruct (net w) as [|o rest]; [reflexivity|].
  destruct (30000 <=? delay o); [reflexivity|].
  destruct (result o); reflexivity.
Qed.

Lemma fetch_session req w : session (snd (fetch req w)) = session w.
Proof.
  unfold fetch. destruct (net w) as [|o rest]; [reflexivity|].
  destruct (30000 <=? delay o); [reflexivity|].
  destruct (result o); reflexivity.
Qed.

(** C2, as amended.  A login whose request gets a non-2xx response throws
    an error that carries the status and the response body, and leaves the
    access token, the refresh token and the expiry as they were before the
    call; a session without tokens stays without tokens. *)
Theorem login_rejected_keeps_tokens w url email password org o r rest :
  net w = o :: rest -> delay o < 30000 -> result o = Responded r -> ok r = false ->
  exists w',
    login url email password org w = (Throw (login_failed r), w') /\
    accessToken (session w') = accessToken (session w) /\
    refreshToken (session w') = refreshToken (session w) /\
    tokenExpiresAt (session w') = tokenExpiresAt (session w).
Proof.
  intros Hnet Hd Hres Hok.
  unfold login. unfold bind at 1. unfold set_baseUrl, modify. unfold bind at 1.
  rewrite apiRequest_unauthenticated.
  erewrite fetch_responded; [| exact Hnet | exact Hd | exact Hres].
  rewrite Hok. cbn [negb]. unfold bind, res_text, ret, throw.
  eexists. split; [reflexivity|]. cbn. auto.
Qed.

Lemma login_rejected_keeps_tokens_witness :
  exists w',
    login (str "https://desk.example.com/") (str "a@example.com") (str "wrong") (str "org")
      logged_out_rejected = (Throw (Error (str "Login failed: 403 forbidden")), w') /\
    accessToken (session w') = VNull /\
    refreshToken (session w') = VNull /\
    tokenExpiresAt (session w') = 0.
Proof.
  apply (login_rejected_keeps_tokens logged_out_rejected
           (str "https://desk.example.com/") (str "a@example.com") (str "wrong") (str "org")
           (respond 403 (str "forbidden")) (mkResponse 403 [] (str "forbidden")) []);
    reflexivity.
Defined.

(** C2 fails as stated: a rejected login in an active session leaves the
    session with both of its tokens. *)
Lemma login_rejected_with_tokens :
  exists w',
    login (str "https://new.example.com/") (str "a@example.com") (str "wrong") (str "org") (logged_in [respond 401 (str "bad credentials")])
      = (Throw (Error (str "Login failed: 401 bad credentials")), w') /\
    accessToken (session w') = VStr (str "tok-A") /\
    refreshToken (session w') = VStr (str "tok-R") /\
    accessToken (session w') <> VNull /\ refreshToken (session w') <> VNull.
Proof.
  eexists. split; [vm_compute; reflexivity|].
  repeat split; try reflexivity; discriminate.
Qed.

Lemma login_cases url email password org w :
  login url email password org w =
  match fetch (login_request (strip_trailing_slash url) email password org)
              (with_base (strip_trailing_slash url) w) with
  | (Ok r, w1) =>
      if ok r then bind (res_json r) store_tokens w1
      else (Throw (login_failed r), w1)
  | (Throw e, w1) => (Throw e, w1)
  end.
Proof.
  unfold login. unfold bind at 1. unfold set_baseUrl, modify. unfold bind at 1.
  rewrite apiRequest_unauthenticated.
  change (fetch _ _) with
    (fetch (login_request (strip_trailing_slash url) email password org)
       (with_base (strip_trailing_slash url) w)).
  destruct (fetch _ _) as [[r|e] w1]; [|reflexivity].
  destruct (ok r); reflexivity.
Qed.

Lemma store_tokens_frame r w :
  let w' := snd (bind (res_json r) store_tokens w) in
  baseUrl (session w') = baseUrl (session w) /\ sent w' = sent w.
Proof.
  unfold bind, res_json.
  destruct (Json.parse (resp_body r)) as [data|]; [|split; reflexivity].
  unfold ret, store_tokens, bind, lift_res.
  destruct (get_prop data (str "accessToken")) as [a|]; [|split; reflexivity].
  unfold set_accessToken, modify.
  destruct (get_prop data (str "refreshToken")) as [b|]; split; reflexivity.
Qed.

(** C10. [login] sets the base URL to its argument less one trailing
    slash before it dispatches its request, which already goes to the new
    base.  When that request fails (non-2xx response or network error) the
    call throws, the tokens and the expiry are what they were, and a later
    authenticated request goes to the new base URL with the old access
    token. *)
Theorem login_failure_new_base_old_tokens w url email password org :
  let w' := snd (login url email password org w) in
  let base := strip_trailing_slash url in
  (forall u, strip_trailing_slash (u ++ [47%N]) = u) /\
  (forall u, last u <> Some 47%N -> strip_trailing_slash u = u) /\
  baseUrl (session w') = base /\
  sent w' = sent w ++ [login_request base email password org] /\
  (login_request_fails w ->
     (exists e, fst (login url email password org w) = Throw e) /\
     accessToken (session w') = accessToken (session w) /\
     refreshToken (session w') = refreshToken (session w) /\
     tokenExpiresAt (session w') = tokenExpiresAt (session w) /\
     forall t method endpoint body,
       accessToken (session w) = VStr t -> t <> [] ->
       sent (snd (apiRequest method endpoint body true w')) =
       sent w' ++ [authenticated_request method (base ++ endpoint) t body]).
Proof.
  intros w' base.
  split; [exact strip_trailing_slash_slash|].
  split; [exact strip_trailing_slash_other|].
  assert (Hshape :
    baseUrl (session w') = base /\
    sent w' = sent w ++ [login_request base email password org] /\
    (login_request_fails w ->
     (exists e, fst (login url email password org w) = Throw e) /\
     accessToken (session w') = accessToken (session w) /\
     refreshToken (session w') = refreshToken (session w) /\
     tokenExpiresAt (session w') = tokenExpiresAt (session w))).
  { subst w'. rewrite login_cases. fold base.
    pose proof (fetch_sent (login_request base email password org) (with_base base w)) as Hsent.
    pose proof (fetch_session (login_request base email password org) (with_base base w)) as Hsess.
    unfold login_request_fails.
    assert (Hfail : match net w with
                    | [] => True
                    | o :: _ => 30000 <= delay o \/
                        match result o with Failed => True | Responded r => ok r = false end
                    end ->
                    match fetch (login_request base email password org) (with_base base w) with
                    | (Ok r, _) => ok r = false
                    | (Throw _, _) => True
                    end).
    { unfold fetch. change (net (with_base base w)) with (net w).
      destruct (net w) as [|o rest]; [trivial|].
      destruct (30000 <=? delay o) eqn:Ed; [trivial|].
      apply Z.leb_gt in Ed.
      destruct (result o); [|trivial]. intros [H|H]; [lia|exact H]. }
    destruct (fetch _ _) as [[r|e] w1]; simpl in Hsent, Hsess.
    - destruct (ok r) eqn:Hok.
      + destruct (store_tokens_frame r w1) as [Hb Hs].
        rewrite Hb, Hs, Hsess, Hsent.
        split; [reflexivity|]. split; [reflexivity|].
        intros H. apply Hfail in H. discriminate.
      + simpl. rewrite Hsess, Hsent.
        split; [reflexivity|]. split; [reflexivity|].
        intros _. split; [eauto|]. auto.
    - simpl. rewrite Hsess, Hsent.
      split; [reflexivity|]. split; [reflexivity|].
      intros _. split; [eauto|]. auto. }
  destruct Hshape as (Hb & Hs & Hf).
  split; [exact Hb|]. split; [exact Hs|].
  intros Hfail. destruct (Hf Hfail) as (He & Ha & Hr & Ht).
  repeat (split; [assumption|]).
  intros t method endpoint body Hta Hne.
  rewrite apiRequest_bearer with (t := t); [| congruence | assumption].
  rewrite fetch_sent, Hb. reflexivity.
Qed.

Lemma login_failure_new_base_old_tokens_witness :
  let w := logged_in [respond 401 (str "bad credentials")] in
  let w' := snd (login (str "https://new.example.com/") (str "a@example.com") (str "wrong")
                   (str "org") w) in
  baseUrl (session w') = str "https://new.example.com" /\
  accessToken (session w') = VStr (str "tok-A") /\
  sent (snd (apiRequest (str "GET") (str "/booking/") None true w')) =
  sent w' ++ [authenticated_request (str "GET") (str "https://new.example.com/booking/")
                (str "tok-A") None].
Proof.
  intros w w'.
  destruct (login_failure_new_base_old_tokens w (str "https://new.example.com/")
              (str "a@example.com") (str "wrong") (str "org")) as (_ & _ & Hb & _ & Hf).
  destruct Hf as (_ & Ha & _ & _ & Hlater).
  { right. reflexivity. }
  split; [exact Hb|]. split; [exact Ha|].
  apply (Hlater (str "tok-A") (str "GET") (str "/booking/") None); [reflexivity|discriminate].
Defined.

(** ** Booking *)

Lemma booking_id_string r :
  to_string (js_or (headers_get (str "X-Object-ID") (resp_headers r)) (VStr (str "created")))
  = Ok (booking_id r).
Proof.
  unfold booking_id, headers_get.
  destruct (List.filter _ _) as [|h hs]; [reflexivity|].
  destruct (join _ _); reflexivity.
Qed.

(** C6. Whatever response the booking-creation request gets, the tool
    succeeds when its status is 201 and only then; for every other status,
    200 and 204 included, it throws an error that carries the status and
    the response body as received. *)
Theorem create_booking_requires_201 params w w1 w2 spaceId st en subject r :
  to_string (param params (str "space_id")) = Ok spaceId ->
  to_string (param params (str "start_time")) = Ok st ->
  to_string (param params (str "end_time")) = Ok en ->
  to_string (js_or (param params (str "subject")) (VStr [])) = Ok subject ->
  ensureAuthenticated w = (Ok tt, w1) ->
  apiRequest (str "POST") (str "/booking/")
    (Some (booking_body spaceId (DateTime.parseDateTime st) (DateTime.parseDateTime en) subject))
    true w1 = (Ok r, w2) ->
  (status r = 201 ->
   createBookingTool_execute params w = (Ok (str "Booked: " ++ booking_id r), w2)) /\
  (status r <> 201 ->
   createBookingTool_execute params w = (Throw (booking_failed r), w2)).
Proof.
  intros Hs Hst Hen Hsub Hauth Hreq.
  assert (Hrun : createBookingTool_execute params w =
                 if status r =? 201 then (Ok (str "Booked: " ++ booking_id r), w2)
                 else (Throw (booking_failed r), w2)).
  { unfold createBookingTool_execute, String_, lift_res.
    unfold bind at 1. rewrite Hs.
    unfold bind at 1. rewrite Hst.
    unfold bind at 1. rewrite Hen.
    unfold bind at 1. rewrite Hsub.
    unfold bind at 1. rewrite Hauth.
    unfold bind at 1. fold (booking_body spaceId (DateTime.parseDateTime st) (DateTime.parseDateTime en) subject).
    rewrite Hreq.
    destruct (status r =? 201); cbn [negb].
    - unfold bind. rewrite booking_id_string. reflexivity.
    - reflexivity. }
  rewrite Hrun. split; intros H.
  - rewrite H. reflexivity.
  - apply Z.eqb_neq in H. rewrite H. reflexivity.
Qed.

Lemma create_booking_requires_201_witness :
  createBookingTool_execute booking_params (logged_in [respond 201 []])
    = (Ok (str "Booked: created"),
       snd (createBookingTool_execute booking_params (logged_in [respond 201 []]))) /\
  createBookingTool_execute booking_params (logged_in [respond 200 (str "ok but not created")])
    = (Throw (Error (str "Booking failed: 200 ok but not created")),
       snd (createBookingTool_execute booking_params (logged_in [respond 200 (str "ok but not created")]))).
Proof.
  split.
  - refine (proj1 (create_booking_requires_201 booking_params (logged_in [respond 201 []])
              _ _ (str "space-7") (str "2025-06-01 09:00") (str "2025-06-01 17:00") []
              (mkResponse 201 [] [])
              eq_refl eq_refl eq_refl eq_refl _ _) eq_refl).
    + vm_compute; reflexivity.
    + vm_compute; reflexivity.
  - refine (proj2 (create_booking_requires_201 booking_params
              (logged_in [respond 200 (str "ok but not created")])
              _ _ (str "space-7") (str "2025-06-01 09:00") (str "2025-06-01 17:00") []
              (mkResponse 200 [] (str "ok but not created"))
              eq_refl eq_refl eq_refl eq_refl _ _) _).
    + vm_compute; reflexivity.
    + vm_compute; reflexivity.
    + discriminate.
Defined.

(** ** Availability *)

Lemma filter_available items spaces :
  Forall2 represents items spaces ->
  exists kept, filter_res is_available items = Ok kept /\
               Forall2 represents kept (available_of spaces).
Proof.
  unfold available_of.
  induction 1 as [|v s items spaces Hv _ (kept & Hk & Hf)]; simpl.
  - exists []. split; [reflexivity|constructor].
  - unfold is_available at 1. destruct Hv as (Hi & Hn & Ha). rewrite Ha.
    cbn [res_bind truthy]. rewrite Hk. cbn [res_bind].
    destruct (space_available s) eqn:E; eexists; (split; [reflexivity|]).
    + constructor; [|assumption]. unfold represents. rewrite E. auto.
    + assumption.
Qed.

Lemma filter_occupied items spaces :
  Forall2 represents items spaces ->
  exists kept, filter_res is_occupied items = Ok kept /\
               Forall2 represents kept (occupied_of spaces).
Proof.
  unfold occupied_of.
  induction 1 as [|v s items spaces Hv _ (kept & Hk & Hf)]; simpl.
  - exists []. split; [reflexivity|constructor].
  - unfold is_occupied at 1. destruct Hv as (Hi & Hn & Ha). rewrite Ha.
    cbn [res_bind truthy]. rewrite Hk. cbn [res_bind].
    destruct (space_available s) eqn:E; eexists; (split; [reflexivity|]).
    + assumption.
    + constructor; [|assumption]. unfold represents. rewrite E. auto.
Qed.

Lemma available_lines items spaces :
  Forall2 represents items spaces ->
  map_res available_line items
  = Ok (map (fun s => [9%N] ++ space_name s ++ [9%N] ++ space_id s) spaces).
Proof.
  induction 1 as [|v s items spaces (Hi & Hn & Ha) _ IH]; simpl; [reflexivity|].
  unfold available_line at 1. rewrite Hn, Hi. cbn [res_bind to_string].
  rewrite IH. reflexivity.
Qed.

Lemma occupied_lines items spaces :
  Forall2 represents items spaces ->
  map_res occupied_line items = Ok (map (fun s => [9%N] ++ space_name s) spaces).
Proof.
  induction 1 as [|v s items spaces (Hi & Hn & Ha) _ IH]; simpl; [reflexivity|].
  unfold occupied_line at 1. rewrite Hn. cbn [res_bind to_string].
  rewrite IH. reflexivity.
Qed.

Lemma join_lines lines : join [10%N] lines = lines_text lines.
Proof.
  destruct lines as [|l rest]; [reflexivity|]. cbn [lines_text].
  revert l. induction rest as [|x rest IH]; intros l.
  - cbn. rewrite app_nil_r. reflexivity.
  - change (join [10%N] (l :: x :: rest)) with (l ++ [10%N] ++ join [10%N] (x :: rest)).
    rewrite IH. reflexivity.
Qed.

Lemma availability_report_partitions items spaces :
  Forall2 represents items spaces ->
  availability_report (VArr items) = Ok (report_text spaces).
Proof.
  intros H. unfold availability_report, js_filter.
  destruct (filter_available _ _ H) as (av & Hav & Fav).
  destruct (filter_occupied _ _ H) as (oc & Hoc & Foc).
  rewrite Hav, Hoc. cbn [res_bind].
  rewrite (available_lines _ _ Fav), (occupied_lines _ _ Foc). cbn [res_bind].
  rewrite (Forall2_length _ _ _ Fav), (Forall2_length _ _ _ Foc).
  rewrite join_lines. reflexivity.
Qed.

(** The two filters of the tool split the entries of the response. *)
Lemma filters_partition items spaces :
  Forall2 represents items spaces ->
  exists av oc,
    filter_res is_available items = Ok av /\
    filter_res is_occupied items = Ok oc /\
    Forall2 represents av (available_of spaces) /\
    Forall2 represents oc (occupied_of spaces) /\
    av ++ oc ≡ₚ items /\ sublist av items /\ sublist oc items.
Proof.
  unfold available_of, occupied_of.
  induction 1 as [|v s items spaces Hv _ (av & oc & Hav & Hoc & Fav & Foc & Hp & Sav & Soc)];
    simpl.
  - exists [], []. repeat split; constructor.
  - unfold is_available at 1, is_occupied at 1.
    pose proof Hv as (Hi & Hn & Ha). rewrite Ha.
    cbn [res_bind truthy]. rewrite Hav, Hoc. cbn [res_bind].
    destruct (space_available s) eqn:E; cbn [negb].
    + exists (v :: av), oc. repeat split; try assumption.
      * constructor; [|assumption]. unfold represents. rewrite E. auto.
      * simpl. constructor. exact Hp.
      * apply sublist_skip. exact Sav.
      * apply sublist_cons. exact Soc.
    + exists av, (v :: oc). repeat split; try assumption.
      * constructor; [|assumption]. unfold represents. rewrite E. auto.
      * rewrite <- Permutation_middle. constructor. exact Hp.
      * apply sublist_cons. exact Sav.
      * apply sublist_skip. exact Soc.
Qed.

Lemma filter_keeps_order {A} (f : A -> bool) (l : list A) : sublist (List.filter f l) l.
Proof.
  induction l as [|x l IH]; simpl; [constructor|].
  destruct (f x); [apply sublist_skip | apply sublist_cons]; exact IH.
Qed.

Lemma space_value_represents s : represents (space_value s) s.
Proof. destruct s. repeat split; reflexivity. Qed.

(** C7, as amended.  The availability check splits the entries of the
    response by their [available] flag into the available ones and the
    occupied ones, each in the order of the response, every entry in
    exactly one of the two.  The report gives the count of each set; it
    lists an available entry by name and identifier, an occupied entry by
    its name only.  For the flags T, F, T, T, F the available entries are
    the 1st, 3rd and 4th (count 3), the occupied ones the 2nd and 5th
    (count 2). *)
Theorem check_availability_partitions :
  (forall params w w1 w2 locationId st en url r items spaces,
     to_string (param params (str "location_id")) = Ok locationId ->
     to_string (param params (str "start_time")) = Ok st ->
     to_string (param params (str "end_time")) = Ok en ->
     ensureAuthenticated w = (Ok tt, w1) ->
     availability_url locationId (DateTime.parseDateTime st) (DateTime.parseDateTime en) = Ok url ->
     apiRequest (str "GET") url None true w1 = (Ok r, w2) ->
     ok r = true ->
     Json.parse (resp_body r) = Some (VArr items) ->
     Forall2 represents items spaces ->
     createCheckAvailabilityTool_execute params w = (Ok (report_text spaces), w2)) /\
  (forall items spaces,
     Forall2 represents items spaces ->
     exists av oc,
       js_filter (VArr items) is_available = Ok av /\
       js_filter (VArr items) is_occupied = Ok oc /\
       Forall2 represents av (available_of spaces) /\
       Forall2 represents oc (occupied_of spaces) /\
       av ++ oc ≡ₚ items /\ sublist av items /\ sublist oc items) /\
  (forall spaces,
     available_of spaces ++ occupied_of spaces ≡ₚ spaces /\
     sublist (available_of spaces) spaces /\
     sublist (occupied_of spaces) spaces /\
     (forall s, In s (available_of spaces) <-> In s spaces /\ space_available s = true) /\
     (forall s, In s (occupied_of spaces) <-> In s spaces /\ space_available s = false)) /\
  map space_id (available_of five_spaces) = [str "s1"; str "s3"; str "s4"] /\
  map space_id (occupied_of five_spaces) = [str "s2"; str "s5"] /\
  js_filter (VArr (map space_value five_spaces)) is_available
  = Ok [space_value (mkSpace (str "s1") (str "Desk 1") true);
        space_value (mkSpace (str "s3") (str "Desk 3") true);
        space_value (mkSpace (str "s4") (str "Desk 4") true)] /\
  js_filter (VArr (map space_value five_spaces)) is_occupied
  = Ok [space_value (mkSpace (str "s2") (str "Desk 2") false);
        space_value (mkSpace (str "s5") (str "Desk 5") false)] /\
  availability_report (VArr (map space_value five_spaces)) = Ok five_report.
Proof.
  split; [|split; [|split; [|split; [|split; [|split; [|split]]]]]].
  - intros params w w1 w2 locationId st en url r items spaces
      Hl Hst Hen Hauth Hurl Hreq Hok Hparse Hrep.
    unfold createCheckAvailabilityTool_execute, String_, lift_res.
    unfold bind at 1. rewrite Hl.
    unfold bind at 1. rewrite Hst.
    unfold bind at 1. rewrite Hen.
    unfold bind at 1. rewrite Hauth.
    unfold availability_url in Hurl.
    destruct (Uri.encodeURIComponent (DateTime.parseDateTime st)) as [enter|]; [|discriminate].
    destruct (Uri.encodeURIComponent (DateTime.parseDateTime en)) as [leave|]; [|discriminate].
    cbn [res_bind] in Hurl.
    unfold bind at 1. unfold bind at 1. unfold bind at 1.
    replace (str "/location/" ++ locationId ++ str "/space/availability?enter=" ++ enter
             ++ str "&leave=" ++ leave) with url by congruence.
    rewrite Hreq, Hok. cbn [negb].
    unfold bind, res_json. rewrite Hparse. unfold ret.
    rewrite (availability_report_partitions _ _ Hrep). reflexivity.
  - intros items spaces Hrep. cbn [js_filter]. apply filters_partition. exact Hrep.
  - intros spaces. split; [|split; [|split; [|split]]].
    + unfold available_of, occupied_of.
      induction spaces as [|s spaces IH]; simpl; [reflexivity|].
      destruct (space_available s); simpl.
      * constructor. exact IH.
      * rewrite <- Permutation_middle. constructor. exact IH.
    + apply filter_keeps_order.
    + apply filter_keeps_order.
    + intros s. unfold available_of. rewrite filter_In. reflexivity.
    + intros s. unfold occupied_of. rewrite filter_In, negb_true_iff. reflexivity.
  - reflexivity.
  - reflexivity.
  - vm_compute. reflexivity.
  - vm_compute. reflexivity.
  - vm_compute. reflexivity.
Qed.

(** C7 fails as stated: the report does not give the identifiers of the
    occupied set.  For the five entries with the flags T, F, T, T, F the
    tool's report names the occupied desks but contains neither [s2] nor
    [s5], while the identifiers of the available entries are there. *)
Lemma availability_report_omits_occupied_ids :
  fst (createCheckAvailabilityTool_execute availability_params availability_world)
  = Ok five_report /\
  includes (str "Desk 2") five_report = true /\
  includes (str "Desk 5") five_report = true /\
  includes (str "s2") five_report = false /\
  includes (str "s5") five_report = false /\
  includes (str "s1") five_report = true /\
  includes (str "s3") five_report = true /\
  includes (str "s4") five_report = true.
Proof. vm_compute. repeat split; reflexivity. Qed.

Lemma check_availability_partitions_witness :
  createCheckAvailabilityTool_execute availability_params availability_world
  = (Ok five_report, snd (createCheckAvailabilityTool_execute availability_params availability_world)).
Proof.
  refine (proj1 check_availability_partitions availability_params availability_world
            availability_world _ (str "loc-1") (str "2025-06-01 09:00") (str "2025-06-01 17:00")
            _ (mkResponse 200 [] (json_text (VArr (map space_value five_spaces))))
            (map space_value five_spaces) five_spaces
            eq_refl eq_refl eq_refl _ _ _ eq_refl _ _).
  - vm_compute; reflexivity.
  - vm_compute; reflexivity.
  - vm_compute; reflexivity.
  - vm_compute; reflexivity.
  - repeat constructor.
Defined.

(** ** Cache refresh *)

(** One turn of the loop: a rejected fetch leaves [spacesByLocation] as it
    was and the loop goes on. *)
Lemma refresh_location_run run acc w t rest :
  well_formed_run run ->
  accessToken (session w) = VStr t -> t <> [] ->
  net w = run_outcome run :: rest ->
  refresh_location (run_loc run) acc w =
  (Ok (spaces_after [run] acc),
   exchanged (spaces_request (baseUrl (session w)) t run) (run_outcome run) rest w).
Proof.
  intros ((i & Hi & Hk) & Hd & Hf) Ht Hne Hnet.
  unfold refresh_location, String_, lift_res.
  unfold bind at 1. rewrite Hi.
  unfold bind at 1. rewrite Hk.
  unfold bind at 1.
  rewrite (apiRequest_bearer _ _ _ _ t Ht Hne).
  erewrite fetch_responded; [| exact Hnet | exact Hd | reflexivity].
  unfold spaces_after, run_response in *. simpl fold_left.
  destruct (run_fetch run) as [r|r mapped].
  - rewrite Hf. reflexivity.
  - destruct Hf as (Hok & spaces & Hp & Hm). rewrite Hok.
    unfold bind, res_json. rewrite Hp. unfold ret. rewrite Hm, Hk. reflexivity.
Qed.

Lemma spaces_after_cons run runs acc :
  spaces_after (run :: runs) acc = spaces_after runs (spaces_after [run] acc).
Proof. reflexivity. Qed.

Lemma refresh_locations_runs runs : forall acc w t rest,
  Forall well_formed_run runs ->
  accessToken (session w) = VStr t -> t <> [] ->
  net w = map run_outcome runs ++ rest ->
  refresh_locations (map run_loc runs) acc w =
  (Ok (spaces_after runs acc), after_runs (baseUrl (session w)) t runs rest w).
Proof.
  induction runs as [|run runs IH]; intros acc w t rest Hwf Ht Hne Hnet.
  - simpl in *. unfold ret, after_runs. simpl. rewrite Z.add_0_r, app_nil_r.
    destruct w; simpl in *. subst. reflexivity.
  - inversion Hwf as [|? ? Hrun Hruns]; subst.
    cbn [map refresh_locations]. unfold bind.
    rewrite (refresh_location_run run acc w t (map run_outcome runs ++ rest) Hrun Ht Hne Hnet).
    rewrite (IH _ _ t rest Hruns); [| exact Ht | exact Hne | reflexivity].
    rewrite spaces_after_cons. f_equal.
    unfold after_runs, exchanged. cbn [session now env disk sent net map total_delay fold_right run_outcome delay].
    rewrite <- app_assoc. f_equal. unfold total_delay. lia.
Qed.

(** Lookup after an assignment to another key. *)
Lemma lookup_insert_new k k' v ps :
  k <> k' -> Obj.lookup k (Obj.insert_new k' v ps) = Obj.lookup k ps.
Proof.
  intros Hne. induction ps as [|[k0 v0] ps IH]; simpl.
  - destruct (jsstring_eqb k' k) eqn:E; [apply jsstring_eqb_eq in E; congruence|reflexivity].
  - destruct (Obj.goes_before k' k0); simpl.
    + destruct (jsstring_eqb k' k) eqn:E; [apply jsstring_eqb_eq in E; congruence|reflexivity].
    + rewrite IH. reflexivity.
Qed.

Lemma lookup_replace k k' v ps :
  k <> k' -> Obj.lookup k (Obj.replace k' v ps) = Obj.lookup k ps.
Proof.
  intros Hne. induction ps as [|[k0 v0] ps IH]; simpl; [reflexivity|].
  destruct (jsstring_eqb k0 k') eqn:E; simpl.
  - apply jsstring_eqb_eq in E. subst k0.
    destruct (jsstring_eqb k' k) eqn:E'; [apply jsstring_eqb_eq in E'; congruence|reflexivity].
  - rewrite IH. reflexivity.
Qed.

Lemma lookup_define_other k k' v ps :
  k <> k' -> Obj.lookup k (Obj.define k' v ps) = Obj.lookup k ps.
Proof.
  intros Hne. unfold Obj.define.
  destruct (Obj.has k' ps); [apply lookup_replace | apply lookup_insert_new]; assumption.
Qed.

Lemma lookup_assign_other k k' v ps :
  k <> k' -> Obj.lookup k (Obj.assign k' v ps) = Obj.lookup k ps.
Proof.
  intros Hne. unfold Obj.assign.
  destruct (jsstring_eqb k' (str "__proto__")); [reflexivity|].
  apply lookup_define_other. assumption.
Qed.

Lemma spaces_after_absent k runs : forall acc,
  Obj.lookup k acc = None ->
  (forall run, In run runs -> run_key run = k -> rejected run) ->
  Obj.lookup k (spaces_after runs acc) = None.
Proof.
  induction runs as [|run runs IH]; intros acc Hacc Hrej; [exact Hacc|].
  rewrite spaces_after_cons. apply IH.
  - unfold spaces_after. simpl.
    pose proof (Hrej run (or_introl eq_refl)) as Hr. unfold rejected in Hr.
    destruct (run_fetch run) as [r|r mapped]; [exact Hacc|].
    rewrite lookup_assign_other; [exact Hacc|].
    intros Hk. apply Hr. congruence.
  - intros run' Hin. apply Hrej. right. exact Hin.
Qed.

Lemma get_prop_any v k x k' : get_prop v k = Ok x -> exists y, get_prop v k' = Ok y.
Proof. destruct v; simpl; intros H; try discriminate; eauto. Qed.

Lemma listed_locations runs :
  Forall well_formed_run runs ->
  exists listed, map_res id_and_name (map run_loc runs) = Ok listed /\
                 length listed = length runs.
Proof.
  induction 1 as [|run runs ((i & Hi & _) & _) _ (listed & Hl & Hlen)]; simpl.
  - exists []. split; reflexivity.
  - unfold id_and_name at 1. rewrite Hi.
    destruct (get_prop_any _ _ _ (str "name") Hi) as [n Hn]. rewrite Hn.
    cbn [res_bind]. rewrite Hl. cbn [res_bind].
    eexists. split; [reflexivity|]. simpl. congruence.
Qed.

Lemma stringify_literal kvs :
  Json.stringify (Obj.literal kvs) = Some (json_text (Obj.literal kvs)).
Proof. unfold json_text, Obj.literal. reflexivity. Qed.

Lemma saveSpacesCache_writes data text w :
  Json.stringify data = Some text ->
  writable (disk w) = true -> cache_file (disk w) <> Directory ->
  saveSpacesCache data w =
  (Ok tt, set_disk (mkDisk true (config_file (disk w)) (File text) NoFault) w).
Proof.
  intros Hs Hw Hc. unfold saveSpacesCache. rewrite Hs.
  unfold bind, gets, mkdirSync, writeFileSync_cache, bind, gets, modify, ret, set_disk.
  destruct w as [s n e [dir cfg cache wr] nt st]. unfold writable in Hw. simpl in *.
  destruct wr; try discriminate.
  destruct dir; simpl; destruct cache; simpl; congruence.
Qed.

(** C1, as amended.  In a cache refresh where every space-list fetch gets
    a response, a location whose fetch is answered with a non-2xx status
    does not abort the refresh: the tool returns its summary and the
    snapshot is persisted with every location in [locations].  That fetch
    adds nothing to [spaces]: the location's id is not a key of [spaces]
    (unless another location with the same id was fetched with success). *)
Theorem refresh_skips_rejected_locations w w1 t d0 locRes runs rest stamp :
  ensureAuthenticated w = (Ok tt, w1) ->
  accessToken (session w1) = VStr t -> t <> [] ->
  net w1 = mkOutcome d0 (Responded locRes) :: map run_outcome runs ++ rest ->
  d0 < 30000 -> ok locRes = true ->
  Json.parse (resp_body locRes) = Some (VArr (map run_loc runs)) ->
  Forall well_formed_run runs ->
  toISOString (now w1 + d0 + total_delay runs) = Ok stamp ->
  writable (disk w1) = true -> cache_file (disk w1) <> Directory ->
  exists listed w',
    map_res id_and_name (map run_loc runs) = Ok listed /\
    createRefreshSpacesTool_execute w = (Ok (cache_summary listed (spaces_after runs [])), w') /\
    cache_file (disk w') = File (json_text (snapshot stamp listed (spaces_after runs []))) /\
    forall run,
      In run runs -> rejected run ->
      (forall run', In run' runs -> run_key run' = run_key run -> rejected run') ->
      Obj.lookup (run_key run) (spaces_after runs []) = None.
Proof.
  intros Hauth Ht Hne Hnet Hd0 Hok Hparse Hwf Hstamp Hwr Hcache.
  destruct (listed_locations runs Hwf) as (listed & Hlisted & Hlen).
  exists listed. eexists. split; [exact Hlisted|].
  split; [|split].
  - unfold createRefreshSpacesTool_execute.
    unfold bind at 1. rewrite Hauth.
    unfold bind at 1.
    rewrite (apiRequest_bearer _ _ _ _ t Ht Hne).
    erewrite fetch_responded; [| exact Hnet | exact Hd0 | reflexivity].
    rewrite Hok. cbn [negb].
    unfold bind at 1. unfold res_json. rewrite Hparse. unfold ret at 1.
    unfold bind at 1. unfold lift_res at 1. cbn [iterate].
    unfold bind at 1.
    erewrite refresh_locations_runs; [| exact Hwf | exact Ht | exact Hne | reflexivity].
    unfold bind at 1. unfold Date_now, gets.
    cbn [now after_runs exchanged delay].
    unfold bind at 1. unfold lift_res at 1. rewrite Hstamp.
    unfold bind at 1. unfold lift_res at 1. cbn [js_map]. rewrite Hlisted.
    fold (snapshot stamp listed (spaces_after runs [])).
    unfold bind at 1.
    erewrite saveSpacesCache_writes;
      [| apply stringify_literal | exact Hwr | exact Hcache].
    reflexivity.
  - reflexivity.
  - intros run Hin Hrej Hothers.
    apply spaces_after_absent; [reflexivity|]. exact Hothers.
Qed.

(** C1 fails as stated: after a refresh in which the fetch for [L1] got
    status 500, the persisted cache has no entry for [L1] in [spaces],
    where the claim has an empty list. *)
Lemma refresh_leaves_failed_location_out :
  let w' := snd (createRefreshSpacesTool_execute refresh_world) in
  fst (createRefreshSpacesTool_execute refresh_world) = Ok (str "Cache: 2 locations, 1 spaces") /\
  cached_spaces w' = Ok (VObj [(str "L2", VArr [desk_S1])]) /\
  res_bind (cached_spaces w') (fun s => get_prop s (str "L1")) = Ok VUndefined /\
  res_bind (cached_spaces w') (fun s => get_prop s (str "L1")) <> Ok (VArr []).
Proof. vm_compute. repeat split; try reflexivity. discriminate. Qed.

Lemma refresh_skips_rejected_locations_witness :
  exists listed w',
    map_res id_and_name (map run_loc refresh_runs) = Ok listed /\
    createRefreshSpacesTool_execute refresh_world
      = (Ok (cache_summary listed (spaces_after refresh_runs [])), w') /\
    cache_file (disk w')
      = File (json_text (snapshot (str "2023-11-14T22:13:20.360Z") listed
                           (spaces_after refresh_runs []))) /\
    forall run,
      In run refresh_runs -> rejected run ->
      (forall run', In run' refresh_runs -> run_key run' = run_key run -> rejected run') ->
      Obj.lookup (run_key run) (spaces_after refresh_runs []) = None.
Proof.
  apply (refresh_skips_rejected_locations refresh_world refresh_world (str "tok-A") 120
           (mkResponse 200 [] (json_text (VArr [location_L1; location_L2])))
           refresh_runs []).
  - vm_compute; reflexivity.
  - reflexivity.
  - discriminate.
  - reflexivity.
  - reflexivity.
  - reflexivity.
  - vm_compute; reflexivity.
  - repeat constructor.
    + exists (VStr (str "L1")). split; reflexivity.
    + exists (VStr (str "L2")). split; reflexivity.
    + exists (VArr [desk_S1]). split; vm_compute; reflexivity.
  - vm_compute; reflexivity.
  - reflexivity.
  - discriminate.
Defined.

(** ** Session manager and gateway, continued *)

(** The frame of [fetch]: it touches the clock, the script and the log. *)
Lemma fetch_frame req w :
  let w' := snd (fetch req w) in
  session w' = session w /\ env w' = env w /\ disk w' = disk w /\
  sent w' = sent w ++ [req].
Proof.
  unfold fetch. destruct (net w) as [|o rest]; [repeat split|].
  destruct (30000 <=? delay o); [repeat split|].
  destruct (result o); repeat split.
Qed.

Lemma apiRequest_string_token m e b auth w t :
  to_string (accessToken (session w)) = Ok t ->
  apiRequest m e b auth w =
  fetch (mkRequest m (baseUrl (session w) ++ e)
           (request_headers auth (accessToken (session w)) t) (request_body b)) w.
Proof.
  intros Ht. unfold apiRequest, bind, gets, request_headers, request_body.
  destruct (auth && truthy (accessToken (session w))); [|reflexivity].
  unfold lift_res. rewrite Ht. reflexivity.
Qed.

(** X1. Whatever the network does, [apiRequest] sends exactly one request:
    to the base URL followed by the endpoint, with the JSON content type,
    with the bearer token only when the call is authenticated and the token
    is truthy, and with a body only for a truthy [body].  The session, the
    environment and the disk are as before. *)
Theorem apiRequest_sends_one_request m e b auth w t :
  to_string (accessToken (session w)) = Ok t ->
  let w' := snd (apiRequest m e b auth w) in
  sent w' = sent w ++ [mkRequest m (baseUrl (session w) ++ e)
                         (request_headers auth (accessToken (session w)) t) (request_body b)] /\
  session w' = session w /\ env w' = env w /\ disk w' = disk w.
Proof.
  intros Ht w'. subst w'. rewrite (apiRequest_string_token _ _ _ _ _ _ Ht).
  pose proof (fetch_frame (mkRequest m (baseUrl (session w) ++ e)
           (request_headers auth (accessToken (session w)) t) (request_body b)) w) as H.
  cbv zeta in H. tauto.
Qed.

Lemma apiRequest_sends_one_request_witness :
  let w := logged_in [] in
  let w' := snd (apiRequest (str "DELETE") (str "/booking/b1") None true w) in
  sent w' = sent w ++ [mkRequest (str "DELETE") (baseUrl (session w) ++ str "/booking/b1")
                         (request_headers true (accessToken (session w)) (str "tok-A"))
                         (request_body None)] /\
  session w' = session w /\ env w' = env w /\ disk w' = disk w.
Proof.
  apply (apiRequest_sends_one_request (str "DELETE") (str "/booking/b1") None true
           (logged_in []) (str "tok-A")).
  reflexivity.
Defined.

Lemma store_tokens_ok data a b w :
  get_prop data (str "accessToken") = Ok a ->
  get_prop data (str "refreshToken") = Ok b ->
  store_tokens data w =
  (Ok tt, set_session (mkSession a b (now w + 14 * 60 * 1000) (baseUrl (session w))) w).
Proof.
  intros Ha Hb. unfold store_tokens, bind, lift_res. rewrite Ha.
  unfold set_accessToken, modify. cbn [session set_session].
  rewrite Hb. reflexivity.
Qed.

Lemma ensureAuthenticated_fresh w :
  truthy (accessToken (session w)) = true ->
  now w <= tokenExpiresAt (session w) - 60000 ->
  ensureAuthenticated w = (Ok tt, w).
Proof.
  intros Ht Hn. unfold ensureAuthenticated, bind, gets, Date_now, ret. simpl.
  rewrite Ht. simpl.
  destruct (now w >? tokenExpiresAt (session w) - 60000) eqn:E.
  - apply Z.gtb_lt in E. lia.
  - reflexivity.
Qed.

(** X2. A login answered 2xx with a JSON body whose access token is truthy
    stores both tokens, sets the expiry 14 minutes after the answer and
    keeps the normalised base URL; for the next 13 minutes
    [ensureAuthenticated] then succeeds without any I/O. *)
Theorem login_accepted_opens_session w url email password org o r rest data a b :
  net w = o :: rest -> delay o < 30000 -> result o = Responded r -> ok r = true ->
  Json.parse (resp_body r) = Some data ->
  get_prop data (str "accessToken") = Ok a ->
  get_prop data (str "refreshToken") = Ok b ->
  truthy a = true ->
  let base := strip_trailing_slash url in
  let w' := mkWorld (mkSession a b (now w + delay o + 14 * 60 * 1000) base)
              (now w + delay o) (env w) (disk w) rest
              (sent w ++ [login_request base email password org]) in
  login url email password org w = (Ok tt, w') /\
  forall w2, session w2 = session w' -> now w2 <= now w' + 13 * 60 * 1000 ->
             ensureAuthenticated w2 = (Ok tt, w2).
Proof.
  intros Hnet Hd Hres Hok Hp Ha Hb Hta base w'.
  split.
  - unfold login. unfold bind at 1. unfold set_baseUrl, modify. unfold bind at 1.
    rewrite apiRequest_unauthenticated.
    erewrite fetch_responded; [| exact Hnet | exact Hd | exact Hres].
    rewrite Hok. cbn [negb]. unfold bind, res_json. rewrite Hp. unfold ret.
    rewrite (store_tokens_ok _ _ _ _ Ha Hb). reflexivity.
  - intros w2 Hs Hn. apply ensureAuthenticated_fresh; rewrite Hs; subst w'; cbn in *; [exact Hta|lia].
Qed.

Lemma login_accepted_opens_session_witness :
  let w := logged_out_accepted in
  let base := strip_trailing_slash (str "https://desk.example.com/") in
  let w' := mkWorld (mkSession (VStr (str "tok-A")) (VStr (str "tok-R"))
                       (now w + 120 + 14 * 60 * 1000) base)
              (now w + 120) (env w) (disk w) []
              (sent w ++ [login_request base (str "me@example.com") (str "pw") (str "org")]) in
  login (str "https://desk.example.com/") (str "me@example.com") (str "pw") (str "org") w
  = (Ok tt, w') /\
  forall w2, session w2 = session w' -> now w2 <= now w' + 13 * 60 * 1000 ->
             ensureAuthenticated w2 = (Ok tt, w2).
Proof.
  apply (login_accepted_opens_session logged_out_accepted (str "https://desk.example.com/")
           (str "me@example.com") (str "pw") (str "org")
           (respond 200 (json_text (token_pair "tok-A" "tok-R")))
           (mkResponse 200 [] (json_text (token_pair "tok-A" "tok-R"))) []
           (token_pair "tok-A" "tok-R") (VStr (str "tok-A")) (VStr (str "tok-R"))).
  - reflexivity.
  - reflexivity.
  - reflexivity.
  - reflexivity.
  - vm_compute; reflexivity.
  - reflexivity.
  - reflexivity.
  - reflexivity.
Defined.

Lemma ensureAuthenticated_cases w :
  ensureAuthenticated w =
  if negb (truthy (accessToken (session w))) then (Throw not_authenticated, w)
  else if refresh_due w then
    match fetch (refresh_request w) w with
    | (Ok r, w1) =>
        if ok r then bind (res_json r) store_tokens w1
        else (Throw refresh_failed,
              set_session (mkSession VNull VNull (tokenExpiresAt (session w1))
                             (baseUrl (session w1))) w1)
    | (Throw e, w1) => (Throw e, w1)
    end
  else (Ok tt, w).
Proof.
  unfold ensureAuthenticated, refresh_due. unfold bind at 1. unfold gets at 1.
  destruct (truthy (accessToken (session w))); cbn [negb andb]; [|reflexivity].
  unfold bind at 1. unfold Date_now, gets.
  destruct ((now w >? tokenExpiresAt (session w) - 60000) && truthy (refreshToken (session w)));
    [|reflexivity].
  unfold bind at 1. rewrite apiRequest_unauthenticated.
  change (fetch _ w) with (fetch (refresh_request w) w).
  destruct (fetch (refresh_request w) w) as [[r|e] w1]; [|reflexivity].
  destruct (ok r); reflexivity.
Qed.

Lemma refresh_due_token w : refresh_due w = true -> truthy (accessToken (session w)) = true.
Proof.
  unfold refresh_due. destruct (truthy (accessToken (session w))); [reflexivity|discriminate].
Qed.

Lemma res_json_store_frame r w :
  let w' := snd (bind (res_json r) store_tokens w) in
  baseUrl (session w') = baseUrl (session w) /\ env w' = env w /\ disk w' = disk w /\
  sent w' = sent w /\ net w' = net w /\ now w' = now w.
Proof.
  unfold bind, res_json.
  destruct (Json.parse (resp_body r)) as [data|]; [|repeat split].
  unfold ret, store_tokens, bind, lift_res.
  destruct (get_prop data (str "accessToken")) as [a|]; [|repeat split].
  unfold set_accessToken, modify.
  destruct (get_prop data (str "refreshToken")) as [b|]; repeat split.
Qed.

(** X3. [ensureAuthenticated] sends the refresh request when there is a
    truthy access token, the expiry is less than a minute away and there is
    a truthy refresh token, and sends nothing otherwise.  It never changes
    the base URL, the environment or the disk.  When no refresh is due it
    leaves the world as it is and succeeds exactly when the access token is
    truthy. *)
Theorem ensureAuthenticated_requests w :
  let w' := snd (ensureAuthenticated w) in
  sent w' = sent w ++ (if refresh_due w then [refresh_request w] else []) /\
  baseUrl (session w') = baseUrl (session w) /\ env w' = env w /\ disk w' = disk w /\
  (refresh_due w = false ->
   w' = w /\
   (fst (ensureAuthenticated w) = Ok tt <-> truthy (accessToken (session w)) = true)).
Proof.
  cbv zeta. rewrite ensureAuthenticated_cases.
  destruct (truthy (accessToken (session w))) eqn:Ha; cbn [negb].
  2:{ assert (Hdue : refresh_due w = false) by (unfold refresh_due; rewrite Ha; reflexivity).
      rewrite Hdue, app_nil_r. repeat split; try reflexivity; intros; discriminate. }
  destruct (refresh_due w) eqn:Hd.
  2:{ rewrite app_nil_r. repeat split; reflexivity. }
  pose proof (fetch_frame (refresh_request w) w) as Hf. cbv zeta in Hf.
  destruct (fetch (refresh_request w) w) as [[r|e] w1]; cbn [snd] in Hf;
    destruct Hf as (Hs & He & Hdk & Hst).
  - destruct (ok r).
    + pose proof (res_json_store_frame r w1) as Hj. cbv zeta in Hj.
      destruct Hj as (Hb & He' & Hd' & Hs' & _).
      rewrite Hb, He', Hd', Hs', Hs, He, Hdk, Hst.
      repeat split; try reflexivity; discriminate.
    + cbn. rewrite Hs, He, Hdk, Hst. repeat split; try reflexivity; discriminate.
  - cbn. rewrite Hs, He, Hdk, Hst. repeat split; try reflexivity; discriminate.
Qed.

Lemma ensureAuthenticated_requests_witness :
  let w := logged_in [respond 200 (str "unused")] in
  let w' := snd (ensureAuthenticated w) in
  sent w' = sent w ++ (if refresh_due w then [refresh_request w] else []) /\
  baseUrl (session w') = baseUrl (session w) /\ env w' = env w /\ disk w' = disk w /\
  (refresh_due w = false ->
   w' = w /\
   (fst (ensureAuthenticated w) = Ok tt <-> truthy (accessToken (session w)) = true)).
Proof. apply (ensureAuthenticated_requests (logged_in [respond 200 (str "unused")])). Defined.

(** X4. A refresh that is due and is answered 2xx with a JSON body
    replaces both tokens by the ones of the body and sets the expiry 14
    minutes after the answer; the base URL stays, and the one request sent
    is the refresh request with the old refresh token. *)
Theorem ensureAuthenticated_refresh_rotates w o r rest data a b :
  refresh_due w = true ->
  net w = o :: rest -> delay o < 30000 -> result o = Responded r -> ok r = true ->
  Json.parse (resp_body r) = Some data ->
  get_prop data (str "accessToken") = Ok a ->
  get_prop data (str "refreshToken") = Ok b ->
  ensureAuthenticated w =
  (Ok tt,
   mkWorld (mkSession a b (now w + delay o + 14 * 60 * 1000) (baseUrl (session w)))
     (now w + delay o) (env w) (disk w) rest (sent w ++ [refresh_request w])).
Proof.
  intros Hdue Hnet Hd Hres Hok Hp Ha Hb.
  rewrite ensureAuthenticated_cases, Hdue, (refresh_due_token _ Hdue). cbn [negb].
  erewrite fetch_responded; [| exact Hnet | exact Hd | exact Hres].
  rewrite Hok. unfold bind, res_json. rewrite Hp. unfold ret.
  rewrite (store_tokens_ok _ _ _ _ Ha Hb). reflexivity.
Qed.

Lemma ensureAuthenticated_refresh_rotates_witness :
  let w := rotating_world in
  ensureAuthenticated w =
  (Ok tt,
   mkWorld (mkSession (VStr (str "tok-B")) (VStr (str "tok-S"))
              (now w + 120 + 14 * 60 * 1000) (baseUrl (session w)))
     (now w + 120) (env w) (disk w) [] (sent w ++ [refresh_request w])).
Proof.
  apply (ensureAuthenticated_refresh_rotates rotating_world
           (respond 200 (json_text (token_pair "tok-B" "tok-S")))
           (mkResponse 200 [] (json_text (token_pair "tok-B" "tok-S"))) []
           (token_pair "tok-B" "tok-S") (VStr (str "tok-B")) (VStr (str "tok-S"))).
  - reflexivity.
  - reflexivity.
  - reflexivity.
  - reflexivity.
  - reflexivity.
  - vm_compute; reflexivity.
  - reflexivity.
  - reflexivity.
Defined.

(** X5. When the refresh request gets no usable answer (the network fails
    or times out, or the 2xx body is not JSON), [ensureAuthenticated]
    throws with the session untouched: unlike after a non-2xx answer, the
    old tokens are still there.  One request was sent. *)
Theorem ensureAuthenticated_refresh_error_keeps_session w :
  refresh_due w = true -> no_usable_answer w ->
  exists e w',
    ensureAuthenticated w = (Throw e, w') /\ session w' = session w /\
    sent w' = sent w ++ [refresh_request w].
Proof.
  intros Hdue Hno.
  rewrite ensureAuthenticated_cases, Hdue, (refresh_due_token _ Hdue). cbn [negb].
  unfold no_usable_answer in Hno. unfold fetch.
  destruct (net w) as [|o rest]; [eexists _, _; repeat split|].
  destruct (30000 <=? delay o) eqn:Ed; [eexists _, _; repeat split|].
  apply Z.leb_gt in Ed.
  destruct (result o) as [r|]; [|eexists _, _; repeat split].
  destruct Hno as [Hno|[Hok Hp]]; [lia|].
  rewrite Hok. unfold bind, res_json. rewrite Hp.
  eexists _, _; repeat split.
Qed.

Lemma ensureAuthenticated_refresh_error_keeps_session_witness :
  exists e w',
    ensureAuthenticated garbled_refresh_world = (Throw e, w') /\
    session w' = session garbled_refresh_world /\
    sent w' = sent garbled_refresh_world ++ [refresh_request garbled_refresh_world].
Proof.
  apply (ensureAuthenticated_refresh_error_keeps_session garbled_refresh_world).
  - reflexivity.
  - right. split; vm_compute; reflexivity.
Defined.

(** X6. A refresh answered 2xx with a JSON object that has no
    [accessToken] is taken as a success: [ensureAuthenticated] returns, but
    the access token is now [undefined].  The request that follows goes out
    without an [Authorization] header, and the next [ensureAuthenticated]
    reports that there is no session. *)
Theorem ensureAuthenticated_refresh_without_tokens w o r rest ps :
  refresh_due w = true ->
  net w = o :: rest -> delay o < 30000 -> result o = Responded r -> ok r = true ->
  Json.parse (resp_body r) = Some (VObj ps) ->
  Obj.lookup (str "accessToken") ps = None ->
  exists w',
    ensureAuthenticated w = (Ok tt, w') /\
    accessToken (session w') = VUndefined /\
    (forall m e b,
       sent (snd (apiRequest m e b true w')) =
       sent w' ++ [mkRequest m (baseUrl (session w) ++ e)
                     [(str "Content-Type", str "application/json")] (request_body b)]) /\
    ensureAuthenticated w' = (Throw not_authenticated, w').
Proof.
  intros Hdue Hnet Hd Hres Hok Hp Hl.
  eexists. split.
  - rewrite ensureAuthenticated_cases, Hdue, (refresh_due_token _ Hdue). cbn [negb].
    erewrite fetch_responded; [| exact Hnet | exact Hd | exact Hres].
    rewrite Hok. unfold bind, res_json. rewrite Hp. unfold ret.
    erewrite store_tokens_ok; [reflexivity | simpl; rewrite Hl; reflexivity | reflexivity].
  - split; [reflexivity|]. split.
    + intros m e b.
      erewrite apiRequest_string_token by reflexivity.
      apply fetch_frame.
    + apply ensureAuthenticated_no_token. reflexivity.
Qed.

Lemma ensureAuthenticated_refresh_without_tokens_witness :
  exists w',
    ensureAuthenticated tokenless_refresh_world = (Ok tt, w') /\
    accessToken (session w') = VUndefined /\
    (forall m e b,
       sent (snd (apiRequest m e b true w')) =
       sent w' ++ [mkRequest m (baseUrl (session tokenless_refresh_world) ++ e)
                     [(str "Content-Type", str "application/json")] (request_body b)]) /\
    ensureAuthenticated w' = (Throw not_authenticated, w').
Proof.
  apply (ensureAuthenticated_refresh_without_tokens tokenless_refresh_world
           (respond 200 (str "{}")) (mkResponse 200 [] (str "{}")) [] []).
  - reflexivity.
  - reflexivity.
  - reflexivity.
  - reflexivity.
  - reflexivity.
  - vm_compute; reflexivity.
  - reflexivity.
Defined.

(** ** JSON round trip *)

Section RoundTrip.

Import Json.

(** Induction on values that reaches into arrays and objects. *)
Lemma value_ind_deep (P : value -> Prop) :
  P VUndefined -> P VNull -> (forall b, P (VBool b)) -> (forall n, P (VNum n)) ->
  (forall s, P (VStr s)) ->
  (forall items, Forall P items -> P (VArr items)) ->
  (forall ps, Forall (fun kv => P (snd kv)) ps -> P (VObj ps)) ->
  forall v, P v.
Proof.
  intros Hu Hn Hb Hnum Hs Ha Ho.
  fix IH 1. intros [| |b|n|s|items|ps];
    [exact Hu | exact Hn | apply Hb | apply Hnum | apply Hs | | ].
  - apply Ha. induction items as [|x items IHl]; constructor; [apply IH|exact IHl].
  - apply Ho. induction ps as [|[k x] ps IHl]; constructor; [apply IH|exact IHl].
Qed.

(** *** Strings *)

Lemma hex_value_digit n : (n < 16)%N -> hex_value (hex_digit n) = Some n.
Proof.
  intros H. unfold hex_digit, hex_value, is_digit.
  destruct (n <? 10)%N eqn:E.
  - apply N.ltb_lt in E.
    replace ((48 <=? 48 + n) && (48 + n <=? 57))%N with true
      by (symmetry; apply andb_true_iff; split; apply N.leb_le; lia).
    f_equal. lia.
  - apply N.ltb_ge in E.
    replace ((48 <=? 87 + n) && (87 + n <=? 57))%N with false
      by (symmetry; apply andb_false_iff; right; apply N.leb_gt; lia).
    replace ((97 <=? 87 + n) && (87 + n <=? 102))%N with true
      by (symmetry; apply andb_true_iff; split; apply N.leb_le; lia).
    f_equal. lia.
Qed.

Lemma hex4_escape c :
  (c < 65536)%N ->
  hex4 (hex_digit (c / 4096 mod 16)) (hex_digit (c / 256 mod 16))
       (hex_digit (c / 16 mod 16)) (hex_digit (c mod 16)) = Some c.
Proof.
  intros H. unfold hex4.
  rewrite !hex_value_digit by (apply N.mod_upper_bound; discriminate).
  simpl. f_equal.
  assert (E1 : (c = 16 * (c / 16) + c mod 16)%N) by (apply N.div_mod; discriminate).
  assert (E2 : (c / 16 = 16 * (c / 256) + c / 16 mod 16)%N).
  { replace (c / 256)%N with (c / 16 / 16)%N by (rewrite N.Div0.div_div; reflexivity).
    apply N.div_mod; discriminate. }
  assert (E3 : (c / 256 = 16 * (c / 4096) + c / 256 mod 16)%N).
  { replace (c / 4096)%N with (c / 256 / 16)%N by (rewrite N.Div0.div_div; reflexivity).
    apply N.div_mod; discriminate. }
  assert (E4 : (c / 4096 < 16)%N) by (apply N.Div0.div_lt_upper_bound; simpl; lia).
  rewrite (N.mod_small (c / 4096) 16) by assumption.
  lia.
Qed.

Lemma surrogate_small c :
  is_high_surrogate c || is_low_surrogate c = true -> (c < 65536)%N.
Proof.
  unfold is_high_surrogate, is_low_surrogate.
  rewrite orb_true_iff, !andb_true_iff, !N.leb_le. lia.
Qed.

Lemma parse_unicode_escape c X acc :
  (c < 65536)%N ->
  parse_string_body (unicode_escape c ++ X) acc = parse_string_body X (c :: acc).
Proof.
  intros H. unfold unicode_escape. change (str "\u") with [92%N; 117%N].
  cbn [app parse_string_body].
  change (unit_eqb 92 34) with false. change (unit_eqb 92 92) with true.
  change (unit_eqb 117 34) with false. change (unit_eqb 117 92) with false.
  change (unit_eqb 117 47) with false. change (unit_eqb 117 98) with false.
  change (unit_eqb 117 102) with false. change (unit_eqb 117 110) with false.
  change (unit_eqb 117 114) with false. change (unit_eqb 117 116) with false.
  change (unit_eqb 117 117) with true. cbv iota.
  rewrite hex4_escape by assumption. reflexivity.
Qed.

(** What [quote_units] writes is read back unit by unit. *)
Lemma parse_quoted s : forall prev acc rest,
  parse_string_body (quote_units s prev ++ 34%N :: rest) acc = Some (rev acc ++ s, rest).
Proof.
  induction s as [|c r IH]; intros prev acc rest.
  - simpl. rewrite app_nil_r. reflexivity.
  - cbn [quote_units]. rewrite <- app_assoc.
    set (tail := quote_units r _ ++ 34%N :: rest).
    assert (Hstep : forall piece,
              parse_string_body (piece ++ tail) acc = parse_string_body tail (c :: acc) ->
              parse_string_body (piece ++ tail) acc = Some (rev acc ++ c :: r, rest)).
    { intros piece ->. subst tail. rewrite IH. simpl. rewrite <- app_assoc. reflexivity. }
    destruct (unit_eqb c 8) eqn:E8.
    { apply unit_eqb_eq in E8. subst c. apply Hstep. reflexivity. }
    destruct (unit_eqb c 9) eqn:E9.
    { apply unit_eqb_eq in E9. subst c. apply Hstep. reflexivity. }
    destruct (unit_eqb c 10) eqn:E10.
    { apply unit_eqb_eq in E10. subst c. apply Hstep. reflexivity. }
    destruct (unit_eqb c 12) eqn:E12.
    { apply unit_eqb_eq in E12. subst c. apply Hstep. reflexivity. }
    destruct (unit_eqb c 13) eqn:E13.
    { apply unit_eqb_eq in E13. subst c. apply Hstep. reflexivity. }
    destruct (unit_eqb c 34) eqn:E34.
    { apply unit_eqb_eq in E34. subst c. apply Hstep. reflexivity. }
    destruct (unit_eqb c 92) eqn:E92.
    { apply unit_eqb_eq in E92. subst c. apply Hstep. reflexivity. }
    destruct (c <? 32)%N eqn:E32.
    { apply Hstep. apply parse_unicode_escape. apply N.ltb_lt in E32. lia. }
    assert (Hlit : parse_string_body ([c] ++ tail) acc = parse_string_body tail (c :: acc)).
    { cbn [app parse_string_body]. rewrite E34, E92, E32. reflexivity. }
    destruct (is_high_surrogate c) eqn:Eh; cbn [andb].
    { destruct (negb _).
      - apply Hstep. apply parse_unicode_escape. apply surrogate_small. rewrite Eh. reflexivity.
      - destruct (is_low_surrogate c && negb prev) eqn:El.
        + apply Hstep. apply parse_unicode_escape. apply surrogate_small. rewrite Eh. reflexivity.
        + apply Hstep. exact Hlit. }
    destruct (is_low_surrogate c) eqn:El; cbn [andb].
    { destruct (negb prev).
      - apply Hstep. apply parse_unicode_escape. apply surrogate_small.
        rewrite El. apply orb_true_r.
      - apply Hstep. exact Hlit. }
    apply Hstep. exact Hlit.
Qed.

Lemma parse_quote s rest :
  parse_string_body (quote_units s false ++ 34%N :: rest) [] = Some (s, rest).
Proof. apply (parse_quoted s false [] rest). Qed.

(** *** Objects *)

Lemma define_appendable k x acc :
  appendable k (map fst acc) = true -> Obj.define k x acc = acc ++ [(k, x)].
Proof.
  unfold appendable, Obj.define, Obj.has. intros H.
  assert (Hl : Obj.lookup k acc = None /\ Obj.insert_new k x acc = acc ++ [(k, x)]).
  { induction acc as [|[k' x'] acc IH]; simpl in *; [split; reflexivity|].
    apply andb_true_iff in H as [Hk H]. apply andb_true_iff in Hk as [Hne Hgb].
    apply negb_true_iff in Hne, Hgb. rewrite Hne, Hgb.
    destruct (IH H) as [-> ->]. split; reflexivity. }
  destruct Hl as [-> ->]. reflexivity.
Qed.

(** *** Values *)

Lemma stringify_defined v : storable v = true -> stringify v = Some (json_text v).
Proof. unfold json_text. destruct v as [| |b|n|s|items|ps]; try discriminate; reflexivity. Qed.

Lemma json_text_array items :
  forallb storable items = true ->
  json_text (VArr items) = str "[" ++ join (str ",") (map json_text items) ++ str "]".
Proof.
  intros H.
  change (json_text (VArr items)) with
    (str "[" ++ join (str ",") (map (fun e => default (str "null") (stringify e)) items)
     ++ str "]").
  do 3 f_equal.
  induction items as [|x items IH]; [reflexivity|].
  simpl in H. apply andb_true_iff in H as [Hx H].
  cbn [map]. rewrite (stringify_defined x Hx), IH by assumption. reflexivity.
Qed.

Lemma json_text_object ps :
  forallb (fun kv => storable (snd kv)) ps = true ->
  json_text (VObj ps) = str "{" ++ join (str ",") (map member_text ps) ++ str "}".
Proof.
  intros H.
  assert (Hm : forall ps, forallb (fun kv => storable (snd kv)) ps = true ->
            (fix members (ps : list (jsstring * value)) : list jsstring :=
               match ps with
               | [] => []
               | (k, x) :: ps' =>
                   match stringify x with
                   | Some t => (quote k ++ str ":" ++ t) :: members ps'
                   | None => members ps'
                   end
               end) ps = map member_text ps).
  { clear. induction ps as [|[k x] ps IH]; intros H; [reflexivity|].
    simpl in H. apply andb_true_iff in H as [Hx H].
    rewrite (stringify_defined x Hx), IH by assumption. reflexivity. }
  change (json_text (VObj ps)) with
    (str "{" ++ join (str ",")
       ((fix members (ps : list (jsstring * value)) : list jsstring :=
               match ps with
               | [] => []
               | (k, x) :: ps' =>
                   match stringify x with
                   | Some t => (quote k ++ str ":" ++ t) :: members ps'
                   | None => members ps'
                   end
               end) ps) ++ str "}").
  rewrite Hm by assumption. reflexivity.
Qed.

Lemma json_text_opens v : storable v = true -> opens (json_text v).
Proof.
  intros H. destruct v as [| |b|n|s|items|ps]; try discriminate.
  - exists 110%N, (str "ull"). repeat split.
  - destruct b; [exists 116%N, (str "rue") | exists 102%N, (str "alse")]; repeat split.
  - unfold json_text. cbn [stringify default quote app]. eexists _, _. repeat split.
  - simpl in H. rewrite json_text_array by assumption. eexists _, _. repeat split.
  - simpl in H. apply andb_true_iff in H as [_ H].
    rewrite json_text_object by assumption. eexists _, _. repeat split.
Qed.

Lemma skip_ws_opens s rest : opens s -> skip_ws (s ++ rest) = s ++ rest.
Proof. intros (c & t & -> & Hw & _). simpl. rewrite Hw. reflexivity. Qed.

Lemma length_join_cons sep (x : jsstring) y l :
  length (join sep (x :: y :: l)) = (length x + length sep + length (join sep (y :: l)))%nat.
Proof. cbn [join]. rewrite !length_app. lia. Qed.

Lemma elements_read_back items :
  Forall reads_back items -> forallb storable items = true -> items <> [] ->
  forall acc f rest,
    (2 * length (join (str ",") (map json_text items)) + 1 < f)%nat ->
    parse_elements f (join (str ",") (map json_text items) ++ 93%N :: rest) acc
    = Parsed (VArr (rev acc ++ items)) rest.
Proof.
  induction 1 as [|x items Hx Hitems IH]; intros Hst Hne acc f rest Hf; [congruence|].
  simpl in Hst. apply andb_true_iff in Hst as [Hsx Hst].
  destruct f as [|f]; [lia|]. cbn [parse_elements].
  destruct items as [|y items].
  - cbn [map join] in *. rewrite (Hx Hsx) by lia.
    cbn [skip_ws is_ws]. change (is_ws 93) with false. cbv iota.
    change (unit_eqb 93 44) with false. change (unit_eqb 93 93) with true. cbv iota.
    reflexivity.
  - cbn [map] in *. rewrite length_join_cons in Hf. cbn [join].
    rewrite <- !app_assoc. rewrite (Hx Hsx) by lia.
    change (str "," ++ ?t) with (44%N :: t).
    cbn [app skip_ws]. change (is_ws 44) with false. cbv iota.
    change (unit_eqb 44 44) with true. cbv iota.
    rewrite IH; [| assumption | discriminate | simpl in *; lia].
    simpl rev. rewrite <- app_assoc. reflexivity.
Qed.

Lemma members_read_back ps :
  Forall (fun kv => reads_back (snd kv)) ps ->
  forallb (fun kv => storable (snd kv)) ps = true -> ps <> [] ->
  forall acc f rest,
    ordered_from (map fst acc) (map fst ps) = true ->
    (2 * length (join (str ",") (map member_text ps)) + 1 < f)%nat ->
    parse_members f (join (str ",") (map member_text ps) ++ 125%N :: rest) acc
    = Parsed (VObj (acc ++ ps)) rest.
Proof.
  induction 1 as [|[k x] ps Hx Hps IH]; intros Hst Hne acc f rest Hord Hf; [congruence|].
  simpl in Hst. apply andb_true_iff in Hst as [Hsx Hst]. cbn [snd] in Hx, Hsx.
  cbn [map fst ordered_from] in Hord. apply andb_true_iff in Hord as [Happ Hord].
  destruct f as [|f]; [lia|]. cbn [parse_members].
  assert (Hmember : forall tail,
            member_text (k, x) ++ tail
            = 34%N :: quote_units k false ++ 34%N :: 58%N :: json_text x ++ tail).
  { intros tail. unfold member_text, quote. cbn [fst snd].
    change (str ":") with [58%N]. rewrite <- !app_assoc. reflexivity. }
  assert (Hlen : (length (json_text x) < length (member_text (k, x)))%nat).
  { unfold member_text, quote. cbn [fst snd]. rewrite !length_app. simpl. lia. }
  destruct ps as [|kv ps].
  - cbn [map join] in *. rewrite Hmember.
    cbn [skip_ws]. change (is_ws 34) with false. cbv iota.
    change (unit_eqb 34 34) with true. cbv iota.
    rewrite parse_quote.
    cbn [skip_ws]. change (is_ws 58) with false. cbv iota.
    change (unit_eqb 58 58) with true. cbv iota.
    rewrite (Hx Hsx) by lia. cbv zeta.
    cbn [skip_ws]. change (is_ws 125) with false. cbv iota.
    change (unit_eqb 125 44) with false. change (unit_eqb 125 125) with true. cbv iota.
    rewrite define_appendable by assumption. reflexivity.
  - cbn [map] in *. rewrite length_join_cons in Hf. cbn [join].
    rewrite <- !app_assoc. rewrite Hmember.
    cbn [skip_ws]. change (is_ws 34) with false. cbv iota.
    change (unit_eqb 34 34) with true. cbv iota.
    rewrite parse_quote.
    cbn [skip_ws]. change (is_ws 58) with false. cbv iota.
    change (unit_eqb 58 58) with true. cbv iota.
    rewrite (Hx Hsx) by lia. cbv zeta.
    change (str "," ++ ?t) with (44%N :: t).
    cbn [app skip_ws]. change (is_ws 44) with false. cbv iota.
    change (unit_eqb 44 44) with true. cbv iota.
    rewrite define_appendable by assumption.
    rewrite IH; [| assumption | discriminate | | simpl in *; lia].
    + rewrite <- app_assoc. reflexivity.
    + rewrite map_app. exact Hord.
Qed.

(** Every storable value is read back from its serialisation. *)
Lemma storable_reads_back v : reads_back v.
Proof.
  induction v as [| |b|n|s|items IH|ps IH] using value_ind_deep;
    intros Hst f rest Hf; try discriminate.
  - destruct f as [|f]; [lia|]. reflexivity.
  - destruct f as [|f]; [lia|]. destruct b; reflexivity.
  - destruct f as [|f]; [lia|].
    change (json_text (VStr s)) with (34%N :: quote_units s false ++ [34%N]).
    cbn [parse_value app skip_ws]. change (is_ws 34) with false. cbv iota.
    change (unit_eqb 34 123) with false. change (unit_eqb 34 91) with false.
    change (unit_eqb 34 34) with true. cbv iota.
    rewrite <- app_assoc. cbn [app]. rewrite parse_quote. reflexivity.
  - simpl in Hst. rewrite json_text_array in * by assumption.
    destruct f as [|f]; [lia|].
    change (str "[" ++ ?t) with (91%N :: t) in *.
    cbn [parse_value app skip_ws]. change (is_ws 91) with false. cbv iota.
    change (unit_eqb 91 123) with false. change (unit_eqb 91 91) with true. cbv iota.
    rewrite <- app_assoc. change (str "]" ++ rest) with (93%N :: rest).
    destruct items as [|x items].
    + cbn [map join app skip_ws]. change (is_ws 93) with false. cbv iota.
      change (unit_eqb 93 93) with true. reflexivity.
    + assert (Hopen : opens (join (str ",") (map json_text (x :: items)))).
      { simpl in Hst. apply andb_true_iff in Hst as [Hsx _].
        destruct (json_text_opens x Hsx) as (c & t & Ht & Hc).
        cbn [map join]. destruct (map json_text items); rewrite Ht;
          eexists _, _; (split; [reflexivity|exact Hc]). }
      destruct Hopen as (c & t & Ht & Hw & Hc & _).
      replace (skip_ws (join (str ",") (map json_text (x :: items)) ++ 93%N :: rest))
        with (c :: t ++ 93%N :: rest)
        by (rewrite Ht; cbn [app skip_ws]; rewrite Hw; reflexivity).
      cbv iota. rewrite Hc.
      rewrite (elements_read_back _ IH Hst); [reflexivity | discriminate |].
      cbn [length] in Hf. rewrite length_app in Hf.
      change (length (str "]")) with 1%nat in Hf. lia.
  - simpl in Hst. apply andb_true_iff in Hst as [Hord Hst].
    rewrite json_text_object in * by assumption.
    destruct f as [|f]; [lia|].
    change (str "{" ++ ?t) with (123%N :: t) in *.
    cbn [parse_value app skip_ws]. change (is_ws 123) with false. cbv iota.
    change (unit_eqb 123 123) with true. cbv iota.
    rewrite <- app_assoc. change (str "}" ++ rest) with (125%N :: rest).
    destruct ps as [|[k x] ps].
    + cbn [map join app skip_ws]. change (is_ws 125) with false. cbv iota.
      change (unit_eqb 125 125) with true. reflexivity.
    + assert (Hopen : exists t, join (str ",") (map member_text ((k, x) :: ps)) = 34%N :: t).
      { cbn [map join].
        assert (Hm : exists t', member_text (k, x) = 34%N :: t')
          by (eexists; reflexivity).
        destruct Hm as [t' ->].
        destruct (map member_text ps); eexists; reflexivity. }
      destruct Hopen as [t Ht].
      replace (skip_ws (join (str ",") (map member_text ((k, x) :: ps)) ++ 125%N :: rest))
        with (34%N :: t ++ 125%N :: rest)
        by (rewrite Ht; reflexivity).
      cbv iota. change (unit_eqb 34 125) with false. cbv iota.
      rewrite (members_read_back _ IH Hst); [reflexivity | discriminate | exact Hord |].
      cbn [length] in Hf. rewrite length_app in Hf.
      change (length (str "}")) with 1%nat in Hf. lia.
Qed.

(** [JSON.parse] undoes [JSON.stringify] on storable values. *)
Lemma parse_json_text v : storable v = true -> Json.parse (json_text v) = Some v.
Proof.
  intros H. unfold Json.parse.
  pose proof (storable_reads_back v H (S (2 * length (json_text v))) []) as Hp.
  rewrite app_nil_r in Hp. rewrite Hp by lia. reflexivity.
Qed.

End RoundTrip.

(** ** The cache file *)

(** X7. What [saveSpacesCache] writes, [loadSpacesCache] reads back: on
    a writable disk whose cache path is not a directory, saving a value made
    of [null], booleans, strings, arrays and objects (no number, no
    [undefined]) and loading the cache returns that very value. *)
Theorem saved_cache_loads_back data w :
  storable data = true ->
  writable (disk w) = true -> cache_file (disk w) <> Directory ->
  exists w',
    saveSpacesCache data w = (Ok tt, w') /\ loadSpacesCache w' = (Ok data, w').
Proof.
  intros Hst Hw Hc. eexists. split.
  - apply saveSpacesCache_writes; [apply stringify_defined; exact Hst | exact Hw | exact Hc].
  - rewrite loadSpacesCache_reads_disk. cbn [disk set_disk cache_file parsed_or_empty].
    rewrite (parse_json_text _ Hst). reflexivity.
Qed.

Lemma saved_cache_loads_back_witness :
  let data := snapshot (str "2023-11-14T22:13:20.360Z") [location_L1; location_L2]
                [(str "L2", VArr [desk_S1])] in
  exists w',
    saveSpacesCache data (logged_in []) = (Ok tt, w') /\ loadSpacesCache w' = (Ok data, w').
Proof.
  apply (saved_cache_loads_back
           (snapshot (str "2023-11-14T22:13:20.360Z") [location_L1; location_L2]
              [(str "L2", VArr [desk_S1])]) (logged_in [])).
  - vm_compute; reflexivity.
  - reflexivity.
  - discriminate.
Defined.

Lemma stringify_undefined v : Json.stringify v = None <-> v = VUndefined.
Proof.
  destruct v as [| |b|n|s|items|ps]; simpl; split; try discriminate; try reflexivity.
  destruct n; discriminate.
Qed.

(** X8. [saveSpacesCache] touches nothing but the cache directory and
    the cache file: session, clock, environment, network and the config
    file are as before.  It succeeds exactly when no write fault strikes,
    the cache path is not a directory and the data is not [undefined];
    then the directory exists and the file holds the serialised data.
    The file is written in place: when the write fails after the file
    was opened, the old content is gone and the file holds the part of
    the new text written so far.  In every other failure the cache file
    is as it was. *)
Theorem saveSpacesCache_effects data w :
  let r := fst (saveSpacesCache data w) in
  let w' := snd (saveSpacesCache data w) in
  (session w' = session w /\ now w' = now w /\ env w' = env w /\
   net w' = net w /\ sent w' = sent w /\
   config_file (disk w') = config_file (disk w)) /\
  (r = Ok tt <->
   writable (disk w) = true /\ cache_file (disk w) <> Directory /\ data <> VUndefined) /\
  (r = Ok tt ->
   dir_exists (disk w') = true /\ cache_file (disk w') = File (json_text data)) /\
  (forall n,
     write_fault (disk w) = Interrupted n ->
     cache_file (disk w) <> Directory -> data <> VUndefined ->
     r = Throw FsError /\ cache_file (disk w') = File (firstn n (json_text data))) /\
  (r <> Ok tt ->
   (forall n, write_fault (disk w) <> Interrupted n) \/
   cache_file (disk w) = Directory \/ data = VUndefined ->
   cache_file (disk w') = cache_file (disk w)).
Proof.
  cbv zeta. unfold saveSpacesCache, json_text, writable.
  pose proof (stringify_undefined data) as Hu.
  destruct (Json.stringify data) as [text|];
    unfold bind, gets, mkdirSync, writeFileSync_cache, bind, gets, modify, ret, throw, set_disk;
    destruct w as [s n e [dir cfg cache wr] nt st];
    cbn [disk dir_exists write_fault cache_file config_file];
    destruct dir, wr as [| |k], cache; cbn;
    (split; [repeat split|]);
    (split; [split; [intros H; try discriminate H; repeat split; try discriminate;
                     intros ->; destruct Hu as [_ Hu]; discriminate (Hu eq_refl)
                    | intros (H1 & H2 & H3); try discriminate H1; try congruence;
                      destruct Hu as [Hu _]; try (exfalso; apply H3; apply Hu; reflexivity)]|]);
    (split; [intros H; try discriminate H; split; reflexivity|]);
    (split; [intros m Hm Hd Hdef; try discriminate Hm; try congruence;
             try (injection Hm as <-; split; reflexivity);
             destruct Hu as [Hu _]; exfalso; apply Hdef; apply Hu; reflexivity
            | intros H [Hn|[Hd|Hd]]; try reflexivity; try discriminate Hd;
              try (exfalso; apply H; reflexivity);
              try (exfalso; apply (Hn k); reflexivity);
              try (subst data; destruct Hu as [_ Hu]; discriminate (Hu eq_refl))]).
Qed.

Lemma saveSpacesCache_effects_witness :
  let data := VObj [(str "spaces", VObj [])] in
  let w := interrupted_save_world in
  let r := fst (saveSpacesCache data w) in
  let w' := snd (saveSpacesCache data w) in
  cache_file (disk w) = File (json_text (VObj [(str "spaces", VObj []); (str "old", VNull)])) /\
  r = Throw FsError /\ cache_file (disk w') = File (str "{") /\
  config_file (disk w') = config_file (disk w) /\ session w' = session w.
Proof.
  cbv zeta.
  destruct (saveSpacesCache_effects (VObj [(str "spaces", VObj [])]) interrupted_save_world)
    as ((Hs & _ & _ & _ & _ & Hc) & _ & _ & Hcut & _).
  destruct (Hcut 1%nat eq_refl) as [Hr Hf]; [discriminate | discriminate |].
  split; [reflexivity|]. split; [exact Hr|]. split; [exact Hf|]. split; [exact Hc|exact Hs].
Defined.

(** ** Listings *)

Lemma round_half_even_lower num den :
  0 <= num -> 0 < den -> num / den <= Number.round_half_even num den.
Proof.
  intros Hn Hd. unfold Number.round_half_even.
  destruct (2 * (num mod den) ?= den); [destruct (Z.even (num / den))| |]; lia.
Qed.

Lemma of_Z_nonzero z : 0 < z -> Number.is_zero (Number.of_Z z) = false.
Proof.
  intros Hz. unfold Number.of_Z, Number.of_decimal.
  change (0 <=? 0) with true. cbv iota.
  change (10 ^ 0) with 1. rewrite Z.mul_1_r, Z.abs_eq by lia.
  unfold Number.round_ratio.
  destruct (z =? 0) eqn:E0; [apply Z.eqb_eq in E0; lia|].
  set (t := Z.max (Number.floor_log2 z 1 - 52) (-1074)).
  set (sig := if 0 <=? t then Number.round_half_even z (1 * 2 ^ t)
              else Number.round_half_even (z * 2 ^ (- t)) 1).
  assert (Hsig : 1 <= sig).
  { subst sig. destruct (0 <=? t) eqn:Et.
    - apply Z.leb_le in Et.
      assert (Ht : t <= Z.log2 z - 52).
      { subst t. unfold Number.floor_log2 in *. change (Z.log2 1) with 0 in *.
        rewrite Z.sub_0_r in *.
        destruct (Number.ratio_ge_pow 2 z 1 (Z.log2 z)); lia. }
      assert (Hp : 2 ^ t <= z).
      { transitivity (2 ^ Z.log2 z).
        - apply Z.pow_le_mono_r; lia.
        - apply Z.log2_spec; lia. }
      assert (H2 : 0 < 2 ^ t) by (apply Z.pow_pos_nonneg; lia).
      etransitivity; [|apply round_half_even_lower; lia].
      rewrite Z.mul_1_l. apply Z.div_le_lower_bound; lia.
    - apply Z.leb_gt in Et.
      assert (H2 : 0 < 2 ^ (- t)) by (apply Z.pow_pos_nonneg; lia).
      etransitivity; [|apply round_half_even_lower; nia].
      rewrite Z.div_1_r. nia. }
  destruct (sig =? 2 ^ 53) eqn:E53.
  - change (2 ^ 52 =? 0) with false. cbv iota.
    destruct (971 <? t + 1); reflexivity.
  - destruct (sig =? 0) eqn:Es; [apply Z.eqb_eq in Es; lia|].
    destruct (971 <? t); [reflexivity|].
    simpl. apply N.eqb_neq. lia.
Qed.

Lemma get_length_falsy v :
  empty_listing v <-> exists len, get_length v = Ok len /\ truthy len = false.
Proof.
  destruct v as [| |b|n|s|items|ps]; simpl.
  - split; [tauto|]. intros (len & H & _). discriminate.
  - split; [tauto|]. intros (len & H & _). discriminate.
  - split; [eexists; split; reflexivity | tauto].
  - split; [eexists; split; reflexivity | tauto].
  - split.
    + intros ->. eexists; split; reflexivity.
    + intros (len & [= <-] & H). destruct s as [|c s]; [reflexivity|].
      simpl in H. rewrite of_Z_nonzero in H by lia. discriminate.
  - split.
    + intros ->. eexists; split; reflexivity.
    + intros (len & [= <-] & H). destruct items as [|x items]; [reflexivity|].
      simpl in H. rewrite of_Z_nonzero in H by lia. discriminate.
  - destruct (Obj.lookup (str "length") ps) as [x|]; simpl.
    + split; [intros H; eexists; split; [reflexivity|exact H] | intros (len & [= <-] & H); exact H].
    + split; [eexists; split; reflexivity | tauto].
Qed.

Lemma listing_lines items : forall entries,
  Forall2 shown_as items entries ->
  map_res name_tab_id items = Ok (map (fun e => fst e ++ [9%N] ++ snd e) entries).
Proof.
  induction items as [|x items IH]; intros entries H; inversion H as [|? e ? es Hx Hr]; subst.
  - reflexivity.
  - destruct Hx as (vn & vi & Hn & Hsn & Hi & Hsi).
    cbn [map_res map]. unfold name_tab_id at 1.
    rewrite Hn. cbn [res_bind]. rewrite Hsn. cbn [res_bind].
    rewrite Hi. cbn [res_bind]. rewrite Hsi. cbn [res_bind].
    rewrite (IH _ Hr). reflexivity.
Qed.

(** The common tail of the listing tools. *)
Lemma list_empty_tail v (none : jsstring) (f : value -> Res jsstring) w :
  empty_listing v ->
  (let* len := lift_res (get_length v) in
   if negb (truthy len) then ret none
   else let* lines := lift_res (js_map_lines v f) in ret (join [10%N] lines)) w
  = (Ok none, w).
Proof.
  intros H. apply get_length_falsy in H as (len & Hl & Ht).
  unfold bind, lift_res. rewrite Hl, Ht. reflexivity.
Qed.

Lemma list_lines_tail x items (none : jsstring) (f : value -> Res jsstring) lines w :
  map_res f (x :: items) = Ok lines ->
  (let* len := lift_res (get_length (VArr (x :: items))) in
   if negb (truthy len) then ret none
   else let* lines := lift_res (js_map_lines (VArr (x :: items)) f) in ret (join [10%N] lines)) w
  = (Ok (join [10%N] lines), w).
Proof.
  intros H. unfold bind at 1. unfold lift_res at 1. cbn [get_length truthy].
  rewrite of_Z_nonzero by (cbn [length]; lia). cbn [negb].
  unfold bind, lift_res. cbn [js_map_lines]. rewrite H. reflexivity.
Qed.

(** X9. Each of the three listing tools reports that nothing was found
    when the 2xx answer is the empty array, and also when it is any other
    JSON value whose [length] is falsy: a number, a boolean, the empty
    string, an object without a truthy [length]. *)
Theorem listing_tools_nothing_found w w1 w2 r v :
  ensureAuthenticated w = (Ok tt, w1) ->
  ok r = true -> Json.parse (resp_body r) = Some v -> empty_listing v ->
  (apiRequest (str "GET") (str "/location/") None true w1 = (Ok r, w2) ->
   createListLocationsTool_execute w = (Ok (str "No locations found."), w2)) /\
  (forall params locationId,
     to_string (param params (str "location_id")) = Ok locationId ->
     apiRequest (str "GET") (str "/location/" ++ locationId ++ str "/space/") None true w1
     = (Ok r, w2) ->
     createListSpacesTool_execute params w = (Ok (str "No spaces found."), w2)) /\
  (forall Date_parse,
     apiRequest (str "GET") (str "/booking/") None true w1 = (Ok r, w2) ->
     createListMyBookingsTool_execute Date_parse w = (Ok (str "No upcoming bookings."), w2)).
Proof.
  intros Hauth Hok Hp He. split; [|split].
  - intros Hreq. unfold createListLocationsTool_execute.
    unfold bind at 1. rewrite Hauth. unfold bind at 1. rewrite Hreq, Hok. cbn [negb].
    unfold bind at 1. unfold res_json. rewrite Hp. unfold ret at 1.
    apply list_empty_tail. exact He.
  - intros params locationId Hl Hreq. unfold createListSpacesTool_execute, String_.
    unfold bind at 1. unfold lift_res at 1. rewrite Hl.
    unfold bind at 1. rewrite Hauth. unfold bind at 1. rewrite Hreq, Hok. cbn [negb].
    unfold bind at 1. unfold res_json. rewrite Hp. unfold ret at 1.
    apply list_empty_tail. exact He.
  - intros Date_parse Hreq. unfold createListMyBookingsTool_execute.
    unfold bind at 1. rewrite Hauth. unfold bind at 1. rewrite Hreq, Hok. cbn [negb].
    unfold bind at 1. unfold res_json. rewrite Hp. unfold ret at 1.
    apply list_empty_tail. exact He.
Qed.

(** X10. On a 2xx answer that is a non-empty array, the location list and
    the space list give one line per entry, in the order of the answer:
    what the entry's [name] converts to, a tab, what its [id] converts
    to. *)
Theorem listing_tools_lines w w1 w2 r x items entries :
  ensureAuthenticated w = (Ok tt, w1) ->
  ok r = true -> Json.parse (resp_body r) = Some (VArr (x :: items)) ->
  Forall2 shown_as (x :: items) entries ->
  (apiRequest (str "GET") (str "/location/") None true w1 = (Ok r, w2) ->
   createListLocationsTool_execute w = (Ok (listing_text entries), w2)) /\
  (forall params locationId,
     to_string (param params (str "location_id")) = Ok locationId ->
     apiRequest (str "GET") (str "/location/" ++ locationId ++ str "/space/") None true w1
     = (Ok r, w2) ->
     createListSpacesTool_execute params w = (Ok (listing_text entries), w2)).
Proof.
  intros Hauth Hok Hp He. apply listing_lines in He. split.
  - intros Hreq. unfold createListLocationsTool_execute.
    unfold bind at 1. rewrite Hauth. unfold bind at 1. rewrite Hreq, Hok. cbn [negb].
    unfold bind at 1. unfold res_json. rewrite Hp. unfold ret at 1.
    apply list_lines_tail. exact He.
  - intros params locationId Hl Hreq. unfold createListSpacesTool_execute, String_.
    unfold bind at 1. unfold lift_res at 1. rewrite Hl.
    unfold bind at 1. rewrite Hauth. unfold bind at 1. rewrite Hreq, Hok. cbn [negb].
    unfold bind at 1. unfold res_json. rewrite Hp. unfold ret at 1.
    apply list_lines_tail. exact He.
Qed.

(** X11. A non-2xx answer to the request of a listing tool, of the
    cancellation, of the availability check or to the first request of the
    cache refresh makes the tool throw [Failed: <status>]; the body of the
    answer is not looked at. *)
Theorem tools_report_failed_status w w1 w2 r :
  ensureAuthenticated w = (Ok tt, w1) -> ok r = false ->
  (apiRequest (str "GET") (str "/location/") None true w1 = (Ok r, w2) ->
   createListLocationsTool_execute w = (Throw (failed r), w2) /\
   createRefreshSpacesTool_execute w = (Throw (failed r), w2)) /\
  (forall params locationId,
     to_string (param params (str "location_id")) = Ok locationId ->
     apiRequest (str "GET") (str "/location/" ++ locationId ++ str "/space/") None true w1
     = (Ok r, w2) ->
     createListSpacesTool_execute params w = (Throw (failed r), w2)) /\
  (forall Date_parse,
     apiRequest (str "GET") (str "/booking/") None true w1 = (Ok r, w2) ->
     createListMyBookingsTool_execute Date_parse w = (Throw (failed r), w2)) /\
  (forall params bookingId,
     to_string (param params (str "booking_id")) = Ok bookingId ->
     apiRequest (str "DELETE") (str "/booking/" ++ bookingId) None true w1 = (Ok r, w2) ->
     createCancelBookingTool_execute params w = (Throw (failed r), w2)) /\
  (forall params locationId st en url,
     to_string (param params (str "location_id")) = Ok locationId ->
     to_string (param params (str "start_time")) = Ok st ->
     to_string (param params (str "end_time")) = Ok en ->
     availability_url locationId (DateTime.parseDateTime st) (DateTime.parseDateTime en)
     = Ok url ->
     apiRequest (str "GET") url None true w1 = (Ok r, w2) ->
     createCheckAvailabilityTool_execute params w = (Throw (failed r), w2)).
Proof.
  intros Hauth Hok. split; [|split; [|split; [|split]]].
  - intros Hreq. split.
    + unfold createListLocationsTool_execute.
      unfold bind at 1. rewrite Hauth. unfold bind at 1. rewrite Hreq, Hok. reflexivity.
    + unfold createRefreshSpacesTool_execute.
      unfold bind at 1. rewrite Hauth. unfold bind at 1. rewrite Hreq, Hok. reflexivity.
  - intros params locationId Hl Hreq. unfold createListSpacesTool_execute, String_.
    unfold bind at 1. unfold lift_res at 1. rewrite Hl.
    unfold bind at 1. rewrite Hauth. unfold bind at 1. rewrite Hreq, Hok. reflexivity.
  - intros Date_parse Hreq. unfold createListMyBookingsTool_execute.
    unfold bind at 1. rewrite Hauth. unfold bind at 1. rewrite Hreq, Hok. reflexivity.
  - intros params bookingId Hb Hreq. unfold createCancelBookingTool_execute, String_.
    unfold bind at 1. unfold lift_res at 1. rewrite Hb.
    unfold bind at 1. rewrite Hauth. unfold bind at 1. rewrite Hreq, Hok. reflexivity.
  - intros params locationId st en url Hl Hst Hen Hurl Hreq.
    unfold createCheckAvailabilityTool_execute, String_, lift_res.
    unfold bind at 1. rewrite Hl.
    unfold bind at 1. rewrite Hst.
    unfold bind at 1. rewrite Hen.
    unfold bind at 1. rewrite Hauth.
    unfold availability_url in Hurl.
    destruct (Uri.encodeURIComponent (DateTime.parseDateTime st)) as [enter|]; [|discriminate].
    destruct (Uri.encodeURIComponent (DateTime.parseDateTime en)) as [leave|]; [|discriminate].
    cbn [res_bind] in Hurl.
    unfold bind at 1. unfold bind at 1. unfold bind at 1.
    replace (str "/location/" ++ locationId ++ str "/space/availability?enter=" ++ enter
             ++ str "&leave=" ++ leave) with url by congruence.
    rewrite Hreq, Hok. reflexivity.
Qed.

(** X12. With a session that needs no refresh, the cancellation sends one
    request: [DELETE] to [/booking/] followed by the id as given (it is not
    percent-encoded), with the bearer token and without a body.  Any 2xx
    answer counts as done, whatever its body; any other status is
    reported. *)
Theorem cancel_booking_exchange params w t o rest r bookingId :
  to_string (param params (str "booking_id")) = Ok bookingId ->
  accessToken (session w) = VStr t -> t <> [] ->
  now w <= tokenExpiresAt (session w) - 60000 ->
  net w = o :: rest -> delay o < 30000 -> result o = Responded r ->
  createCancelBookingTool_execute params w =
  (if ok r then Ok (str "Cancelled: " ++ bookingId) else Throw (failed r),
   exchanged (authenticated_request (str "DELETE")
                (baseUrl (session w) ++ str "/booking/" ++ bookingId) t None) o rest w).
Proof.
  intros Hb Ht Hne Hfresh Hnet Hd Hres.
  unfold createCancelBookingTool_execute, String_.
  unfold bind at 1. unfold lift_res at 1. rewrite Hb.
  unfold bind at 1. rewrite ensureAuthenticated_fresh;
    [| rewrite Ht; destruct t; [congruence|reflexivity] | exact Hfresh].
  unfold bind at 1. rewrite (apiRequest_bearer _ _ _ _ t Ht Hne).
  erewrite fetch_responded; [| exact Hnet | exact Hd | exact Hres].
  destruct (ok r); reflexivity.
Qed.

(** X13. Without an access token no tool but the login sends anything:
    each one throws the not-authenticated error and leaves the world as it
    is. *)
Theorem tools_need_a_session w :
  truthy (accessToken (session w)) = false ->
  createListLocationsTool_execute w = (Throw not_authenticated, w) /\
  createRefreshSpacesTool_execute w = (Throw not_authenticated, w) /\
  (forall Date_parse,
     createListMyBookingsTool_execute Date_parse w = (Throw not_authenticated, w)) /\
  (forall params locationId,
     to_string (param params (str "location_id")) = Ok locationId ->
     createListSpacesTool_execute params w = (Throw not_authenticated, w)) /\
  (forall params bookingId,
     to_string (param params (str "booking_id")) = Ok bookingId ->
     createCancelBookingTool_execute params w = (Throw not_authenticated, w)) /\
  (forall params locationId st en,
     to_string (param params (str "location_id")) = Ok locationId ->
     to_string (param params (str "start_time")) = Ok st ->
     to_string (param params (str "end_time")) = Ok en ->
     createCheckAvailabilityTool_execute params w = (Throw not_authenticated, w)) /\
  (forall params spaceId st en subject,
     to_string (param params (str "space_id")) = Ok spaceId ->
     to_string (param params (str "start_time")) = Ok st ->
     to_string (param params (str "end_time")) = Ok en ->
     to_string (js_or (param params (str "subject")) (VStr [])) = Ok subject ->
     createBookingTool_execute params w = (Throw not_authenticated, w)).
Proof.
  intros Hno. pose proof (ensureAuthenticated_no_token w Hno) as Hauth.
  repeat split.
  - unfold createListLocationsTool_execute. unfold bind at 1. rewrite Hauth. reflexivity.
  - unfold createRefreshSpacesTool_execute. unfold bind at 1. rewrite Hauth. reflexivity.
  - intros Date_parse.
    unfold createListMyBookingsTool_execute. unfold bind at 1. rewrite Hauth. reflexivity.
  - intros params locationId Hl. unfold createListSpacesTool_execute, String_, lift_res.
    unfold bind at 1. rewrite Hl. unfold bind at 1. rewrite Hauth. reflexivity.
  - intros params bookingId Hb. unfold createCancelBookingTool_execute, String_, lift_res.
    unfold bind at 1. rewrite Hb. unfold bind at 1. rewrite Hauth. reflexivity.
  - intros params locationId st en Hl Hst Hen.
    unfold createCheckAvailabilityTool_execute, String_, lift_res.
    unfold bind at 1. rewrite Hl. unfold bind at 1. rewrite Hst.
    unfold bind at 1. rewrite Hen. unfold bind at 1. rewrite Hauth. reflexivity.
  - intros params spaceId st en subject Hs Hst Hen Hsub.
    unfold createBookingTool_execute, String_, lift_res.
    unfold bind at 1. rewrite Hs. unfold bind at 1. rewrite Hst.
    unfold bind at 1. rewrite Hen. unfold bind at 1. rewrite Hsub.
    unfold bind at 1. rewrite Hauth. reflexivity.
Qed.

(** ** The login tool *)

Lemma login_tool_reads params w vu ve vp vo url email password org :
  resolveCredential params (str "url") (str "url") (str "SEATSURFING_URL") w = (Ok vu, w) ->
  to_string vu = Ok url ->
  resolveCredential params (str "email") (str "email") (str "SEATSURFING_EMAIL") w
  = (Ok ve, w) ->
  to_string ve = Ok email ->
  resolveCredential params (str "password") (str "password") (str "SEATSURFING_PASSWORD") w
  = (Ok vp, w) ->
  to_string vp = Ok password ->
  resolveCredential params (str "organization_id") (str "organization_id")
    (str "SEATSURFING_ORG_ID") w = (Ok vo, w) ->
  to_string vo = Ok org ->
  createLoginTool_execute params w =
  (if negb (truthy (VStr url)) then throw (Error (str "Seatsurfing URL is required"))
   else if negb (truthy (VStr email)) || negb (truthy (VStr password)) then
     throw (Error (str "Email and password are required"))
   else if negb (truthy (VStr org)) then throw (Error (str "Organization ID is required"))
   else
     login url email password org ;;;
     ensureAuthenticated ;;;
     let* res := apiRequest (str "GET") (str "/user/me") None true in
     let* user := res_json res in
     let* e := lift_res (get_prop user (str "email")) in
     let* who := String_ (js_or e (VStr (str "unknown"))) in
     ret (str "Logged in: " ++ who)) w.
Proof.
  intros Hu Hsu He Hse Hp Hsp Ho Hso.
  unfold createLoginTool_execute, String_, lift_res.
  unfold bind at 1. rewrite Hu. unfold bind at 1. rewrite Hsu.
  unfold bind at 1. rewrite He. unfold bind at 1. rewrite Hse.
  unfold bind at 1. rewrite Hp. unfold bind at 1. rewrite Hsp.
  unfold bind at 1. rewrite Ho. unfold bind at 1. rewrite Hso.
  reflexivity.
Qed.

(** X14. The login tool checks the four credentials, each resolved and
    converted to a string, before it contacts the server: an empty URL, an
    empty email or password, an empty organization id are reported in this
    order, and the world is as before (no request has been sent, the base
    URL is not changed). *)
Theorem login_tool_validates params w vu ve vp vo url email password org :
  resolveCredential params (str "url") (str "url") (str "SEATSURFING_URL") w = (Ok vu, w) ->
  to_string vu = Ok url ->
  resolveCredential params (str "email") (str "email") (str "SEATSURFING_EMAIL") w
  = (Ok ve, w) ->
  to_string ve = Ok email ->
  resolveCredential params (str "password") (str "password") (str "SEATSURFING_PASSWORD") w
  = (Ok vp, w) ->
  to_string vp = Ok password ->
  resolveCredential params (str "organization_id") (str "organization_id")
    (str "SEATSURFING_ORG_ID") w = (Ok vo, w) ->
  to_string vo = Ok org ->
  (url = [] ->
   createLoginTool_execute params w
   = (Throw (Error (str "Seatsurfing URL is required")), w)) /\
  (url <> [] -> email = [] \/ password = [] ->
   createLoginTool_execute params w
   = (Throw (Error (str "Email and password are required")), w)) /\
  (url <> [] -> email <> [] -> password <> [] -> org = [] ->
   createLoginTool_execute params w
   = (Throw (Error (str "Organization ID is required")), w)).
Proof.
  intros Hu Hsu He Hse Hp Hsp Ho Hso.
  rewrite (login_tool_reads _ _ _ _ _ _ _ _ _ _ Hu Hsu He Hse Hp Hsp Ho Hso).
  split; [|split].
  - intros ->. reflexivity.
  - intros Hne [-> | ->]; destruct url; try congruence; [reflexivity|].
    destruct email; reflexivity.
  - intros H1 H2 H3 ->. destruct url, email, password; try congruence. reflexivity.
Qed.

(** X15. With four non-empty credentials, a login that the server accepts
    with a non-empty access token [t] is followed at once by
    [GET /user/me] with that token; no refresh comes in between.  The tool
    answers [Logged in: ] with the [email] of the parsed answer, or with
    [unknown] when that is missing or falsy.  The status of the second
    answer plays no part. *)
Theorem login_tool_greets params w vu ve vp vo url email password org
    o1 o2 rest r1 r2 data t b user e who :
  resolveCredential params (str "url") (str "url") (str "SEATSURFING_URL") w = (Ok vu, w) ->
  to_string vu = Ok url ->
  resolveCredential params (str "email") (str "email") (str "SEATSURFING_EMAIL") w
  = (Ok ve, w) ->
  to_string ve = Ok email ->
  resolveCredential params (str "password") (str "password") (str "SEATSURFING_PASSWORD") w
  = (Ok vp, w) ->
  to_string vp = Ok password ->
  resolveCredential params (str "organization_id") (str "organization_id")
    (str "SEATSURFING_ORG_ID") w = (Ok vo, w) ->
  to_string vo = Ok org ->
  url <> [] -> email <> [] -> password <> [] -> org <> [] ->
  net w = o1 :: o2 :: rest ->
  delay o1 < 30000 -> result o1 = Responded r1 -> ok r1 = true ->
  Json.parse (resp_body r1) = Some data ->
  get_prop data (str "accessToken") = Ok (VStr t) -> t <> [] ->
  get_prop data (str "refreshToken") = Ok b ->
  delay o2 < 30000 -> result o2 = Responded r2 ->
  Json.parse (resp_body r2) = Some user ->
  get_prop user (str "email") = Ok e ->
  to_string (js_or e (VStr (str "unknown"))) = Ok who ->
  let base := strip_trailing_slash url in
  createLoginTool_execute params w =
  (Ok (str "Logged in: " ++ who),
   mkWorld (mkSession (VStr t) b (now w + delay o1 + 14 * 60 * 1000) base)
     (now w + delay o1 + delay o2) (env w) (disk w) rest
     (sent w ++ [login_request base email password org;
                 authenticated_request (str "GET") (base ++ str "/user/me") t None])).
Proof.
  intros Hu Hsu He Hse Hp Hsp Ho Hso Hnu Hnem Hnp Hno
    Hnet Hd1 Hr1 Hok1 Hp1 Ha Hnt Hb Hd2 Hr2 Hp2 Hem Hwho base.
  rewrite (login_tool_reads _ _ _ _ _ _ _ _ _ _ Hu Hsu He Hse Hp Hsp Ho Hso).
  destruct url as [|cu url']; [congruence|].
  destruct email as [|ce email']; [congruence|].
  destruct password as [|cp password']; [congruence|].
  destruct org as [|co org']; [congruence|].
  cbn [truthy negb orb].
  unfold bind at 1. rewrite login_cases.
  erewrite fetch_responded; [| exact Hnet | exact Hd1 | exact Hr1].
  rewrite Hok1. unfold bind at 1. unfold res_json at 1. rewrite Hp1. unfold ret at 1.
  rewrite (store_tokens_ok _ _ _ _ Ha Hb).
  unfold bind at 1. rewrite ensureAuthenticated_fresh;
    [| destruct t; [congruence|reflexivity] | cbn; lia].
  unfold bind at 1. erewrite (apiRequest_bearer _ _ _ _ t); [| reflexivity | exact Hnt].
  erewrite fetch_responded; [| reflexivity | exact Hd2 | exact Hr2].
  unfold bind at 1. unfold res_json. rewrite Hp2. unfold ret at 1.
  unfold bind at 1. unfold lift_res at 1. rewrite Hem.
  unfold bind at 1. unfold String_, lift_res. rewrite Hwho.
  unfold ret, exchanged, with_base, set_session. cbn.
  rewrite <- app_assoc. reflexivity.
Qed.

Lemma listing_tools_nothing_found_witness :
  (exists w2, createListLocationsTool_execute empty_answer_world
              = (Ok (str "No locations found."), w2)) /\
  (exists w2, createListSpacesTool_execute [(str "location_id", VStr (str "L1"))]
                empty_answer_world = (Ok (str "No spaces found."), w2)) /\
  (exists w2, createListMyBookingsTool_execute (fun _ => None) empty_answer_world
              = (Ok (str "No upcoming bookings."), w2)).
Proof.
  split; [|split]; eexists.
  - apply (proj1 (listing_tools_nothing_found empty_answer_world empty_answer_world
                    (snd (apiRequest (str "GET") (str "/location/") None true empty_answer_world))
                    (mkResponse 200 [] (str "{}")) (VObj [])
                    eq_refl eq_refl eq_refl I)).
    vm_compute; reflexivity.
  - apply (proj1 (proj2 (listing_tools_nothing_found empty_answer_world empty_answer_world
                    (snd (apiRequest (str "GET") (str "/location/L1/space/") None true empty_answer_world))
                    (mkResponse 200 [] (str "{}")) (VObj [])
                    eq_refl eq_refl eq_refl I))
             [(str "location_id", VStr (str "L1"))] (str "L1") eq_refl).
    vm_compute; reflexivity.
  - apply (proj2 (proj2 (listing_tools_nothing_found empty_answer_world empty_answer_world
                    (snd (apiRequest (str "GET") (str "/booking/") None true empty_answer_world))
                    (mkResponse 200 [] (str "{}")) (VObj [])
                    eq_refl eq_refl eq_refl I))
             (fun _ => None)).
    vm_compute; reflexivity.
Defined.

Lemma listing_tools_lines_witness :
  (exists w2, createListLocationsTool_execute two_locations_world
              = (Ok (listing_text [(str "Head office", str "L1"); (str "Annex", str "L2")]),
                 w2)) /\
  (exists w2, createListSpacesTool_execute [(str "location_id", VStr (str "L1"))]
                two_locations_world
              = (Ok (listing_text [(str "Head office", str "L1"); (str "Annex", str "L2")]),
                 w2)).
Proof.
  assert (Hshown : Forall2 shown_as [location_L1; location_L2]
                     [(str "Head office", str "L1"); (str "Annex", str "L2")]).
  { repeat constructor.
    - exists (VStr (str "Head office")), (VStr (str "L1")). repeat split.
    - exists (VStr (str "Annex")), (VStr (str "L2")). repeat split. }
  assert (Hparse : Json.parse (resp_body (mkResponse 200 []
                      (json_text (VArr [location_L1; location_L2]))))
                   = Some (VArr [location_L1; location_L2])) by (vm_compute; reflexivity).
  split; eexists.
  - apply (proj1 (listing_tools_lines two_locations_world two_locations_world
                    (snd (apiRequest (str "GET") (str "/location/") None true two_locations_world))
                    (mkResponse 200 [] (json_text (VArr [location_L1; location_L2])))
                    location_L1 [location_L2] _ eq_refl eq_refl Hparse Hshown)).
    vm_compute; reflexivity.
  - apply (proj2 (listing_tools_lines two_locations_world two_locations_world
                    (snd (apiRequest (str "GET") (str "/location/L1/space/") None true two_locations_world))
                    (mkResponse 200 [] (json_text (VArr [location_L1; location_L2])))
                    location_L1 [location_L2] _ eq_refl eq_refl Hparse Hshown)
             [(str "location_id", VStr (str "L1"))] (str "L1") eq_refl).
    vm_compute; reflexivity.
Defined.

Lemma tools_report_failed_status_witness :
  let r := mkResponse 503 [] (str "maintenance") in
  (exists w2, createListLocationsTool_execute refused_world = (Throw (failed r), w2)) /\
  (exists w2, createRefreshSpacesTool_execute refused_world = (Throw (failed r), w2)) /\
  (exists w2, createListSpacesTool_execute [(str "location_id", VStr (str "L1"))]
                refused_world = (Throw (failed r), w2)) /\
  (exists w2, createListMyBookingsTool_execute (fun _ => None) refused_world
              = (Throw (failed r), w2)) /\
  (exists w2, createCancelBookingTool_execute cancel_params refused_world
              = (Throw (failed r), w2)) /\
  (exists w2, createCheckAvailabilityTool_execute availability_params refused_world
              = (Throw (failed r), w2)).
Proof.
  cbv zeta.
  split; [|split; [|split; [|split; [|split]]]]; eexists.
  - apply (proj1 (tools_report_failed_status refused_world refused_world
                    (snd (apiRequest (str "GET") (str "/location/") None true refused_world))
                    (mkResponse 503 [] (str "maintenance")) eq_refl eq_refl)).
    vm_compute; reflexivity.
  - apply (proj1 (tools_report_failed_status refused_world refused_world
                    (snd (apiRequest (str "GET") (str "/location/") None true refused_world))
                    (mkResponse 503 [] (str "maintenance")) eq_refl eq_refl)).
    vm_compute; reflexivity.
  - apply (proj1 (proj2 (tools_report_failed_status refused_world refused_world
                    (snd (apiRequest (str "GET") (str "/location/L1/space/") None true refused_world))
                    (mkResponse 503 [] (str "maintenance")) eq_refl eq_refl))
             [(str "location_id", VStr (str "L1"))] (str "L1") eq_refl).
    vm_compute; reflexivity.
  - apply (proj1 (proj2 (proj2 (tools_report_failed_status refused_world refused_world
                    (snd (apiRequest (str "GET") (str "/booking/") None true refused_world))
                    (mkResponse 503 [] (str "maintenance")) eq_refl eq_refl)))
             (fun _ => None)).
    vm_compute; reflexivity.
  - apply (proj1 (proj2 (proj2 (proj2 (tools_report_failed_status refused_world refused_world
                    (snd (apiRequest (str "DELETE") (str "/booking/b/42") None true refused_world))
                    (mkResponse 503 [] (str "maintenance")) eq_refl eq_refl))))
             cancel_params (str "b/42") eq_refl).
    vm_compute; reflexivity.
  - apply (proj2 (proj2 (proj2 (proj2 (tools_report_failed_status refused_world refused_world
                    (snd (apiRequest (str "GET") (str "/location/loc-1/space/availability?enter=2025-06-01T09%3A00%3A00.000Z&leave=2025-06-01T17%3A00%3A00.000Z") None true refused_world))
                    (mkResponse 503 [] (str "maintenance")) eq_refl eq_refl))))
             availability_params (str "loc-1") (str "2025-06-01 09:00") (str "2025-06-01 17:00")
             (str "/location/loc-1/space/availability?enter=2025-06-01T09%3A00%3A00.000Z&leave=2025-06-01T17%3A00%3A00.000Z")
             eq_refl eq_refl eq_refl).
    + vm_compute; reflexivity.
    + vm_compute; reflexivity.
Defined.

Lemma cancel_booking_exchange_witness :
  createCancelBookingTool_execute cancel_params cancelling_world =
  (Ok (str "Cancelled: b/42"),
   exchanged (authenticated_request (str "DELETE")
                (str "https://desk.example.com/booking/b/42") (str "tok-A") None)
     (respond 204 []) [] cancelling_world).
Proof.
  apply (cancel_booking_exchange cancel_params cancelling_world (str "tok-A")
           (respond 204 []) [] (mkResponse 204 [] []) (str "b/42")).
  - reflexivity.
  - reflexivity.
  - discriminate.
  - vm_compute; discriminate.
  - reflexivity.
  - reflexivity.
  - reflexivity.
Defined.

Lemma tools_need_a_session_witness :
  let w := logged_out_rejected in
  createListLocationsTool_execute w = (Throw not_authenticated, w) /\
  createRefreshSpacesTool_execute w = (Throw not_authenticated, w) /\
  createListMyBookingsTool_execute (fun _ => None) w = (Throw not_authenticated, w) /\
  createListSpacesTool_execute [(str "location_id", VStr (str "L1"))] w
  = (Throw not_authenticated, w) /\
  createCancelBookingTool_execute cancel_params w = (Throw not_authenticated, w) /\
  createCheckAvailabilityTool_execute availability_params w = (Throw not_authenticated, w) /\
  createBookingTool_execute booking_params w = (Throw not_authenticated, w).
Proof.
  cbv zeta.
  destruct (tools_need_a_session logged_out_rejected eq_refl)
    as (H1 & H2 & H3 & H4 & H5 & H6 & H7).
  split; [exact H1|]. split; [exact H2|]. split; [exact (H3 _)|].
  split; [exact (H4 [(str "location_id", VStr (str "L1"))] (str "L1") eq_refl)|].
  split; [exact (H5 cancel_params (str "b/42") eq_refl)|].
  split; [exact (H6 availability_params (str "loc-1") (str "2025-06-01 09:00")
                   (str "2025-06-01 17:00") eq_refl eq_refl eq_refl)|].
  exact (H7 booking_params (str "space-7") (str "2025-06-01 09:00") (str "2025-06-01 17:00") []
           eq_refl eq_refl eq_refl eq_refl).
Defined.

Lemma login_tool_validates_witness :
  createLoginTool_execute [] logged_out_rejected
  = (Throw (Error (str "Seatsurfing URL is required")), logged_out_rejected) /\
  createLoginTool_execute [(str "url", VStr (str "https://desk.example.com"))]
    logged_out_rejected
  = (Throw (Error (str "Email and password are required")), logged_out_rejected) /\
  createLoginTool_execute
    [(str "url", VStr (str "https://desk.example.com"));
     (str "email", VStr (str "me@example.com")); (str "password", VStr (str "pw"))]
    logged_out_rejected
  = (Throw (Error (str "Organization ID is required")), logged_out_rejected).
Proof.
  split; [|split].
  - apply (proj1 (login_tool_validates [] logged_out_rejected
                    (VStr []) (VStr []) (VStr []) (VStr []) [] [] [] []
                    eq_refl eq_refl eq_refl eq_refl eq_refl eq_refl eq_refl eq_refl)).
    vm_compute; reflexivity.
  - apply (proj1 (proj2 (login_tool_validates
                    [(str "url", VStr (str "https://desk.example.com"))] logged_out_rejected
                    (VStr (str "https://desk.example.com")) (VStr []) (VStr []) (VStr [])
                    (str "https://desk.example.com") [] [] []
                    eq_refl eq_refl eq_refl eq_refl eq_refl eq_refl eq_refl eq_refl))).
    + discriminate.
    + left. reflexivity.
  - apply (proj2 (proj2 (login_tool_validates
                    [(str "url", VStr (str "https://desk.example.com"));
                     (str "email", VStr (str "me@example.com"));
                     (str "password", VStr (str "pw"))] logged_out_rejected
                    (VStr (str "https://desk.example.com")) (VStr (str "me@example.com"))
                    (VStr (str "pw")) (VStr [])
                    (str "https://desk.example.com") (str "me@example.com") (str "pw") []
                    eq_refl eq_refl eq_refl eq_refl eq_refl eq_refl eq_refl eq_refl))).
    + discriminate.
    + discriminate.
    + discriminate.
    + reflexivity.
Defined.

Lemma login_tool_greets_witness :
  let w := login_tool_world in
  let base := str "https://desk.example.com" in
  createLoginTool_execute login_params w =
  (Ok (str "Logged in: unknown"),
   mkWorld (mkSession (VStr (str "tok-A")) (VStr (str "tok-R"))
              (now w + 120 + 14 * 60 * 1000) base)
     (now w + 120 + 120) (env w) (disk w) []
     (sent w ++ [login_request base (str "me@example.com") (str "pw") (str "org-1");
                 authenticated_request (str "GET") (base ++ str "/user/me")
                   (str "tok-A") None])).
Proof.
  apply (login_tool_greets login_params login_tool_world
           (VStr (str "https://desk.example.com/")) (VStr (str "me@example.com"))
           (VStr (str "pw")) (VStr (str "org-1"))
           (str "https://desk.example.com/") (str "me@example.com") (str "pw") (str "org-1")
           (respond 200 (json_text (token_pair "tok-A" "tok-R"))) (respond 401 (str "{}")) []
           (mkResponse 200 [] (json_text (token_pair "tok-A" "tok-R")))
           (mkResponse 401 [] (str "{}"))
           (token_pair "tok-A" "tok-R") (str "tok-A") (VStr (str "tok-R"))
           (VObj []) VUndefined (str "unknown")).
  - reflexivity.
  - reflexivity.
  - reflexivity.
  - reflexivity.
  - reflexivity.
  - reflexivity.
  - reflexivity.
  - reflexivity.
  - discriminate.
  - discriminate.
  - discriminate.
  - discriminate.
  - reflexivity.
  - reflexivity.
  - reflexivity.
  - reflexivity.
  - vm_compute; reflexivity.
  - reflexivity.
  - discriminate.
  - reflexivity.
  - reflexivity.
  - reflexivity.
  - vm_compute; reflexivity.
  - reflexivity.
  - reflexivity.
Defined.

(** ** Auto-login *)

Lemma getCredential_defined key envVar w :
  parsed_or_empty (config_file (disk w)) <> VNull ->
  exists v, getCredential key envVar w = (Ok v, w).
Proof.
  intros Hcfg. rewrite getCredential_cases.
  pose proof (parsed_or_empty_defined (config_file (disk w))) as Hdef.
  destruct (env w !! envVar) as [[|c e]|]; eauto;
    destruct (parsed_or_empty (config_file (disk w))); simpl; eauto; congruence.
Qed.

Lemma login_values_cases u email password org w :
  login_values (VStr u) email password org w =
  match fetch (auto_login_request u email password org)
              (with_base (strip_trailing_slash u) w) with
  | (Ok r, w1) =>
      if ok r then bind (res_json r) store_tokens w1
      else (Throw (login_failed r), w1)
  | (Throw e, w1) => (Throw e, w1)
  end.
Proof.
  unfold login_values. unfold bind at 1. unfold set_baseUrl, modify. unfold bind at 1.
  rewrite apiRequest_unauthenticated.
  change (fetch _ _) with
    (fetch (auto_login_request u email password org)
       (with_base (strip_trailing_slash u) w)).
  destruct (fetch _ _) as [[r|e] w1]; [|reflexivity].
  destruct (ok r); reflexivity.
Qed.

Lemma login_values_frame u email password org w :
  let w' := snd (login_values (VStr u) email password org w) in
  env w' = env w /\ disk w' = disk w /\
  baseUrl (session w') = strip_trailing_slash u /\
  sent w' = sent w ++ [auto_login_request u email password org].
Proof.
  cbv zeta. rewrite login_values_cases.
  pose proof (fetch_frame (auto_login_request u email password org)
                (with_base (strip_trailing_slash u) w)) as Hf.
  cbv zeta in Hf.
  destruct (fetch _ _) as [[r|e] w1]; cbn [snd] in Hf; destruct Hf as (Hs & He & Hd & Hst);
    cbn [with_base session set_session env disk sent baseUrl] in *.
  - destruct (ok r).
    + pose proof (res_json_store_frame r w1) as Hj. cbv zeta in Hj.
      destruct Hj as (Hb & He' & Hd' & Hs' & _).
      rewrite He', Hd', Hb, Hs', Hs, He, Hd, Hst. repeat split.
    + cbn [snd]. rewrite Hs, He, Hd, Hst. repeat split.
  - cbn [snd]. rewrite Hs, He, Hd, Hst. repeat split.
Qed.

Lemma login_values_fails u email password org w :
  login_request_fails w ->
  exists e w1,
    login_values (VStr u) email password org w = (Throw e, w1) /\
    session w1 = session (with_base (strip_trailing_slash u) w).
Proof.
  intros Hfail. rewrite login_values_cases.
  unfold login_request_fails in Hfail. unfold fetch.
  cbn [with_base net set_session session].
  destruct (net w) as [|o rest]; [eexists _, _; split; reflexivity|].
  destruct (30000 <=? delay o) eqn:Ed; [eexists _, _; split; reflexivity|].
  apply Z.leb_gt in Ed.
  destruct (result o) as [r|]; [|eexists _, _; split; reflexivity].
  destruct Hfail as [Hfail|Hok]; [lia|].
  rewrite Hok. eexists _, _; split; reflexivity.
Qed.

(** X16. [tryAutoLogin] is silent: when the config file does not hold
    the JSON text [null], the four credentials are read without error
    and the call returns normally whatever the login does (refused,
    network down, malformed answer).  It leaves the environment and the
    disk alone.  When one of the four credentials is falsy, or the URL
    found is not a string, it does nothing at all.  Otherwise it sends
    exactly one request: the login, to the URL less one trailing slash,
    carrying the email, password and organization id that were found;
    that URL is the base URL afterwards, and when the login fails the
    tokens and the expiry are as before. *)
Theorem tryAutoLogin_is_silent w :
  parsed_or_empty (config_file (disk w)) <> VNull ->
  exists url email password org w',
    getCredential (str "url") (str "SEATSURFING_URL") w = (Ok url, w) /\
    getCredential (str "email") (str "SEATSURFING_EMAIL") w = (Ok email, w) /\
    getCredential (str "password") (str "SEATSURFING_PASSWORD") w = (Ok password, w) /\
    getCredential (str "organization_id") (str "SEATSURFING_ORG_ID") w = (Ok org, w) /\
    tryAutoLogin w = (Ok tt, w') /\ env w' = env w /\ disk w' = disk w /\
    match url with
    | VStr u =>
        if truthy url && truthy email && truthy password && truthy org then
          sent w' = sent w ++ [auto_login_request u email password org] /\
          baseUrl (session w') = strip_trailing_slash u /\
          (login_request_fails w ->
           session w' = session (with_base (strip_trailing_slash u) w))
        else w' = w
    | _ => w' = w
    end.
Proof.
  intros Hcfg.
  destruct (getCredential_defined (str "url") (str "SEATSURFING_URL") w Hcfg) as [url Hu].
  destruct (getCredential_defined (str "email") (str "SEATSURFING_EMAIL") w Hcfg) as [em He].
  destruct (getCredential_defined (str "password") (str "SEATSURFING_PASSWORD") w Hcfg)
    as [pw Hp].
  destruct (getCredential_defined (str "organization_id") (str "SEATSURFING_ORG_ID") w Hcfg)
    as [org Ho].
  exists url, em, pw, org.
  assert (Hrun : tryAutoLogin w =
                 (if truthy url && truthy em && truthy pw && truthy org
                  then try_catch (login_values url em pw org) (fun _ => ret tt)
                  else ret tt) w).
  { unfold tryAutoLogin.
    unfold bind at 1. rewrite Hu. unfold bind at 1. rewrite He.
    unfold bind at 1. rewrite Hp. unfold bind at 1. rewrite Ho. reflexivity. }
  rewrite Hrun.
  destruct (truthy url && truthy em && truthy pw && truthy org) eqn:Hall.
  - unfold try_catch.
    destruct url as [| | | |u| |];
      try (exists w; repeat (split; [first [assumption | reflexivity]|]); reflexivity).
    pose proof (login_values_frame u em pw org w) as Hf. cbv zeta in Hf.
    destruct (login_values (VStr u) em pw org w) as [[[]|e] w1] eqn:Hlogin; cbn [snd] in Hf;
      destruct Hf as (Hen & Hd & Hb & Hs);
      (exists w1;
       split; [exact Hu|]; split; [exact He|]; split; [exact Hp|]; split; [exact Ho|];
       split; [reflexivity|]; split; [exact Hen|]; split; [exact Hd|];
       cbv beta iota; split; [exact Hs|]; split; [exact Hb|]);
      intros Hfail;
      destruct (login_values_fails u em pw org w Hfail) as (e' & w2 & Hl2 & Hs2);
      rewrite Hlogin in Hl2; [discriminate|].
    injection Hl2 as _ <-. exact Hs2.
  - exists w. repeat (split; [first [assumption | reflexivity]|]).
    destruct url; reflexivity.
Qed.

Lemma tryAutoLogin_is_silent_witness :
  exists w',
    tryAutoLogin auto_login_world = (Ok tt, w') /\
    sent w' = [auto_login_request (str "https://desk.example.com/")
                 (VStr (str "me@example.com")) (VStr (str "pw")) (VStr (str "org-1"))] /\
    baseUrl (session w') = str "https://desk.example.com" /\
    accessToken (session w') = VNull.
Proof.
  destruct (tryAutoLogin_is_silent auto_login_world)
    as (url & em & pw & org & w' & Hu & He & Hp & Ho & Hrun & _ & _ & Hcase);
    [discriminate|].
  assert (Hu' : getCredential (str "url") (str "SEATSURFING_URL") auto_login_world
                = (Ok (VStr (str "https://desk.example.com/")), auto_login_world))
    by (vm_compute; reflexivity).
  assert (He' : getCredential (str "email") (str "SEATSURFING_EMAIL") auto_login_world
                = (Ok (VStr (str "me@example.com")), auto_login_world))
    by (vm_compute; reflexivity).
  assert (Hp' : getCredential (str "password") (str "SEATSURFING_PASSWORD") auto_login_world
                = (Ok (VStr (str "pw")), auto_login_world))
    by (vm_compute; reflexivity).
  assert (Ho' : getCredential (str "organization_id") (str "SEATSURFING_ORG_ID")
                  auto_login_world
                = (Ok (VStr (str "org-1")), auto_login_world))
    by (vm_compute; reflexivity).
  rewrite Hu' in Hu. rewrite He' in He. rewrite Hp' in Hp. rewrite Ho' in Ho.
  injection Hu as <-. injection He as <-. injection Hp as <-. injection Ho as <-.
  cbn [truthy andb] in Hcase. change (truthy (VStr (str "https://desk.example.com/")))
    with true in Hcase. change (truthy (VStr (str "me@example.com"))) with true in Hcase.
  change (truthy (VStr (str "pw"))) with true in Hcase.
  change (truthy (VStr (str "org-1"))) with true in Hcase.
  cbn [andb] in Hcase. destruct Hcase as (Hs & Hb & Hfail).
  exists w'. split; [exact Hrun|]. split; [exact Hs|]. split; [exact Hb|].
  rewrite Hfail; [reflexivity|].
  right. reflexivity.
Defined.

(** X17. The one way [tryAutoLogin] fails: the credentials are read
    outside the [try], so a config file that holds the JSON text [null]
    makes it throw as soon as a credential is not in the environment;
    nothing has been sent. *)
Theorem tryAutoLogin_null_config w :
  parsed_or_empty (config_file (disk w)) = VNull ->
  (exists key envVar, In (key, envVar) credential_keys /\
                      (env w !! envVar = None \/ env w !! envVar = Some [])) ->
  tryAutoLogin w = (Throw TypeError, w).
Proof.
  intros Hcfg Hmissing.
  assert (Hget : forall key envVar,
            getCredential key envVar w =
            match env w !! envVar with
            | Some (c :: e) => (Ok (VStr (c :: e)), w)
            | _ => (Throw TypeError, w)
            end).
  { intros key envVar. rewrite getCredential_cases, Hcfg.
    destruct (env w !! envVar) as [[|c e]|]; reflexivity. }
  unfold tryAutoLogin.
  destruct Hmissing as (key & envVar & Hin & Hm).
  unfold bind at 1. rewrite Hget.
  simpl in Hin.
  destruct (env w !! str "SEATSURFING_URL") as [[|c1 e1]|] eqn:E1; try reflexivity.
  unfold bind at 1. rewrite Hget.
  destruct (env w !! str "SEATSURFING_EMAIL") as [[|c2 e2]|] eqn:E2; try reflexivity.
  unfold bind at 1. rewrite Hget.
  destruct (env w !! str "SEATSURFING_PASSWORD") as [[|c3 e3]|] eqn:E3; try reflexivity.
  unfold bind at 1. rewrite Hget.
  destruct (env w !! str "SEATSURFING_ORG_ID") as [[|c4 e4]|] eqn:E4; try reflexivity.
  exfalso.
  destruct Hin as [[= <- <-]|[[= <- <-]|[[= <- <-]|[[= <- <-]|[]]]]];
    destruct Hm; congruence.
Qed.

Lemma tryAutoLogin_null_config_witness :
  tryAutoLogin null_config_world = (Throw TypeError, null_config_world).
Proof.
  apply (tryAutoLogin_null_config null_config_world).
  - vm_compute; reflexivity.
  - exists (str "url"), (str "SEATSURFING_URL"). split; [left; reflexivity|].
    left. reflexivity.
Defined.

(** ** Date-time normalisation, continued *)

Section DateTimeMore.

Import DateTime.

Lemma render_has_T c : includes (str "T") (render c) = true.
Proof.
  change (str "T") with [84%N]. apply includes_unit.
  unfold render. rewrite !in_app_iff. do 5 right. left. left. reflexivity.
Qed.

Lemma render_length c input sep :
  Matches sep input c -> length (render c) = 24%nat.
Proof.
  intros ([Hy _] & [Hm _] & [Hd _] & [Hh _] & [Hmi _] & Hs).
  unfold render. cbv zeta in Hs.
  destruct (cap_sec c) as [s|]; cbn [default from_option id].
  - destruct Hs as [[Hl _] _]. rewrite !length_app, Hy, Hm, Hd, Hh, Hmi, Hl. reflexivity.
  - rewrite !length_app, Hy, Hm, Hd, Hh, Hmi. reflexivity.
Qed.

Lemma separator_at sep input c : Matches sep input c -> nth_error input 4 = Some sep.
Proof.
  intros ([Hy _] & _ & _ & _ & _ & Hs). cbv zeta in Hs.
  destruct (cap_y c) as [|y1 [|y2 [|y3 [|y4 [|]]]]]; try discriminate.
  destruct (cap_sec c); [destruct Hs as [_ ->] | subst input]; reflexivity.
Qed.

Lemma parseDateTime_matched sep input c :
  In sep [45%N; 47%N] -> Matches sep input c -> parseDateTime input = render c.
Proof.
  intros Hsep HM.
  assert (HT : includes (str "T") input = false).
  { eapply matched_has_no_T; [|exact HM].
    simpl in Hsep. destruct Hsep as [<-|[<-|[]]]; discriminate. }
  unfold parseDateTime. rewrite HT. cbn [andb].
  unfold formats, try_formats.
  simpl in Hsep. destruct Hsep as [<-|[<-|[]]].
  - rewrite (match_format_complete _ _ _ HM). reflexivity.
  - destruct (match_format 45 input) as [c'|] eqn:E.
    + apply match_format_sound, separator_at in E.
      rewrite (separator_at _ _ _ HM) in E. discriminate.
    + rewrite (match_format_complete _ _ _ HM). reflexivity.
Qed.

Lemma render_iso_text c :
  render c = iso_text (cap_y c) (cap_m c) (cap_d c) (cap_h c) (cap_min c) (seconds_of c).
Proof.
  unfold render, iso_text, seconds_of.
  destruct (cap_sec c); reflexivity.
Qed.

(** X18. An input of one of the two accepted shapes is rewritten from its
    own groups of digits: year, month and day joined by hyphens, the
    letter T, hours, minutes and seconds joined by colons, with [00] for
    seconds that are absent, and [.000Z] at the end.  The result is 24
    characters long whatever digits the groups hold (no range is
    checked), and normalising it again changes nothing. *)
Theorem parseDateTime_rewrites sep input c :
  In sep [45%N; 47%N] -> Matches sep input c ->
  parseDateTime input
  = iso_text (cap_y c) (cap_m c) (cap_d c) (cap_h c) (cap_min c) (seconds_of c) /\
  length (parseDateTime input) = 24%nat /\
  parseDateTime (parseDateTime input) = parseDateTime input.
Proof.
  intros Hsep HM.
  pose proof (parseDateTime_matched _ _ _ Hsep HM) as Hp.
  split; [rewrite Hp; apply render_iso_text|]. split.
  - rewrite Hp. eapply render_length. exact HM.
  - rewrite Hp. unfold parseDateTime.
    rewrite render_has_T, (render_length _ _ _ HM). reflexivity.
Qed.

Lemma parseDateTime_rewrites_witness :
  parseDateTime (str "2025/06/01 09:00:30") = str "2025-06-01T09:00:30.000Z" /\
  length (parseDateTime (str "2025/06/01 09:00:30")) = 24%nat /\
  parseDateTime (parseDateTime (str "2025/06/01 09:00:30"))
  = parseDateTime (str "2025/06/01 09:00:30").
Proof.
  apply (parseDateTime_rewrites 47%N (str "2025/06/01 09:00:30")
           (Captures (str "2025") (str "06") (str "01") (str "09") (str "00")
              (Some (str "30")))).
  - right. left. reflexivity.
  - unfold Matches, all_digits. cbn.
    repeat split; repeat constructor.
Defined.

(** X19. [parseDateTime] is idempotent: applying it to its own result
    changes nothing, for every input. *)
Theorem parseDateTime_idempotent input :
  parseDateTime (parseDateTime input) = parseDateTime input.
Proof.
  unfold parseDateTime at 2 3.
  destruct (includes (str "T") input && (16 <=? length input)%nat) eqn:E.
  - unfold parseDateTime. rewrite E. reflexivity.
  - unfold formats, try_formats.
    destruct (match_format 45 input) as [c|] eqn:E1.
    { apply match_format_sound in E1.
      unfold parseDateTime. rewrite render_has_T, (render_length _ _ _ E1). reflexivity. }
    destruct (match_format 47 input) as [c|] eqn:E2.
    { apply match_format_sound in E2.
      unfold parseDateTime. rewrite render_has_T, (render_length _ _ _ E2). reflexivity. }
    unfold parseDateTime. rewrite E. unfold formats, try_formats. rewrite E1, E2.
    reflexivity.
Qed.

End DateTimeMore.

(** ** Property order *)

Lemma goes_before_asym a b : Obj.goes_before a b = true -> Obj.goes_before b a = false.
Proof.
  unfold Obj.goes_before.
  destruct (Obj.array_index a) as [i|], (Obj.array_index b) as [j|]; try congruence.
  intros H. apply N.ltb_lt in H. apply N.ltb_ge. lia.
Qed.

Lemma goes_before_trans a b c :
  Obj.goes_before a b = true -> Obj.goes_before b c = true -> Obj.goes_before a c = true.
Proof.
  unfold Obj.goes_before.
  destruct (Obj.array_index a) as [i|], (Obj.array_index b) as [j|],
    (Obj.array_index c) as [l|]; try congruence.
  intros H1 H2. apply N.ltb_lt in H1, H2. apply N.ltb_lt. lia.
Qed.

Lemma appendable_spec k seen :
  appendable k seen = true <->
  Forall (fun s => s <> k /\ Obj.goes_before k s = false) seen.
Proof.
  unfold appendable. rewrite forallb_forall, Forall_forall.
  split; intros H s Hs.
  - apply list_elem_of_In in Hs. apply H in Hs. apply andb_true_iff in Hs as [H1 H2].
    apply negb_true_iff in H1, H2. split; [|exact H2].
    intros ->. assert (jsstring_eqb k k = true) by (apply jsstring_eqb_eq; reflexivity).
    congruence.
  - apply list_elem_of_In in Hs. apply H in Hs as [H1 H2]. rewrite H2.
    destruct (jsstring_eqb s k) eqn:E; [apply jsstring_eqb_eq in E; congruence|reflexivity].
Qed.

Lemma ordered_from_spec ks : forall seen,
  ordered_from seen ks = true <->
  Forall (fun k => Forall (fun s => s <> k /\ Obj.goes_before k s = false) seen) ks /\
  key_sorted ks.
Proof.
  unfold key_sorted.
  induction ks as [|k ks IH]; intros seen; simpl.
  - split; [intros _; split; constructor | reflexivity].
  - rewrite andb_true_iff, appendable_spec, IH. split.
    + intros (Hk & Hall & Hs). split.
      * constructor; [exact Hk|].
        eapply Forall_impl; [exact Hall|]. cbv beta. intros a Ha.
        apply Forall_app in Ha. tauto.
      * constructor; [|exact Hs].
        eapply Forall_impl; [exact Hall|]. cbv beta. intros a Ha.
        apply Forall_app in Ha as [_ Ha]. inversion Ha; subst. assumption.
    + intros (Hall & Hs). inversion Hall as [|? ? Hk Hall']; subst.
      inversion Hs as [|? ? Hk' Hs']; subst.
      split; [exact Hk|]. split; [|exact Hs'].
      rewrite Forall_forall in *. intros a Ha.
      apply Forall_app. split; [apply Hall'; exact Ha|].
      constructor; [apply Hk'; exact Ha | constructor].
Qed.

Lemma ordered_sorted ks : ordered_from [] ks = true <-> key_sorted ks.
Proof.
  rewrite ordered_from_spec. split; [tauto|]. intros H. split; [|exact H].
  apply Forall_forall. intros; constructor.
Qed.

Lemma lookup_none_keys k ps : Obj.lookup k ps = None <-> ~ In k (map fst ps).
Proof.
  induction ps as [|[k' v'] ps IH]; simpl; [tauto|].
  destruct (jsstring_eqb k' k) eqn:E.
  - apply jsstring_eqb_eq in E. split; [discriminate|]. intros H. exfalso. apply H. auto.
  - rewrite IH. split; [|tauto]. intros H [H'|H']; [|tauto].
    subst. assert (jsstring_eqb k k = true) by (apply jsstring_eqb_eq; reflexivity).
    congruence.
Qed.

Lemma replace_keys k v ps : map fst (Obj.replace k v ps) = map fst ps.
Proof.
  induction ps as [|[k' v'] ps IH]; simpl; [reflexivity|].
  destruct (jsstring_eqb k' k); simpl; congruence.
Qed.

Lemma insert_new_keys k v ps q :
  In q (map fst (Obj.insert_new k v ps)) <-> q = k \/ In q (map fst ps).
Proof.
  induction ps as [|[k' v'] ps IH]; simpl; [intuition congruence|].
  destruct (Obj.goes_before k k'); simpl; [intuition congruence|].
  rewrite IH. intuition congruence.
Qed.

Lemma insert_new_sorted k v ps :
  ~ In k (map fst ps) -> key_sorted (map fst ps) ->
  key_sorted (map fst (Obj.insert_new k v ps)).
Proof.
  unfold key_sorted.
  induction ps as [|[k' v'] ps IH]; simpl; intros Hnew Hs.
  - repeat constructor.
  - inversion Hs as [|? ? Hk' Hs']; subst.
    destruct (Obj.goes_before k k') eqn:Hgb; simpl.
    + constructor; [|exact Hs].
      constructor.
      * split; [intuition congruence|]. apply goes_before_asym. exact Hgb.
      * rewrite Forall_forall in *. intros q Hq. split.
        -- intros ->. apply Hnew. right. apply list_elem_of_In. exact Hq.
        -- destruct (Obj.goes_before q k) eqn:E; [|reflexivity].
           pose proof (goes_before_trans _ _ _ E Hgb) as Ht.
           destruct (Hk' q Hq) as [_ Hf]. congruence.
    + constructor.
      * rewrite Forall_forall in *. intros q Hq.
        apply list_elem_of_In, insert_new_keys in Hq as [->|Hq].
        -- split; [intuition congruence|exact Hgb].
        -- apply Hk'. apply list_elem_of_In. exact Hq.
      * apply IH; [tauto|exact Hs'].
Qed.

Lemma define_sorted k v ps :
  key_sorted (map fst ps) -> key_sorted (map fst (Obj.define k v ps)).
Proof.
  intros Hs. unfold Obj.define, Obj.has.
  destruct (Obj.lookup k ps) eqn:E.
  - rewrite replace_keys. exact Hs.
  - apply insert_new_sorted; [apply lookup_none_keys; exact E | exact Hs].
Qed.

Lemma replace_values (P : value -> bool) k v ps :
  P v = true -> forallb (fun kv => P (snd kv)) ps = true ->
  forallb (fun kv => P (snd kv)) (Obj.replace k v ps) = true.
Proof.
  intros Hv. induction ps as [|[k' v'] ps IH]; simpl; [reflexivity|].
  intros H. apply andb_true_iff in H as [H1 H2].
  destruct (jsstring_eqb k' k); simpl; rewrite ?Hv, ?H1, ?H2, ?IH; auto.
Qed.

Lemma insert_new_values (P : value -> bool) k v ps :
  P v = true -> forallb (fun kv => P (snd kv)) ps = true ->
  forallb (fun kv => P (snd kv)) (Obj.insert_new k v ps) = true.
Proof.
  intros Hv. induction ps as [|[k' v'] ps IH]; simpl; [rewrite Hv; reflexivity|].
  intros H. pose proof H as H'. apply andb_true_iff in H as [H1 H2].
  destruct (Obj.goes_before k k'); simpl; rewrite ?Hv, ?H1, ?H2, ?IH; auto.
Qed.

Lemma assign_storable k v ps :
  storable v = true -> storable (VObj ps) = true -> storable (VObj (Obj.assign k v ps)) = true.
Proof.
  intros Hv Hps. unfold Obj.assign.
  destruct (jsstring_eqb k (str "__proto__")); [exact Hps|].
  cbn [storable] in *. apply andb_true_iff in Hps as [Ho Hvals].
  apply andb_true_iff. split.
  - apply ordered_sorted, define_sorted, ordered_sorted. exact Ho.
  - unfold Obj.define. destruct (Obj.has k ps);
      [apply replace_values | apply insert_new_values]; assumption.
Qed.

Lemma spaces_after_storable runs : forall acc,
  Forall plain_run runs -> storable (VObj acc) = true ->
  storable (VObj (spaces_after runs acc)) = true.
Proof.
  induction runs as [|run runs IH]; intros acc Hp Hacc; [exact Hacc|].
  inversion Hp as [|? ? [_ Hrun] Hruns]; subst.
  rewrite spaces_after_cons. apply IH; [exact Hruns|].
  unfold spaces_after. simpl.
  destruct (run_fetch run) as [r|r mapped]; [exact Hacc|].
  apply assign_storable; assumption.
Qed.

Lemma listed_storable locs : forall listed,
  Forall plain_entry locs -> map_res id_and_name locs = Ok listed ->
  forallb storable listed = true.
Proof.
  induction locs as [|loc locs IH]; intros listed Hp H; simpl in H.
  - injection H as <-. reflexivity.
  - inversion Hp as [|? ? (i & n & Hi & Hn & Hsi & Hsn) Hps]; subst.
    unfold id_and_name at 1 in H. rewrite Hi, Hn in H. cbn [res_bind] in H.
    destruct (map_res id_and_name locs) as [l|]; [|discriminate].
    cbn [res_bind] in H. injection H as <-.
    cbn [forallb]. rewrite (IH l Hps eq_refl), andb_true_r.
    change (Obj.literal [(str "id", i); (str "name", n)])
      with (VObj [(str "id", i); (str "name", n)]).
    cbn [storable map fst snd forallb]. rewrite Hsi, Hsn. reflexivity.
Qed.

Lemma snapshot_storable stamp listed spaces :
  forallb storable listed = true -> storable (VObj spaces) = true ->
  storable (snapshot stamp listed spaces) = true.
Proof.
  intros Hl Hs.
  change (snapshot stamp listed spaces)
    with (VObj [(str "updated_at", VStr stamp); (str "locations", VArr listed);
                (str "spaces", VObj spaces)]).
  cbn [storable map fst snd forallb] in *. rewrite Hl, Hs. reflexivity.
Qed.

(** ** Cache refresh, continued *)

(** The refresh in which every request is answered, step by step. *)
Lemma refresh_completes w w1 t d0 locRes runs rest stamp listed :
  ensureAuthenticated w = (Ok tt, w1) ->
  accessToken (session w1) = VStr t -> t <> [] ->
  net w1 = mkOutcome d0 (Responded locRes) :: map run_outcome runs ++ rest ->
  d0 < 30000 -> ok locRes = true ->
  Json.parse (resp_body locRes) = Some (VArr (map run_loc runs)) ->
  Forall well_formed_run runs ->
  toISOString (now w1 + d0 + total_delay runs) = Ok stamp ->
  writable (disk w1) = true -> cache_file (disk w1) <> Directory ->
  map_res id_and_name (map run_loc runs) = Ok listed ->
  createRefreshSpacesTool_execute w =
  (Ok (cache_summary listed (spaces_after runs [])),
   set_disk (mkDisk true (config_file (disk w1))
               (File (json_text (snapshot stamp listed (spaces_after runs [])))) NoFault)
     (after_runs (baseUrl (session w1)) t runs rest
        (exchanged (authenticated_request (str "GET")
                      (baseUrl (session w1) ++ str "/location/") t None)
           (mkOutcome d0 (Responded locRes)) (map run_outcome runs ++ rest) w1))).
Proof.
  intros Hauth Ht Hne Hnet Hd0 Hok Hparse Hwf Hstamp Hwr Hcache Hlisted.
  unfold createRefreshSpacesTool_execute.
  unfold bind at 1. rewrite Hauth.
  unfold bind at 1.
  rewrite (apiRequest_bearer _ _ _ _ t Ht Hne).
  erewrite fetch_responded; [| exact Hnet | exact Hd0 | reflexivity].
  rewrite Hok. cbn [negb].
  unfold bind at 1. unfold res_json. rewrite Hparse. unfold ret at 1.
  unfold bind at 1. unfold lift_res at 1. cbn [iterate].
  unfold bind at 1.
  erewrite refresh_locations_runs; [| exact Hwf | exact Ht | exact Hne | reflexivity].
  unfold bind at 1. unfold Date_now, gets.
  cbn [now after_runs exchanged delay].
  unfold bind at 1. unfold lift_res at 1. rewrite Hstamp.
  unfold bind at 1. unfold lift_res at 1. cbn [js_map]. rewrite Hlisted.
  fold (snapshot stamp listed (spaces_after runs [])).
  unfold bind at 1.
  erewrite saveSpacesCache_writes;
    [| apply stringify_literal | exact Hwr | exact Hcache].
  reflexivity.
Qed.

(** X20. After a cache refresh in which every request is answered and
    whose entries have ids and names that JSON keeps (strings, booleans,
    [null], arrays and objects of these), [loadSpacesCache] returns the
    snapshot just written: time stamp, locations and the spaces of the
    locations that were listed.  The requests sent are the location list
    followed by one space list per location, in the order of the
    answer. *)
Theorem refresh_then_load w w1 t d0 locRes runs rest stamp :
  ensureAuthenticated w = (Ok tt, w1) ->
  accessToken (session w1) = VStr t -> t <> [] ->
  net w1 = mkOutcome d0 (Responded locRes) :: map run_outcome runs ++ rest ->
  d0 < 30000 -> ok locRes = true ->
  Json.parse (resp_body locRes) = Some (VArr (map run_loc runs)) ->
  Forall well_formed_run runs -> Forall plain_run runs ->
  toISOString (now w1 + d0 + total_delay runs) = Ok stamp ->
  writable (disk w1) = true -> cache_file (disk w1) <> Directory ->
  exists listed text w',
    createRefreshSpacesTool_execute w = (Ok text, w') /\
    loadSpacesCache w' = (Ok (snapshot stamp listed (spaces_after runs [])), w') /\
    map_res id_and_name (map run_loc runs) = Ok listed /\
    sent w' = sent w1 ++
              authenticated_request (str "GET") (baseUrl (session w1) ++ str "/location/")
                t None
              :: map (spaces_request (baseUrl (session w1)) t) runs.
Proof.
  intros Hauth Ht Hne Hnet Hd0 Hok Hparse Hwf Hplain Hstamp Hwr Hcache.
  destruct (listed_locations runs Hwf) as (listed & Hlisted & _).
  exists listed. eexists. eexists. split; [|split; [|split]].
  - eapply refresh_completes; eassumption.
  - rewrite loadSpacesCache_reads_disk. cbn [disk set_disk cache_file parsed_or_empty].
    rewrite parse_json_text; [reflexivity|].
    apply snapshot_storable.
    + apply (listed_storable (map run_loc runs)); [|exact Hlisted].
      apply Forall_map. eapply Forall_impl; [exact Hplain|]. intros run [H _]. exact H.
    + apply spaces_after_storable; [exact Hplain|reflexivity].
  - exact Hlisted.
  - cbn [sent set_disk after_runs exchanged]. rewrite <- app_assoc. reflexivity.
Qed.

Lemma refresh_then_load_witness :
  exists listed text w',
    createRefreshSpacesTool_execute refresh_world = (Ok text, w') /\
    loadSpacesCache w'
    = (Ok (snapshot (str "2023-11-14T22:13:20.360Z") listed (spaces_after refresh_runs [])),
       w') /\
    map_res id_and_name (map run_loc refresh_runs) = Ok listed /\
    sent w' = sent refresh_world ++
              authenticated_request (str "GET")
                (baseUrl (session refresh_world) ++ str "/location/") (str "tok-A") None
              :: map (spaces_request (baseUrl (session refresh_world)) (str "tok-A"))
                   refresh_runs.
Proof.
  apply (refresh_then_load refresh_world refresh_world (str "tok-A") 120
           (mkResponse 200 [] (json_text (VArr [location_L1; location_L2])))
           refresh_runs []).
  - vm_compute; reflexivity.
  - reflexivity.
  - discriminate.
  - reflexivity.
  - reflexivity.
  - reflexivity.
  - vm_compute; reflexivity.
  - repeat constructor.
    + exists (VStr (str "L1")). split; reflexivity.
    + exists (VStr (str "L2")). split; reflexivity.
    + exists (VArr [desk_S1]). split; vm_compute; reflexivity.
  - repeat constructor.
    + exists (VStr (str "L1")), (VStr (str "Head office")). repeat split.
    + exists (VStr (str "L2")), (VStr (str "Annex")). repeat split.
  - vm_compute; reflexivity.
  - reflexivity.
  - discriminate.
Defined.

(** *** What the refresh does to the disk *)

Lemma keeps_disk_ret {A} (a : A) : keeps_disk (ret a).
Proof. intros w. reflexivity. Qed.

Lemma keeps_disk_throw {A} e : keeps_disk (throw (A:=A) e).
Proof. intros w. reflexivity. Qed.

Lemma keeps_disk_lift_res {A} (r : Res A) : keeps_disk (lift_res r).
Proof. intros w. reflexivity. Qed.

Lemma keeps_disk_gets {A} (f : World -> A) : keeps_disk (gets f).
Proof. intros w. reflexivity. Qed.

Lemma keeps_disk_bind {A B} (m : M A) (k : A -> M B) :
  keeps_disk m -> (forall a, keeps_disk (k a)) -> keeps_disk (bind m k).
Proof.
  intros Hm Hk w. unfold bind. specialize (Hm w).
  destruct (m w) as [[a|e] w1]; cbn [snd] in *; [|exact Hm].
  rewrite Hk. exact Hm.
Qed.

Lemma keeps_disk_if {A} (b : bool) (m1 m2 : M A) :
  keeps_disk m1 -> keeps_disk m2 -> keeps_disk (if b then m1 else m2).
Proof. destruct b; auto. Qed.

Lemma keeps_disk_fetch req : keeps_disk (fetch req).
Proof. intros w. apply fetch_frame. Qed.

Lemma keeps_disk_session_update (f : World -> Session) :
  keeps_disk (modify (fun w => set_session (f w) w)).
Proof. intros w. reflexivity. Qed.

Create HintDb frame.
#[local] Hint Resolve keeps_disk_ret keeps_disk_throw keeps_disk_lift_res keeps_disk_gets
  keeps_disk_fetch keeps_disk_session_update : frame.
#[local] Hint Extern 2 (keeps_disk (bind _ _)) => apply keeps_disk_bind; [|intros] : frame.
#[local] Hint Extern 2 (keeps_disk (if _ then _ else _)) => apply keeps_disk_if : frame.

Lemma keeps_disk_apiRequest m e b auth : keeps_disk (apiRequest m e b auth).
Proof. unfold apiRequest. auto 10 with frame. Qed.

Lemma keeps_disk_res_json r : keeps_disk (res_json r).
Proof. unfold res_json. destruct (Json.parse (resp_body r)); auto with frame. Qed.

Lemma keeps_disk_store_tokens data : keeps_disk (store_tokens data).
Proof.
  unfold store_tokens, set_accessToken, set_refreshToken, set_tokenExpiresAt, Date_now.
  auto 10 with frame.
Qed.

#[local] Hint Resolve keeps_disk_apiRequest keeps_disk_res_json keeps_disk_store_tokens : frame.

Lemma keeps_disk_ensureAuthenticated : keeps_disk ensureAuthenticated.
Proof.
  unfold ensureAuthenticated, set_accessToken, set_refreshToken, Date_now.
  auto 20 with frame.
Qed.

Lemma keeps_disk_refresh_location loc acc : keeps_disk (refresh_location loc acc).
Proof. unfold refresh_location, String_. auto 20 with frame. Qed.

Lemma keeps_disk_refresh_locations locs : forall acc, keeps_disk (refresh_locations locs acc).
Proof.
  induction locs as [|loc locs IH]; intros acc; simpl.
  - apply keeps_disk_ret.
  - apply keeps_disk_bind; [apply keeps_disk_refresh_location | intros; apply IH].
Qed.

#[local] Hint Resolve keeps_disk_ensureAuthenticated keeps_disk_refresh_locations : frame.

(** What a save does to the two files. *)
Lemma saveSpacesCache_files data w :
  let r := fst (saveSpacesCache data w) in
  let w' := snd (saveSpacesCache data w) in
  config_file (disk w') = config_file (disk w) /\ now w' = now w /\
  (r = Ok tt -> cache_file (disk w') = File (json_text data)) /\
  (r <> Ok tt ->
   cache_file (disk w') = cache_file (disk w) \/
   exists n, write_fault (disk w) = Interrupted n /\
             cache_file (disk w') = File (firstn n (json_text data))).
Proof.
  cbv zeta. unfold saveSpacesCache, json_text.
  destruct (Json.stringify data) as [text|];
    unfold bind, gets, mkdirSync, writeFileSync_cache, bind, gets, modify, ret, throw, set_disk;
    destruct w as [s n e [dir cfg cache wr] nt st];
    cbn [disk dir_exists write_fault cache_file config_file];
    destruct dir, wr as [| |k], cache; cbn;
    (split; [reflexivity|]); (split; [reflexivity|]);
    (split; [intros H; try discriminate H; reflexivity
            | intros H; try (left; reflexivity);
              try (right; exists k; split; reflexivity);
              exfalso; apply H; reflexivity]).
Qed.

(** What the steps before the save hand over. *)
Lemma refresh_gather_result w data summary w1 :
  refresh_gather w = (Ok (data, summary), w1) ->
  exists stamp listed spaces,
    toISOString (now w1) = Ok stamp /\
    data = snapshot stamp listed spaces /\ summary = cache_summary listed spaces.
Proof.
  unfold refresh_gather.
  unfold bind at 1. destruct (ensureAuthenticated w) as [[[]|e] w2]; [|discriminate].
  unfold bind at 1.
  destruct (apiRequest (str "GET") (str "/location/") None true w2) as [[r|e] w3];
    [|discriminate].
  destruct (ok r); cbn [negb]; [|discriminate].
  unfold bind at 1. destruct (res_json r w3) as [[locations|e] w4]; [|discriminate].
  unfold bind at 1. unfold lift_res at 1.
  destruct (iterate locations) as [locs|e]; [|discriminate].
  unfold bind at 1. destruct (refresh_locations locs [] w4) as [[spaces|e] w5]; [|discriminate].
  unfold bind at 1. unfold Date_now, gets.
  unfold bind at 1. unfold lift_res at 1.
  destruct (toISOString (now w5)) as [stamp|e] eqn:Hstamp; [|discriminate].
  unfold bind at 1. unfold lift_res at 1.
  destruct (js_map locations id_and_name) as [listed|e]; [|discriminate].
  unfold ret. intros [= <- <- <-].
  exists stamp, listed, spaces. repeat split. exact Hstamp.
Qed.

Lemma refresh_gather_save w :
  createRefreshSpacesTool_execute w =
  (let* p := refresh_gather in saveSpacesCache (fst p) ;;; ret (snd p)) w.
Proof.
  unfold createRefreshSpacesTool_execute, refresh_gather.
  unfold bind at 1. symmetry. unfold bind at 1. unfold bind at 1.
  destruct (ensureAuthenticated w) as [[[]|e] w1]; [|reflexivity].
  unfold bind at 1. symmetry. unfold bind at 1.
  destruct (apiRequest (str "GET") (str "/location/") None true w1) as [[r|e] w2];
    [|reflexivity].
  destruct (ok r); cbn [negb]; [|reflexivity].
  unfold bind at 1. symmetry. unfold bind at 1.
  destruct (res_json r w2) as [[locations|e] w3]; [|reflexivity].
  unfold bind at 1. symmetry. unfold bind at 1.
  destruct (lift_res (iterate locations) w3) as [[locs|e] w4]; [|reflexivity].
  unfold bind at 1. symmetry. unfold bind at 1.
  destruct (refresh_locations locs [] w4) as [[spaces|e] w5]; [|reflexivity].
  unfold bind at 1. symmetry. unfold bind at 1.
  destruct (Date_now w5) as [[t|e] w6]; [|reflexivity].
  unfold bind at 1. symmetry. unfold bind at 1.
  destruct (lift_res (toISOString t) w6) as [[stamp|e] w7]; [|reflexivity].
  unfold bind at 1. symmetry. unfold bind at 1.
  destruct (lift_res (js_map locations id_and_name) w7) as [[listed|e] w8]; [|reflexivity].
  reflexivity.
Qed.

Lemma keeps_disk_refresh_gather : keeps_disk refresh_gather.
Proof. unfold refresh_gather, Date_now. auto 30 with frame. Qed.

(** X21. The cache refresh writes the cache file last, and only there;
    the config file is never written.  When the tool returns, the file
    holds the snapshot that the returned summary describes, stamped with
    the time of the save.  When it throws, the cache file is as it was
    before the call, with one exception: a write that failed after the
    file was opened has replaced the old cache by the part of the new
    text written so far. *)
Theorem refresh_writes_cache_last w :
  let r := fst (createRefreshSpacesTool_execute w) in
  let w' := snd (createRefreshSpacesTool_execute w) in
  config_file (disk w') = config_file (disk w) /\
  (forall text,
     r = Ok text ->
     exists stamp listed spaces,
       toISOString (now w') = Ok stamp /\
       text = cache_summary listed spaces /\
       cache_file (disk w') = File (json_text (snapshot stamp listed spaces))) /\
  ((forall text, r <> Ok text) ->
   cache_file (disk w') = cache_file (disk w) \/
   exists n stamp listed spaces,
     write_fault (disk w) = Interrupted n /\
     cache_file (disk w')
     = File (firstn n (json_text (snapshot stamp listed spaces)))).
Proof.
  cbv zeta. rewrite refresh_gather_save. unfold bind, ret.
  pose proof (keeps_disk_refresh_gather w) as Hg.
  destruct (refresh_gather w) as [[[data summary]|e] w1] eqn:Hgather; cbn [fst snd] in *.
  - destruct (refresh_gather_result _ _ _ _ Hgather) as (stamp & listed & spaces & Hst & -> & ->).
    pose proof (saveSpacesCache_files (snapshot stamp listed spaces) w1) as Hs.
    cbv zeta in Hs.
    destruct (saveSpacesCache (snapshot stamp listed spaces) w1) as [[[]|e] w2];
      cbn [fst snd] in *; destruct Hs as (Hcfg & Hnow & Hok & Hfail); rewrite <- Hg.
    + split; [exact Hcfg|]. split.
      * intros text [= <-]. exists stamp, listed, spaces.
        rewrite Hnow. repeat split; [exact Hst | apply Hok; reflexivity].
      * intros H. exfalso. apply (H (cache_summary listed spaces)). reflexivity.
    + split; [exact Hcfg|]. split.
      * intros text H. discriminate.
      * intros _. destruct Hfail as [Hsame|(n & Hn & Hcut)]; [discriminate | left; exact Hsame |].
        right. exists n, stamp, listed, spaces. split; assumption.
  - rewrite Hg. split; [reflexivity|]. split.
    + intros text H. discriminate.
    + intros _. left. reflexivity.
Qed.

Lemma refresh_writes_cache_last_witness :
  let w := interrupted_refresh_world in
  let r := fst (createRefreshSpacesTool_execute w) in
  let w' := snd (createRefreshSpacesTool_execute w) in
  r = Throw FsError /\
  config_file (disk w') = config_file (disk w) /\
  (cache_file (disk w') = cache_file (disk w) \/
   exists n stamp listed spaces,
     write_fault (disk w) = Interrupted n /\
     cache_file (disk w')
     = File (firstn n (json_text (snapshot stamp listed spaces)))) /\
  cache_file (disk w') = File (str "{") /\
  cache_file (disk w) = File (str "{}").
Proof.
  cbv zeta.
  destruct (refresh_writes_cache_last interrupted_refresh_world) as (Hcfg & _ & Hthrow).
  assert (Hr : fst (createRefreshSpacesTool_execute interrupted_refresh_world) = Throw FsError)
    by (vm_compute; reflexivity).
  split; [exact Hr|]. split; [exact Hcfg|]. split.
  - apply Hthrow. intros text H. rewrite Hr in H. discriminate.
  - split; [vm_compute; reflexivity | reflexivity].
Defined.

(** ** Calendar arithmetic *)

Lemma month_of_day m d :
  1 <= m <= 12 -> 1 <= d <= 31 ->
  let mp := if 2 <? m then m - 3 else m + 9 in
  let doy := (153 * mp + 2) / 5 + d - 1 in
  (m <> 2 -> d <= (if (m =? 4) || (m =? 6) || (m =? 9) || (m =? 11) then 30 else 31)) ->
  (m = 2 -> d <= 29) ->
  0 <= mp <= 11 /\
  (5 * doy + 2) / 153 = mp /\ doy - (153 * mp + 2) / 5 + 1 = d /\
  (if mp <? 10 then mp + 3 else mp - 9) = m /\ 0 <= doy <= 365 /\
  (doy = 365 -> m = 2 /\ d = 29).
Proof.
  intros Hm Hd mp doy H1 H2. subst doy mp.
  assert (Hcases : m = 1 \/ m = 2 \/ m = 3 \/ m = 4 \/ m = 5 \/ m = 6 \/ m = 7 \/ m = 8 \/
                   m = 9 \/ m = 10 \/ m = 11 \/ m = 12) by lia.
  repeat (destruct Hcases as [->|Hcases]); try subst m; cbn in *;
    (repeat split; try lia).
  all: Z.div_mod_to_equations; lia.
Qed.

Lemma year_of_era yoe doy :
  0 <= yoe <= 399 -> 0 <= doy <= 365 ->
  (doy = 365 -> (yoe + 1) mod 4 = 0 /\ ((yoe + 1) mod 100 <> 0 \/ yoe = 399)) ->
  let doe := yoe * 365 + yoe / 4 - yoe / 100 + doy in
  0 <= doe <= 146096 /\
  (doe - doe / 1460 + doe / 36524 - doe / 146096) / 365 = yoe.
Proof.
  intros Hy Hd Hleap doe. subst doe.
  Z.div_mod_to_equations. lia.
Qed.

Lemma leap_february y d :
  d <= days_in_month y 2 -> d = 29 ->
  let yoe := (y - 1) - (y - 1) / 400 * 400 in
  (yoe + 1) mod 4 = 0 /\ ((yoe + 1) mod 100 <> 0 \/ yoe = 399).
Proof.
  unfold days_in_month, is_leap. change (2 =? 2) with true. cbv iota.
  intros Hd ->. cbv zeta.
  destruct (y mod 4 =? 0) eqn:E4; [|simpl in Hd; lia].
  apply Z.eqb_eq in E4.
  destruct (y mod 100 =? 0) eqn:E100.
  - destruct (y mod 400 =? 0) eqn:E400; [|simpl in Hd; lia].
    apply Z.eqb_eq in E100, E400. clear Hd. Z.div_mod_to_equations. lia.
  - apply Z.eqb_neq in E100. clear Hd. Z.div_mod_to_equations. lia.
Qed.

Lemma toISOString_utc y m d h mi s :
  valid_minute y m d h mi -> 0 <= s <= 59 ->
  toISOString (utc_ms y m d h mi s) =
  Ok (pad_left 4 (string_of_Z y) ++ str "-" ++ pad_left 2 (string_of_Z m) ++ str "-" ++
      pad_left 2 (string_of_Z d) ++ str "T" ++ pad_left 2 (string_of_Z h) ++ str ":" ++
      pad_left 2 (string_of_Z mi) ++ str ":" ++ pad_left 2 (string_of_Z s) ++ str "." ++
      pad_left 3 (string_of_Z 0) ++ str "Z").
Proof.
  intros (Hy & Hm & Hd & Hh & Hmi) Hs.
  assert (Hd31 : d <= 31).
  { unfold days_in_month in Hd.
    destruct (m =? 2); [destruct (is_leap y)|
      destruct ((m =? 4) || (m =? 6) || (m =? 9) || (m =? 11))]; lia. }
  set (y' := if m <=? 2 then y - 1 else y).
  set (era := y' / 400).
  set (yoe := y' - era * 400).
  set (mp := if 2 <? m then m - 3 else m + 9).
  set (doy := (153 * mp + 2) / 5 + d - 1).
  set (doe := yoe * 365 + yoe / 4 - yoe / 100 + doy).
  set (ms := h * 3600000 + mi * 60000 + s * 1000).
  assert (HD : days_from_civil y m d = era * 146097 + doe - 719468) by reflexivity.
  assert (Ht : utc_ms y m d h mi s = (era * 146097 + doe - 719468) * 86400000 + ms).
  { unfold utc_ms. rewrite HD. subst ms. lia. }
  assert (Hyoe : 0 <= yoe <= 399) by (subst yoe era; Z.div_mod_to_equations; lia).
  assert (Hera : -1 <= era <= 24) by (subst era y'; destruct (m <=? 2); Z.div_mod_to_equations; lia).
  destruct (month_of_day m d Hm (conj (proj1 Hd) Hd31)) as (Hmp & Hmp' & Hd' & Hm' & Hdoy & H365).
  { intros Hne. unfold days_in_month in Hd.
    destruct (m =? 2) eqn:E; [apply Z.eqb_eq in E; lia|]. lia. }
  { intros ->. unfold days_in_month in Hd. change (2 =? 2) with true in Hd.
    cbv iota in Hd. destruct (is_leap y); lia. }
  fold mp in Hmp, Hmp', Hd', Hm'. fold doy in Hmp', Hd', Hdoy, H365.
  destruct (year_of_era yoe doy Hyoe Hdoy) as (Hdoe & Hyoe').
  { intros H. destruct (H365 H) as [-> ->].
    subst yoe era y'. cbn [Z.leb Z.compare].
    apply (leap_february y 29); [lia|reflexivity]. }
  fold doe in Hdoe, Hyoe'.
  assert (Hms : 0 <= ms < 86400000) by (subst ms; lia).
  unfold toISOString.
  rewrite Ht.
  assert (Habs : (Z.abs ((era * 146097 + doe - 719468) * 86400000 + ms)
                  >? 8640000000000000) = false).
  { rewrite Z.gtb_ltb. apply Z.ltb_ge. lia. }
  rewrite Habs. cbv zeta.
  assert (E1 : ((era * 146097 + doe - 719468) * 86400000 + ms) / 86400000
               = era * 146097 + doe - 719468).
  { Z.div_mod_to_equations. lia. }
  assert (E2 : ((era * 146097 + doe - 719468) * 86400000 + ms) mod 86400000 = ms).
  { Z.div_mod_to_equations. lia. }
  rewrite !E1, !E2.
  replace (era * 146097 + doe - 719468 + 719468) with (era * 146097 + doe) by lia.
  assert (E3 : (era * 146097 + doe) / 146097 = era) by (Z.div_mod_to_equations; lia).
  rewrite !E3.
  replace (era * 146097 + doe - era * 146097) with doe by lia.
  rewrite !Hyoe'.
  replace (doe - (365 * yoe + yoe / 4 - yoe / 100)) with doy by (subst doe; lia).
  rewrite !Hmp', !Hd', !Hm'.
  assert (E4 : yoe + era * 400 + (if m <=? 2 then 1 else 0) = y).
  { subst yoe y'. destruct (m <=? 2); lia. }
  rewrite !E4.
  assert (E5 : ((0 <=? y) && (y <=? 9999)) = true).
  { apply andb_true_iff. split; apply Z.leb_le; lia. }
  rewrite E5.
  assert (E6 : ms / 3600000 = h) by (subst ms; Z.div_mod_to_equations; lia).
  assert (E7 : ms / 60000 mod 60 = mi) by (subst ms; Z.div_mod_to_equations; lia).
  assert (E8 : ms / 1000 mod 60 = s) by (subst ms; Z.div_mod_to_equations; lia).
  assert (E9 : ms mod 1000 = 0) by (subst ms; Z.div_mod_to_equations; lia).
  rewrite E6, E7, E8, E9. reflexivity.
Qed.

(** ** Padded numerals *)

Lemma pad_digits width bound z :
  forallb (padded_digits width) (seq 0 (Z.to_nat bound)) = true ->
  0 <= z < bound ->
  all_digits width (pad_left width (string_of_Z z)).
Proof.
  intros Hall Hz. rewrite forallb_forall in Hall.
  specialize (Hall (Z.to_nat z)).
  unfold padded_digits in Hall. rewrite Z2Nat.id in Hall by lia.
  assert (Hin : In (Z.to_nat z) (seq 0 (Z.to_nat bound))) by (apply in_seq; lia).
  apply Hall in Hin. apply andb_true_iff in Hin as [Hl Hd].
  split.
  - apply Nat.eqb_eq. exact Hl.
  - rewrite forallb_forall in Hd. apply Forall_forall. intros c Hc.
    apply Hd. apply list_elem_of_In. exact Hc.
Qed.

Lemma four_digits z : 0 <= z <= 9999 -> all_digits 4 (pad_left 4 (string_of_Z z)).
Proof.
  intros Hz. apply (pad_digits 4 10000); [vm_compute; reflexivity | lia].
Qed.

Lemma two_digits z : 0 <= z <= 99 -> all_digits 2 (pad_left 2 (string_of_Z z)).
Proof.
  intros Hz. apply (pad_digits 2 100); [vm_compute; reflexivity | lia].
Qed.

Lemma digit_is_not_T c : is_digit c = true -> unit_eqb c 84 = false.
Proof.
  unfold is_digit, unit_eqb. intros H. apply andb_true_iff in H as [_ H].
  apply N.leb_le in H. apply N.eqb_neq. lia.
Qed.

Lemma all_digits_2 s :
  all_digits 2 s -> exists a b, s = [a; b] /\ is_digit a = true /\ is_digit b = true.
Proof.
  intros [Hl Hf]. destruct s as [|a [|b [|]]]; try discriminate.
  inversion Hf as [|? ? Ha Hf']; subst. inversion Hf' as [|? ? Hb _]; subst.
  eauto.
Qed.

Lemma all_digits_4 s :
  all_digits 4 s ->
  exists a b c d, s = [a; b; c; d] /\ is_digit a = true /\ is_digit b = true /\
                  is_digit c = true /\ is_digit d = true.
Proof.
  intros [Hl Hf]. destruct s as [|a [|b [|c [|d [|]]]]]; try discriminate.
  inversion Hf as [|? ? Ha Hf1]; subst. inversion Hf1 as [|? ? Hb Hf2]; subst.
  inversion Hf2 as [|? ? Hc Hf3]; subst. inversion Hf3 as [|? ? Hd _]; subst.
  exists a, b, c, d. auto.
Qed.

(** ** Display of a normalised time *)

Lemma minute_text_matches y m d h mi :
  valid_minute y m d h mi ->
  Matches 45 (minute_text y m d h mi)
    (DateTime.Captures (pad_left 4 (string_of_Z y)) (pad_left 2 (string_of_Z m))
       (pad_left 2 (string_of_Z d)) (pad_left 2 (string_of_Z h))
       (pad_left 2 (string_of_Z mi)) None).
Proof.
  intros (Hy & Hm & Hd & Hh & Hmi).
  assert (Hd31 : d <= 31).
  { unfold days_in_month in Hd.
    destruct (m =? 2); [destruct (is_leap y)|
      destruct ((m =? 4) || (m =? 6) || (m =? 9) || (m =? 11))]; lia. }
  unfold Matches. cbn [DateTime.cap_y DateTime.cap_m DateTime.cap_d DateTime.cap_h
                       DateTime.cap_min DateTime.cap_sec].
  split; [apply four_digits; lia|].
  split; [apply two_digits; lia|].
  split; [apply two_digits; lia|].
  split; [apply two_digits; lia|].
  split; [apply two_digits; lia|].
  reflexivity.
Qed.

Lemma show_minute a1 a2 a3 a4 b1 b2 c1 c2 d1 d2 e1 e2 tail :
  Forall (fun c => is_digit c = true) [a1; a2; a3; a4; b1; b2; c1; c2; d1; d2; e1; e2] ->
  replace_first_T
    (firstn 16 ([a1; a2; a3; a4] ++ str "-" ++ [b1; b2] ++ str "-" ++ [c1; c2] ++ str "T" ++
                [d1; d2] ++ str ":" ++ [e1; e2] ++ tail))
  = [a1; a2; a3; a4] ++ str "-" ++ [b1; b2] ++ str "-" ++ [c1; c2] ++ str " " ++
    [d1; d2] ++ str ":" ++ [e1; e2].
Proof.
  intros H.
  repeat match goal with
         | H : Forall _ (_ :: _) |- _ =>
             let Hc := fresh "Hc" in
             inversion H as [|? ? Hc ?]; subst; clear H; apply digit_is_not_T in Hc
         end.
  change (str "-") with [45%N]. change (str "T") with [84%N].
  change (str ":") with [58%N]. change (str " ") with [32%N].
  cbn [app firstn replace_first_T].
  repeat match goal with Hc : unit_eqb _ 84 = false |- _ => rewrite Hc; clear Hc end.
  reflexivity.
Qed.

(** X22. A date and time to the minute, written [YYYY-MM-DD HH:MM] (a
    date of the calendar, year 0000 to 9999), survives the round trip
    through the two conversions: [parseDateTime] turns it into the ISO
    text of that minute, and for a [Date.parse] that reads this text as
    that minute of UTC, [formatDateTime] turns the ISO text back into the
    original.  The ISO text is also what [toISOString] gives for that
    time. *)
Theorem formatDateTime_parseDateTime Date_parse y m d h mi :
  valid_minute y m d h mi ->
  Date_parse (DateTime.parseDateTime (minute_text y m d h mi))
  = Some (utc_ms y m d h mi 0) ->
  formatDateTime Date_parse (VStr (DateTime.parseDateTime (minute_text y m d h mi)))
  = VStr (minute_text y m d h mi) /\
  toISOString (utc_ms y m d h mi 0)
  = Ok (DateTime.parseDateTime (minute_text y m d h mi)).
Proof.
  intros Hv Hparse.
  pose proof (minute_text_matches y m d h mi Hv) as HM.
  pose proof (parseDateTime_matched 45%N _ _ (or_introl eq_refl) HM) as Hp.
  rewrite Hp in *.
  assert (Hiso : toISOString (utc_ms y m d h mi 0)
                 = Ok (DateTime.render
                         (DateTime.Captures (pad_left 4 (string_of_Z y))
                            (pad_left 2 (string_of_Z m)) (pad_left 2 (string_of_Z d))
                            (pad_left 2 (string_of_Z h)) (pad_left 2 (string_of_Z mi)) None))).
  { rewrite (toISOString_utc y m d h mi 0 Hv) by lia.
    unfold DateTime.render.
    cbn [DateTime.cap_y DateTime.cap_m DateTime.cap_d DateTime.cap_h DateTime.cap_min
         DateTime.cap_sec default from_option id].
    reflexivity. }
  split; [|exact Hiso].
  unfold formatDateTime, new_Date. rewrite Hparse.
  assert (Hclip : time_clip (Some (utc_ms y m d h mi 0)) = Some (utc_ms y m d h mi 0)).
  { unfold time_clip. unfold toISOString in Hiso.
    destruct (Z.abs (utc_ms y m d h mi 0) >? 8640000000000000) eqn:E; [discriminate|].
    rewrite Z.gtb_ltb in E. apply Z.ltb_ge in E.
    destruct (Z.abs (utc_ms y m d h mi 0) <=? 8640000000000000) eqn:E'; [reflexivity|].
    apply Z.leb_gt in E'. lia. }
  rewrite Hclip, Hiso. f_equal.
  destruct HM as (Hy & Hm & Hd & Hh & Hmi & _).
  cbn [DateTime.cap_y DateTime.cap_m DateTime.cap_d DateTime.cap_h DateTime.cap_min] in *.
  unfold minute_text, DateTime.render.
  cbn [DateTime.cap_y DateTime.cap_m DateTime.cap_d DateTime.cap_h DateTime.cap_min
       DateTime.cap_sec].
  apply all_digits_4 in Hy as (a1 & a2 & a3 & a4 & -> & Ha1 & Ha2 & Ha3 & Ha4).
  apply all_digits_2 in Hm as (b1 & b2 & -> & Hb1 & Hb2).
  apply all_digits_2 in Hd as (c1 & c2 & -> & Hc1 & Hc2).
  apply all_digits_2 in Hh as (d1 & d2 & -> & Hd1 & Hd2).
  apply all_digits_2 in Hmi as (e1 & e2 & -> & He1 & He2).
  apply show_minute. repeat constructor; assumption.
Qed.

Lemma formatDateTime_parseDateTime_witness :
  let Date_parse := fun _ : jsstring => Some 1748768400000 in
  formatDateTime Date_parse (VStr (DateTime.parseDateTime (minute_text 2025 6 1 9 0)))
  = VStr (minute_text 2025 6 1 9 0) /\
  toISOString (utc_ms 2025 6 1 9 0 0)
  = Ok (DateTime.parseDateTime (minute_text 2025 6 1 9 0)).
Proof.
  apply (formatDateTime_parseDateTime (fun _ => Some 1748768400000) 2025 6 1 9 0).
  - unfold valid_minute. vm_compute. repeat split; discriminate.
  - vm_compute; reflexivity.
Defined.

(** ** The availability query *)

Lemma encode_unreserved s t :
  Forall (fun c => Uri.unreserved c = true) s ->
  Uri.encodeURIComponent (s ++ t)
  = res_bind (Uri.encodeURIComponent t) (fun t' => Ok (s ++ t')).
Proof.
  induction 1 as [|c s Hc Hs IH]; cbn [app].
  - destruct (Uri.encodeURIComponent t); reflexivity.
  - cbn [Uri.encodeURIComponent]. rewrite Hc, IH.
    destruct (Uri.encodeURIComponent t); reflexivity.
Qed.

Lemma encode_colon t :
  Uri.encodeURIComponent (str ":" ++ t)
  = res_bind (Uri.encodeURIComponent t) (fun t' => Ok (str "%3A" ++ t')).
Proof. reflexivity. Qed.

Lemma digits_unreserved n s :
  all_digits n s -> Forall (fun c => Uri.unreserved c = true) s.
Proof.
  intros [_ H]. eapply Forall_impl; [exact H|]. cbv beta. intros c Hc.
  unfold is_digit in Hc. unfold Uri.unreserved. rewrite Hc.
  rewrite !orb_true_r. reflexivity.
Qed.

Lemma encode_render sep input c :
  Matches sep input c -> Uri.encodeURIComponent (DateTime.render c) = Ok (encoded_time c).
Proof.
  intros (Hy & Hm & Hd & Hh & Hmi & Hs).
  assert (Hsec : Forall (fun c => Uri.unreserved c = true)
                   (default (str "00") (DateTime.cap_sec c))).
  { cbv zeta in Hs. destruct (DateTime.cap_sec c) as [s|]; cbn [default from_option id].
    - destruct Hs as [Hs _]. eapply digits_unreserved. exact Hs.
    - repeat constructor. }
  unfold DateTime.render, encoded_time.
  rewrite (encode_unreserved (DateTime.cap_y c)) by (eapply digits_unreserved; eassumption).
  rewrite (encode_unreserved (str "-")) by (repeat constructor).
  rewrite (encode_unreserved (DateTime.cap_m c)) by (eapply digits_unreserved; eassumption).
  rewrite (encode_unreserved (str "-")) by (repeat constructor).
  rewrite (encode_unreserved (DateTime.cap_d c)) by (eapply digits_unreserved; eassumption).
  rewrite (encode_unreserved (str "T")) by (repeat constructor).
  rewrite (encode_unreserved (DateTime.cap_h c)) by (eapply digits_unreserved; eassumption).
  rewrite encode_colon.
  rewrite (encode_unreserved (DateTime.cap_min c)) by (eapply digits_unreserved; eassumption).
  rewrite encode_colon.
  rewrite (encode_unreserved _ (str ".000Z")) by exact Hsec.
  reflexivity.
Qed.

(** X23. For start and end times of the accepted shapes, the availability
    query is well defined (the encoding cannot fail): the times go in
    normalised and percent-encoded, so that each colon reads [%3A]; the
    location id goes into the path as it is. *)
Theorem availability_url_of_times locationId sep1 sep2 st en c1 c2 :
  In sep1 [45%N; 47%N] -> Matches sep1 st c1 ->
  In sep2 [45%N; 47%N] -> Matches sep2 en c2 ->
  availability_url locationId (DateTime.parseDateTime st) (DateTime.parseDateTime en)
  = Ok (str "/location/" ++ locationId ++ str "/space/availability?enter="
        ++ encoded_time c1 ++ str "&leave=" ++ encoded_time c2).
Proof.
  intros Hs1 H1 Hs2 H2. unfold availability_url.
  rewrite (parseDateTime_matched _ _ _ Hs1 H1), (parseDateTime_matched _ _ _ Hs2 H2).
  rewrite (encode_render _ _ _ H1), (encode_render _ _ _ H2). reflexivity.
Qed.

Lemma availability_url_of_times_witness :
  availability_url (str "loc 1") (DateTime.parseDateTime (str "2025-06-01 09:00"))
    (DateTime.parseDateTime (str "2025/06/01 17:30:15"))
  = Ok (str "/location/loc 1/space/availability?enter=2025-06-01T09%3A00%3A00.000Z&leave=2025-06-01T17%3A30%3A15.000Z").
Proof.
  apply (availability_url_of_times (str "loc 1") 45%N 47%N
           (str "2025-06-01 09:00") (str "2025/06/01 17:30:15")
           (DateTime.Captures (str "2025") (str "06") (str "01") (str "09") (str "00") None)
           (DateTime.Captures (str "2025") (str "06") (str "01") (str "17") (str "30")
              (Some (str "15")))).
  - left. reflexivity.
  - unfold Matches, all_digits. cbn. repeat split; repeat constructor.
  - right. left. reflexivity.
  - unfold Matches, all_digits. cbn. repeat split; repeat constructor.
Defined.
